(** * Ownership detection and configuration writing of coverage-dashboard

    A shallow embedding of [internal/ownership] (the detector with its
    four-step fallback chain) and of [internal/config] (the configuration
    writer that maintains the CODEOWNERS file).  Go strings are byte strings;
    they are modelled as Stdlib [string] (a list of 8-bit [ascii]). *)

From Stdlib Require Import List Bool Arith Lia String Ascii.
Import ListNotations.
Open Scope list_scope.
Open Scope string_scope.

(** Results of fallible Go calls, [(value, err)]: the value on [Ok], the
    error message on [Err]. *)
Inductive result (A : Type) : Type :=
| Ok : A -> result A
| Err : string -> result A.
Arguments Ok {A} _.
Arguments Err {A} _.

(** Characters of the regexp class [[a-zA-Z0-9_-]]. *)
Definition is_word_char (c : ascii) : bool :=
  let n := nat_of_ascii c in
  (((97 <=? n) && (n <=? 122)) || ((65 <=? n) && (n <=? 90))
   || ((48 <=? n) && (n <=? 57)) || (n =? 95) || (n =? 45))%nat.

(** Greedy [[a-zA-Z0-9_-]*] at the start of a string: the run and the rest. *)
Fixpoint span_word (s : string) : string * string :=
  match s with
  | EmptyString => ("", "")
  | String c s' =>
      if is_word_char c then
        let (w, r) := span_word s' in (String c w, r)
      else ("", s)
  end.

(** [seen[x]] on a Go [map[string]bool] used as a set. *)
Definition mem (x : string) (l : list string) : bool :=
  existsb (String.eqb x) l.

Module Ownership.

(** ** The regexp [@[a-zA-Z0-9_-]+(/[a-zA-Z0-9_-]+)?] and [FindAllString] *)

(** Leftmost-first match anchored at the start of [s]: the matched text and
    the rest of the input.  Both quantifiers are greedy and the optional
    group is preferred; since ['/'] is not a word character, the greedy runs
    never need to backtrack. *)
Definition match_owner_at (s : string) : option (string * string) :=
  match s with
  | String c s1 =>
      if Ascii.eqb c "@"%char then
        let (w1, r1) := span_word s1 in
        if w1 =? "" then None
        else
          match r1 with
          | String c2 s2 =>
              if Ascii.eqb c2 "/"%char then
                let (w2, r2) := span_word s2 in
                if w2 =? "" then Some (String "@" w1, r1)
                else Some (String "@" (w1 ++ String "/" w2), r2)
              else Some (String "@" w1, r1)
          | EmptyString => Some (String "@" w1, r1)
          end
      else None
  | EmptyString => None
  end.

(** [FindAllString(content, -1)]: successive non-overlapping leftmost
    matches; when no match starts at the current position the scan moves one
    byte on (the pattern is ASCII, so moving by byte or by rune finds the
    same matches).  Every step consumes at least one byte, so [length s]
    steps of fuel suffice. *)
Fixpoint find_all_fuel (fuel : nat) (s : string) : list string :=
  match fuel with
  | O => []
  | S f =>
      match s with
      | EmptyString => []
      | String _ s' =>
          match match_owner_at s with
          | Some (m, rest) => m :: find_all_fuel f rest
          | None => find_all_fuel f s'
          end
      end
  end.

Definition findAllString (s : string) : list string :=
  find_all_fuel (String.length s) s.

(** The loop of [extractOwnersFromCodeowners]: deduplicate with [seen],
    append, and break once five owners are collected. *)
Fixpoint extract_loop (matches seen owners : list string) : list string :=
  match matches with
  | [] => owners
  | m :: ms =>
      if mem m seen then extract_loop ms seen owners
      else
        let owners' := (owners ++ [m])%list in
        if (5 <=? List.length owners')%nat then owners'
        else extract_loop ms (m :: seen) owners'
  end.

Definition extractOwnersFromCodeowners (content : string) : list string :=
  extract_loop (findAllString content) [] [].

(** ** The GitHub API seen by the detector *)

(** [github.Team]; [GetPermission] and [GetSlug] give [""] for absent
    fields. *)
Record Team := { slug : string; permission : string }.

(** [github.User] as listed by [ListCollaborators]; [GetPermissions] is the
    [map[string]bool] (an absent map or key reads as [false]). *)
Record Collaborator := { login : string; permissions : list (string * bool) }.

Fixpoint perm_get (m : list (string * bool)) (k : string) : bool :=
  match m with
  | [] => false
  | (k', v) :: m' => if k =? k' then v else perm_get m' k
  end.

(** The three endpoints of [*github.Client] the detector uses.  Each may
    return anything, errors included.  [getContents] is [GetContents]
    followed by [GetContent] (nil content and decoding failures are among its
    errors); [listCollaborators] is [ListCollaborators] with affiliation
    [direct] and one page of 100. *)
Record GitHubAPI := {
  getContents : string -> string -> string -> result string;
  listTeams : string -> string -> result (list Team);
  listCollaborators : string -> string -> result (list Collaborator)
}.

(** API calls, recorded in the order they are made. *)
Inductive Call :=
| CallGetContents (org repo path : string)
| CallListTeams (org repo : string)
| CallListCollaborators (org repo : string).

(** A writer monad logging the API calls. *)
Definition M (A : Type) : Type := (A * list Call)%type.
Definition ret {A} (a : A) : M A := (a, []).
Definition bind {A B} (m : M A) (f : A -> M B) : M B :=
  let (a, l1) := m in let (b, l2) := f a in (b, (l1 ++ l2)%list).
Definition call {A} (c : Call) (a : A) : M A := (a, [c]).
Notation "x <- m ;; k" := (bind m (fun x => k))
  (at level 61, m at next level, right associativity).

Record Detector := { client : option GitHubAPI; defaultOwner : string }.

Definition codeownersPaths : list string :=
  [".github/CODEOWNERS"; "CODEOWNERS"; "docs/CODEOWNERS"].

Definition NewDetector (c : option GitHubAPI) (defaultOwner : string) : Detector :=
  {| client := c;
     defaultOwner := if defaultOwner =? "" then "@konflux-ci/Vanguard"
                     else defaultOwner |}.

Definition fetchFile (d : Detector) (org repo path : string) : M (result string) :=
  match client d with
  | None => ret (Err "GitHub client not configured")
  | Some api =>
      call (CallGetContents org repo path)
        match getContents api org repo path with
        | Ok content => Ok content
        | Err e => Err ("failed to fetch " ++ path ++ ": " ++ e)
        end
  end.

(** The [for _, path := range codeownersPaths] loop with [lastErr]. *)
Fixpoint codeowners_loop (d : Detector) (org repo : string) (paths : list string)
    (lastErr : option string) : M (result (list string)) :=
  match paths with
  | [] =>
      ret match lastErr with
          | Some e => Err ("failed to detect owners from CODEOWNERS: " ++ e)
          | None => Err "no CODEOWNERS files found"
          end
  | path :: rest =>
      r <- fetchFile d org repo path ;;
      match r with
      | Err e => codeowners_loop d org repo rest (Some e)
      | Ok content =>
          let owners := extractOwnersFromCodeowners content in
          if (0 <? List.length owners)%nat then ret (Ok owners)
          else codeowners_loop d org repo rest
                 (Some ("no valid owners found in " ++ path))
      end
  end.

Definition detectFromCodeowners (d : Detector) (org repo : string)
    : M (result (list string)) :=
  codeowners_loop d org repo codeownersPaths None.

(** The permission filter of [detectFromTeams]. *)
Definition team_elevated (t : Team) : bool :=
  (permission t =? "admin") || (permission t =? "maintain").

(** [fmt.Sprintf("@%s/%s", org, team.GetSlug())]. *)
Definition team_handle (org : string) (t : Team) : string :=
  "@" ++ org ++ "/" ++ slug t.

Fixpoint teams_loop (org : string) (teams : list Team) (owners : list string)
    : list string :=
  match teams with
  | [] => owners
  | t :: ts =>
      if team_elevated t then
        let owners' := (owners ++ [team_handle org t])%list in
        if (3 <=? List.length owners')%nat then owners'
        else teams_loop org ts owners'
      else teams_loop org ts owners
  end.

Definition detectFromTeams (d : Detector) (org repo : string)
    : M (result (list string)) :=
  match client d with
  | None => ret (Err "GitHub client not configured")
  | Some api =>
      call (CallListTeams org repo)
        match listTeams api org repo with
        | Err e => Err ("failed to list teams for " ++ org ++ "/" ++ repo ++ ": " ++ e)
        | Ok teams =>
            match teams_loop org teams [] with
            | [] => Err "no teams with admin/maintain permissions found"
            | owners => Ok owners
            end
        end
  end.

(** The permission filter of [detectFromCollaborators]. *)
Definition collab_elevated (c : Collaborator) : bool :=
  perm_get (permissions c) "admin" || perm_get (permissions c) "maintain".

Definition collab_handle (c : Collaborator) : string := "@" ++ login c.

Fixpoint collaborators_loop (collabs : list Collaborator) (owners : list string)
    : list string :=
  match collabs with
  | [] => owners
  | c :: cs =>
      if collab_elevated c then
        let owners' := (owners ++ [collab_handle c])%list in
        if (5 <=? List.length owners')%nat then owners'
        else collaborators_loop cs owners'
      else collaborators_loop cs owners
  end.

Definition detectFromCollaborators (d : Detector) (org repo : string)
    : M (result (list string)) :=
  match client d with
  | None => ret (Err "GitHub client not configured")
  | Some api =>
      call (CallListCollaborators org repo)
        match listCollaborators api org repo with
        | Err e => Err ("failed to list collaborators for " ++ org ++ "/" ++ repo ++ ": " ++ e)
        | Ok collabs =>
            match collaborators_loop collabs [] with
            | [] => Err "no collaborators with admin/maintain permissions found"
            | owners => Ok owners
            end
        end
  end.

(** [DetectOwners]: [([]string, error)]; each [err == nil && len(owners) > 0]
    test is the [Ok (_ :: _)] pattern. *)
Definition DetectOwners (d : Detector) (org repo : string)
    : M (list string * option string) :=
  r1 <- detectFromCodeowners d org repo ;;
  match r1 with
  | Ok ((_ :: _) as owners) => ret (owners, None)
  | _ =>
      r2 <- detectFromTeams d org repo ;;
      match r2 with
      | Ok ((_ :: _) as owners) => ret (owners, None)
      | _ =>
          r3 <- detectFromCollaborators d org repo ;;
          match r3 with
          | Ok ((_ :: _) as owners) => ret (owners, None)
          | _ => ret ([defaultOwner d], None)
          end
      end
  end.

(** ** Vocabulary of the statements below *)

(** Order-preserving deduplication by exact string equality, skipping the
    strings in [seen]. *)
Fixpoint dedup_seen (seen : list string) (l : list string) : list string :=
  match l with
  | [] => []
  | x :: xs => if mem x seen then dedup_seen seen xs else x :: dedup_seen (x :: seen) xs
  end.

Definition is_ListTeams (c : Call) : bool :=
  match c with CallListTeams _ _ => true | _ => false end.

Definition is_ListCollaborators (c : Call) : bool :=
  match c with CallListCollaborators _ _ => true | _ => false end.

(** A path the CODEOWNERS strategy skips: its fetch fails, or the fetched
    file yields no handle. *)
Definition skipped (d : Detector) (org repo path : string) : Prop :=
  forall content, fst (fetchFile d org repo path) = Ok content ->
                  extractOwnersFromCodeowners content = [].

(** The handle carries the leading ['@'] marker. *)
Definition marked (h : string) : bool := String.prefix "@" h.

(** The [GetContents] calls made for [paths], one each, when a client is
    configured. *)
Definition fetch_calls (d : Detector) (org repo : string) (paths : list string) : list Call :=
  match client d with
  | None => []
  | Some _ => map (CallGetContents org repo) paths
  end.

End Ownership.

Module Config.

(** ** Go [strings] functions on byte strings *)

(** [asciiSpace]: tab, newline, vertical tab, form feed, carriage return,
    space. *)
Definition is_space_ascii (c : ascii) : bool :=
  let n := nat_of_ascii c in
  (((9 <=? n) && (n <=? 13)) || (n =? 32))%nat.

(** UTF-8 encodings of the non-ASCII runes of [unicode.IsSpace]: U+0085,
    U+00A0 (two bytes); U+1680, U+2000..U+200A, U+2028, U+2029, U+202F,
    U+205F, U+3000 (three bytes). *)
Definition space2 (c1 c2 : ascii) : bool :=
  let n1 := nat_of_ascii c1 in let n2 := nat_of_ascii c2 in
  ((n1 =? 194) && ((n2 =? 133) || (n2 =? 160)))%nat.

Definition space3 (c1 c2 c3 : ascii) : bool :=
  let n1 := nat_of_ascii c1 in let n2 := nat_of_ascii c2 in
  let n3 := nat_of_ascii c3 in
  (((n1 =? 225) && (n2 =? 154) && (n3 =? 128))
   || ((n1 =? 226) && (n2 =? 128)
       && (((128 <=? n3) && (n3 <=? 138)) || (n3 =? 168) || (n3 =? 169)
           || (n3 =? 175)))
   || ((n1 =? 226) && (n2 =? 129) && (n3 =? 159))
   || ((n1 =? 227) && (n2 =? 128) && (n3 =? 128)))%nat.

(** [TrimLeftFunc(s, unicode.IsSpace)]: drop leading white-space runes.
    An invalid byte decodes as [RuneError], which is not a space. *)
Fixpoint trim_left (s : string) : string :=
  match s with
  | EmptyString => EmptyString
  | String c1 s1 =>
      if is_space_ascii c1 then trim_left s1
      else
        match s1 with
        | String c2 s2 =>
            if space2 c1 c2 then trim_left s2
            else
              match s2 with
              | String c3 s3 => if space3 c1 c2 c3 then trim_left s3 else s
              | EmptyString => s
              end
        | EmptyString => s
        end
  end.

(** [s] is a concatenation of white-space runes. *)
Fixpoint all_spaces (s : string) : bool :=
  match s with
  | EmptyString => true
  | String c1 s1 =>
      if is_space_ascii c1 then all_spaces s1
      else
        match s1 with
        | String c2 s2 =>
            if space2 c1 c2 then all_spaces s2
            else
              match s2 with
              | String c3 s3 => space3 c1 c2 c3 && all_spaces s3
              | EmptyString => false
              end
        | EmptyString => false
        end
  end.

(** [TrimRightFunc(s, unicode.IsSpace)]: drop the longest trailing run of
    white-space runes.  The lead bytes of the encodings above start a rune
    and their other bytes do not, so reading runes backwards (as
    [DecodeLastRune] does) cuts at the same place. *)
Fixpoint trim_right (s : string) : string :=
  match s with
  | EmptyString => EmptyString
  | String c s' => if all_spaces s then EmptyString else String c (trim_right s')
  end.

(** [strings.TrimSpace]. *)
Definition TrimSpace (s : string) : string := trim_right (trim_left s).

(** [strings.Split(s, sep)] for a one-byte separator; [Split("", sep)] is
    [[""]]. *)
Fixpoint split_char (sep : ascii) (s : string) : list string :=
  match s with
  | EmptyString => [""]
  | String c s' =>
      if Ascii.eqb c sep then "" :: split_char sep s'
      else
        match split_char sep s' with
        | [] => [String c ""]
        | p :: ps => String c p :: ps
        end
  end.

(** [strings.Join]. *)
Fixpoint Join (sep : string) (l : list string) : string :=
  match l with
  | [] => ""
  | [x] => x
  | x :: xs => x ++ sep ++ Join sep xs
  end.

(** [strings.SplitN(line, "#", 2)[0]]: the text before the first ['#']. *)
Fixpoint before_hash (s : string) : string :=
  match s with
  | EmptyString => EmptyString
  | String c s' => if Ascii.eqb c "#"%char then EmptyString else String c (before_hash s')
  end.

(** [strings.HasSuffix(s, suf)]. *)
Fixpoint has_suffix (suf s : string) : bool :=
  (s =? suf) ||
  match s with
  | EmptyString => false
  | String _ s' => has_suffix suf s'
  end.

(** [strings.HasPrefix(s, pre)] is Stdlib's [String.prefix pre s]. *)
Definition HasPrefix (s pre : string) : bool := String.prefix pre s.

(** [repoNamePattern], [^[a-zA-Z0-9_-]+/[a-zA-Z0-9_-]+$]. *)
Definition repoNamePattern_match (s : string) : bool :=
  let (w1, r1) := span_word s in
  negb (w1 =? "") &&
  match r1 with
  | String c r2 =>
      Ascii.eqb c "/"%char &&
      (let (w2, r3) := span_word r2 in negb (w2 =? "") && (r3 =? ""))
  | EmptyString => false
  end.

(** The byte [c] occurs in [s]. *)
Fixpoint has_char (c : ascii) (s : string) : bool :=
  match s with
  | EmptyString => false
  | String c' s' => Ascii.eqb c' c || has_char c s'
  end.

Definition nl : string := String "010" "".

(** ** Paths ([path/filepath] on Unix) *)

(** The elements [filepath.Clean] keeps, last first, after reading
    [elems]: empty and [.] elements vanish, [..] removes the element before
    it (at the root it vanishes; in a relative path with nothing left to
    remove it is kept). *)
Fixpoint clean_stack (rooted : bool) (elems stack : list string) : list string :=
  match elems with
  | [] => stack
  | e :: es =>
      if (e =? "") || (e =? ".") then clean_stack rooted es stack
      else if e =? ".." then
        match stack with
        | top :: rest =>
            if top =? ".." then clean_stack rooted es (".." :: stack)
            else clean_stack rooted es rest
        | [] => if rooted then clean_stack rooted es [] else clean_stack rooted es [".."]
        end
      else clean_stack rooted es (e :: stack)
  end.

Definition is_rooted (p : string) : bool :=
  match p with
  | String c _ => Ascii.eqb c "/"%char
  | EmptyString => false
  end.

(** A path as the kernel resolves it: rooted or relative to the working
    directory, and its elements after [Clean].  Paths are resolved
    lexically (there are no symbolic links). *)
Definition key : Type := (bool * list string)%type.

Definition key_eq_dec (k1 k2 : key) : {k1 = k2} + {k1 <> k2}.
Proof.
  destruct k1 as [r1 l1], k2 as [r2 l2].
  destruct (Bool.bool_dec r1 r2) as [->|D]; [|right; congruence].
  destruct (list_eq_dec string_dec l1 l2) as [->|D]; [left; reflexivity|right; congruence].
Defined.

Definition path_key (p : string) : key :=
  (is_rooted p, rev (clean_stack (is_rooted p) (split_char "/"%char p) [])).

Definition key_path (k : key) : string :=
  match k with
  | (true, l) => "/" ++ Join "/" l
  | (false, []) => "."
  | (false, l) => Join "/" l
  end.

(** [filepath.Clean]. *)
Definition Clean (p : string) : string := key_path (path_key p).

(** [filepath.Join(a, b)]: the non-empty elements joined by ["/"], then
    cleaned; [""] when both are empty. *)
Definition filepath_Join (a b : string) : string :=
  if negb (a =? "") then Clean (a ++ "/" ++ b)
  else if negb (b =? "") then Clean b
  else "".

(** [p[:i+1]] where [i] is the index of the last ['/'] ([-1] if none). *)
Fixpoint upto_last_slash (p : string) : string :=
  match p with
  | EmptyString => EmptyString
  | String c r =>
      if has_char "/"%char r then String c (upto_last_slash r)
      else if Ascii.eqb c "/"%char then "/" else ""
  end.

(** [filepath.Dir]. *)
Definition filepath_Dir (p : string) : string := Clean (upto_last_slash p).

(** ** The file system ([os] on Unix) *)

Inductive entry := File (data : string) | Dir.

(** [node]: the entry stored at each path.  [fault]: the error the system
    reports (permission denied, an I/O error, a full disk, ...) when a file
    is opened or created at that path, or a directory is made there. *)
Record FS := { node : key -> option entry; fault : key -> option string }.

Fixpoint is_prefix (l1 l2 : list string) : bool :=
  match l1, l2 with
  | [], _ => true
  | x :: xs, y :: ys => (x =? y) && is_prefix xs ys
  | _ :: _, [] => false
  end.

(** [k'] lies strictly inside the directory [k]. *)
Definition below (k k' : key) : bool :=
  Bool.eqb (fst k) (fst k') && is_prefix (snd k) (snd k')
  && (List.length (snd k) <? List.length (snd k'))%nat.

Definition set_node (fs : FS) (k : key) (e : entry) : FS :=
  {| node := fun k' => if key_eq_dec k' k then Some e else node fs k';
     fault := fault fs |}.

(** A new, empty directory at [k]. *)
Definition make_dir (fs : FS) (k : key) : FS :=
  {| node := fun k' => if key_eq_dec k' k then Some Dir
                       else if below k k' then None else node fs k';
     fault := fault fs |}.

Inductive lookup_result := LFile (data : string) | LDir | LNotFound | LNotDir.

(** Path resolution, one element at a time from the directory [pre]: a
    leading [..] (outside the tree) is crossed without a lookup. *)
Fixpoint walk (m : key -> option entry) (r : bool) (pre elems : list string)
    : lookup_result :=
  match elems with
  | [] => LDir
  | e :: es =>
      if e =? ".." then walk m r (pre ++ [e])%list es
      else
        match m (r, (pre ++ [e])%list) with
        | None => LNotFound
        | Some Dir => walk m r (pre ++ [e])%list es
        | Some (File d) => match es with [] => LFile d | _ :: _ => LNotDir end
        end
  end.

Definition lookup (fs : FS) (k : key) : lookup_result := walk (node fs) (fst k) [] (snd k).

Definition parent_key (k : key) : key := (fst k, removelast (snd k)).

(** [syscall.Errno] values, and the other errors by their text. *)
Inductive Errno := ENOENT | ENOTDIR | EEXIST | EISDIR | EOTHER (text : string).

Definition errno_text (e : Errno) : string :=
  match e with
  | ENOENT => "no such file or directory"
  | ENOTDIR => "not a directory"
  | EEXIST => "file exists"
  | EISDIR => "is a directory"
  | EOTHER t => t
  end.

(** [*fs.PathError] and its [Error()]. *)
Record PathError := { pe_op : string; pe_path : string; pe_err : Errno }.

Definition perr (op path : string) (e : Errno) : PathError :=
  {| pe_op := op; pe_path := path; pe_err := e |}.

Definition Error (e : PathError) : string :=
  pe_op e ++ " " ++ pe_path e ++ ": " ++ errno_text (pe_err e).

(** [os.IsNotExist]. *)
Definition IsNotExist (e : PathError) : bool :=
  match pe_err e with ENOENT => true | _ => false end.

(** Creating an entry at [k] needs its parent to be a directory. *)
Definition parent_error (fs : FS) (k : key) : option Errno :=
  match lookup fs (parent_key k) with
  | LDir => None
  | LNotFound => Some ENOENT
  | _ => Some ENOTDIR
  end.

(** [os.Stat]: the empty path names nothing. *)
Definition stat (p : string) (fs : FS) : lookup_result :=
  if p =? "" then LNotFound else lookup fs (path_key p).

(** The last element of [p] is empty, [.] or [..]: [p] can only name a
    directory. *)
Definition dir_syntax (p : string) : bool :=
  let e := last (split_char "/"%char p) "" in
  (e =? "") || (e =? ".") || (e =? "..").

(** [os.Mkdir]. *)
Definition Mkdir (p : string) (fs : FS) : option PathError * FS :=
  let k := path_key p in
  match stat p fs with
  | LDir | LFile _ => (Some (perr "mkdir" p EEXIST), fs)
  | LNotDir => (Some (perr "mkdir" p ENOTDIR), fs)
  | LNotFound =>
      if p =? "" then (Some (perr "mkdir" p ENOENT), fs)
      else
        match parent_error fs k with
        | Some e => (Some (perr "mkdir" p e), fs)
        | None =>
            match fault fs k with
            | Some t => (Some (perr "mkdir" p (EOTHER t)), fs)
            | None => (None, make_dir fs k)
            end
        end
  end.

(** Trailing ['/'] removed. *)
Fixpoint strip_trailing_slashes (p : string) : string :=
  match p with
  | EmptyString => EmptyString
  | String c r =>
      let r' := strip_trailing_slashes r in
      if (r' =? "") && Ascii.eqb c "/"%char then "" else String c r'
  end.

(** [p[:i]] where [i] is the index of the last ['/'] ([0] if none). *)
Fixpoint before_last_slash (p : string) : string :=
  match p with
  | EmptyString => EmptyString
  | String c r => if has_char "/"%char r then String c (before_last_slash r) else ""
  end.

(** [os.MkdirAll]: a directory succeeds and a file fails at once;
    otherwise the parent ([path] without its trailing separators and its
    last element) is made first, then [path] itself.  Each call recurses on
    a strictly shorter path, so [fuel = len(path)] is never exhausted. *)
Fixpoint MkdirAll_fuel (fuel : nat) (p : string) (fs : FS) : option PathError * FS :=
  match stat p fs with
  | LDir => (None, fs)
  | LFile _ => (Some (perr "mkdir" p ENOTDIR), fs)
  | _ =>
      let parent := before_last_slash (strip_trailing_slashes p) in
      let (r1, fs1) :=
        if negb (parent =? "") then
          match fuel with
          | O => (None, fs)
          | S fuel' => MkdirAll_fuel fuel' parent fs
          end
        else (None, fs) in
      match r1 with
      | Some e => (Some e, fs1)
      | None =>
          match Mkdir p fs1 with
          | (None, fs2) => (None, fs2)
          | (Some e, fs2) =>
              match stat p fs2 with
              | LDir => (None, fs2)
              | _ => (Some e, fs2)
              end
          end
      end
  end.

Definition MkdirAll (p : string) (fs : FS) : option PathError * FS :=
  MkdirAll_fuel (String.length p) p fs.

(** [os.OpenFile(name, O_WRONLY|O_CREATE|..., 0644)]: the error, if any. *)
Definition open_create (name : string) (fs : FS) : option PathError :=
  let k := path_key name in
  let at_k := match fault fs k with
              | Some t => Some (perr "open" name (EOTHER t))
              | None => None
              end in
  if name =? "" then Some (perr "open" name ENOENT)
  else
    match stat name fs with
    | LDir => Some (perr "open" name EISDIR)
    | LNotDir => Some (perr "open" name ENOTDIR)
    | LFile _ => if dir_syntax name then Some (perr "open" name ENOTDIR) else at_k
    | LNotFound =>
        match parent_error fs k with
        | Some e => Some (perr "open" name e)
        | None => if dir_syntax name then Some (perr "open" name EISDIR) else at_k
        end
    end.

(** [os.WriteFile(name, data, 0644)]. *)
Definition WriteFile (name data : string) (fs : FS) : option PathError * FS :=
  match open_create name fs with
  | Some e => (Some e, fs)
  | None => (None, set_node fs (path_key name) (File data))
  end.

(** [os.OpenFile(name, O_APPEND|O_CREATE|O_WRONLY, 0644)] followed by
    [WriteString(s)]. *)
Definition AppendFile (name s : string) (fs : FS) : option PathError * FS :=
  match open_create name fs with
  | Some e => (Some e, fs)
  | None =>
      let old := match stat name fs with LFile d => d | _ => "" end in
      (None, set_node fs (path_key name) (File (old ++ s)))
  end.

Inductive read_result := ReadOk (data : string) | ReadErr (e : PathError).

(** [os.ReadFile]. *)
Definition ReadFile (name : string) (fs : FS) : read_result :=
  match stat name fs with
  | LFile d =>
      if dir_syntax name then ReadErr (perr "open" name ENOTDIR)
      else
        match fault fs (path_key name) with
        | Some t => ReadErr (perr "open" name (EOTHER t))
        | None => ReadOk d
        end
  | LDir => ReadErr (perr "read" name EISDIR)
  | LNotFound => ReadErr (perr "open" name ENOENT)
  | LNotDir => ReadErr (perr "open" name ENOTDIR)
  end.

(** ** The writer *)

Record RepositoryConfig := {
  Name : string;
  ExcludeDirs : list string;
  ExcludeFiles : list string;
  Owners : list string
}.

Record Writer := { reposDir : string; codeownersFile : string }.

Definition NewWriter (reposDir codeownersFile : string) : Writer :=
  {| reposDir := reposDir; codeownersFile := codeownersFile |}.

(** [getFilename]: [parts[1] + ".yaml"].  It is only called on names that
    passed [repoNamePattern], which have exactly two parts (index 1 never
    panics there). *)
Definition getFilename (repoName : string) : string :=
  nth 1 (split_char "/"%char repoName) "" ++ ".yaml".

Definition matchesPattern (line pattern : string) : bool :=
  let trimmed := TrimSpace (before_hash line) in
  (trimmed =? pattern) || HasPrefix trimmed (pattern ++ " ").

Fixpoint normalize_loop (owners seen result : list string) : list string :=
  match owners with
  | [] => result
  | owner :: rest =>
      let owner1 := TrimSpace owner in
      if owner1 =? "" then normalize_loop rest seen result
      else
        let owner2 := if HasPrefix owner1 "@" then owner1 else "@" ++ owner1 in
        if mem owner2 seen then normalize_loop rest seen result
        else normalize_loop rest (owner2 :: seen) (result ++ [owner2])%list
  end.

Definition normalizeOwners (owners : list string) : list string :=
  normalize_loop owners [] [].

(** The [for i, line := range lines] loop: replace the first matching line;
    the boolean is [found]. *)
Fixpoint replace_first (pattern newEntry : string) (lines : list string)
    : list string * bool :=
  match lines with
  | [] => ([], false)
  | line :: rest =>
      if matchesPattern line pattern then (newEntry :: rest, true)
      else let (rest', found) := replace_first pattern newEntry rest in
           (line :: rest', found)
  end.

Definition writeCodeowners (w : Writer) (lines : list string) (fs : FS)
    : option string * FS :=
  let content := Join nl lines in
  let content := if has_suffix nl content then content else content ++ nl in
  match WriteFile (codeownersFile w) content fs with
  | (Some e, fs') => (Some (Error e), fs')
  | (None, fs') => (None, fs')
  end.

(** Lines 117-138 of [updateCodeowners]: the lines it writes, from the
    lines read. *)
Definition update_lines (filename : string) (normalizedOwners lines : list string)
    : list string :=
  let pattern := "/repos/" ++ filename in
  let newEntry := "/repos/" ++ filename ++ " " ++ Join " " normalizedOwners in
  let (lines1, found) := replace_first pattern newEntry lines in
  if found then lines1
  else ((if (0 <? List.length lines1)%nat && negb (last lines1 "" =? "")
         then lines1 ++ [""] else lines1) ++ [newEntry])%list.

Definition updateCodeowners (w : Writer) (filename : string) (owners : list string)
    (fs : FS) : option string * FS :=
  match owners with
  | [] => (Some ("no owners specified for " ++ filename), fs)
  | _ =>
      match normalizeOwners owners with
      | [] => (Some ("all owners for " ++ filename ++ " were invalid after normalization"), fs)
      | normalizedOwners =>
          match ReadFile (codeownersFile w) fs with
          | ReadErr e =>
              if IsNotExist e
              then writeCodeowners w (update_lines filename normalizedOwners []) fs
              else (Some (Error e), fs)
          | ReadOk data =>
              writeCodeowners w
                (update_lines filename normalizedOwners (split_char "010"%char data)) fs
          end
      end
  end.

Section WriteSec.
(** [yaml.Marshal] and the [%q] verb of [fmt], left abstract: every
    statement below holds for all of them. *)
Variable marshal : RepositoryConfig -> result string.
Variable quote : string -> string.

Definition Write (w : Writer) (cfg : RepositoryConfig) (dryRun : bool) (fs : FS)
    : option string * FS :=
  if TrimSpace (Name cfg) =? "" then (Some "repository name cannot be empty", fs)
  else if negb (repoNamePattern_match (Name cfg)) then
    (Some ("invalid repository name: " ++ quote (Name cfg)
           ++ " (must be in org/repo format with only alphanumerics, underscores, and hyphens)"), fs)
  else
    let filename := getFilename (Name cfg) in
    let targetPath :=
      if dryRun
      then filepath_Join (filepath_Join (filepath_Dir (reposDir w)) "discovered-repos") filename
      else filepath_Join (reposDir w) filename in
    match marshal cfg with
    | Err e => (Some ("failed to marshal config: " ++ e), fs)
    | Ok data =>
        match MkdirAll (filepath_Dir targetPath) fs with
        | (Some e, fs1) => (Some ("failed to create directory: " ++ Error e), fs1)
        | (None, fs1) =>
            match WriteFile targetPath data fs1 with
            | (Some e, fs2) =>
                (Some ("failed to write config to " ++ targetPath ++ ": " ++ Error e), fs2)
            | (None, fs2) =>
                if negb dryRun then
                  match updateCodeowners w filename (Owners cfg) fs2 with
                  | (Some e, fs3) => (Some ("failed to update CODEOWNERS: " ++ e), fs3)
                  | (None, fs3) => (None, fs3)
                  end
                else (None, fs2)
            end
        end
    end.

End WriteSec.

(** ** Vocabulary of the statements below *)

(** The content [writeCodeowners] writes for [lines]. *)
Definition render (lines : list string) : string :=
  if has_suffix nl (Join nl lines) then Join nl lines else Join nl lines ++ nl.

(** The CODEOWNERS content [updateCodeowners] writes when the CODEOWNERS
    file holds [cur] ([None]: it does not exist), or its error before any
    file access. *)
Definition codeowners_after (filename : string) (owners : list string)
    (cur : option string) : result string :=
  match owners with
  | [] => Err ("no owners specified for " ++ filename)
  | _ =>
      match normalizeOwners owners with
      | [] => Err ("all owners for " ++ filename ++ " were invalid after normalization")
      | normalizedOwners =>
          Ok (render (update_lines filename normalizedOwners
                        (match cur with Some d => split_char "010"%char d | None => [] end)))
      end
  end.

End Config.

(** * Concrete inputs used by the witnesses and counterexamples *)

Module Examples.
Import Ownership.

Definition mk_team (s p : string) : Team := {| slug := s; permission := p |}.
Definition mk_admin (l : string) : Collaborator :=
  {| login := l; permissions := [("admin", true); ("maintain", false)] |}.

(** The teams listing of the spec's scenario. *)
Definition scenario_teams : list Team :=
  [mk_team "admin-team" "admin"; mk_team "maintain-team" "maintain";
   mk_team "read-team" "read"].

Definition seven_teams : list Team :=
  map (fun s => mk_team s "admin") ["team1"; "team2"; "team3"; "team4"; "team5"; "team6"; "team7"].

Definition seven_collaborators : list Collaborator :=
  map mk_admin ["user1"; "user2"; "user3"; "user4"; "user5"; "user6"; "user7"].

Definition eight_handles : string :=
  "* @o1 @o2 @o3 @o4" ++ String "010" "/docs @o5 @o6 @o7 @o8 @o1".

(** A repository whose files are [files] and whose listings are given. *)
Definition api_of (files : list (string * string)) (teams : list Team)
    (collabs : list Collaborator) : GitHubAPI :=
  {| getContents := fun _ _ path =>
       match find (fun f => String.eqb (fst f) path) files with
       | Some (_, c) => Ok c
       | None => Err "404 Not Found"
       end;
     listTeams := fun _ _ => Ok teams;
     listCollaborators := fun _ _ => Ok collabs |}.

Definition detector_of (api : GitHubAPI) : Detector := NewDetector (Some api) "".

End Examples.

(** Concrete inputs for the configuration writer: a marshaller that emits
    the [name] field, [%q] on strings without quotes or escapes, and file
    systems holding the root directory. *)
Module ConfigExamples.
Import Config.

Definition marshal_name (cfg : RepositoryConfig) : result string :=
  Ok ("name: " ++ Name cfg ++ nl).

Definition dq : string := String (ascii_of_nat 34) "".
Definition quote_q (s : string) : string := dq ++ s ++ dq.

Definition writer0 : Writer := NewWriter "/repos" "/CODEOWNERS".

Definition cfg_of (name : string) (owners : list string) : RepositoryConfig :=
  {| Name := name; ExcludeDirs := []; ExcludeFiles := []; Owners := owners |}.

(** The root directory, empty, and no faults. *)
Definition empty_fs : FS := {| node := fun _ => None; fault := fun _ => None |}.

Definition write0 (cfg : RepositoryConfig) (fs : FS) : option string * FS :=
  Write marshal_name quote_q writer0 cfg false fs.

(** A CODEOWNERS file whose entry for [x.yaml] separates path and owner
    with a tab. *)
Definition tab_codeowners : FS :=
  set_node empty_fs (path_key "/CODEOWNERS") (File ("/repos/x.yaml" ++ String "009" ("@old" ++ nl))).

End ConfigExamples.

(** * Further code of the repository *)

(** ** Vocabulary on strings *)

Module Words.
Import Ownership.

(** Every byte of [s] is in [[a-zA-Z0-9_-]]. *)
Fixpoint all_word (s : string) : bool :=
  match s with
  | EmptyString => true
  | String c s' => is_word_char c && all_word s'
  end.

(** The number of occurrences of the byte [c] in [s]. *)
Fixpoint count_char (c : ascii) (s : string) : nat :=
  match s with
  | EmptyString => 0
  | String c' s' => (if Ascii.eqb c' c then 1 else 0) + count_char c s'
  end.

(** A text matched by [@[a-zA-Z0-9_-]+(/[a-zA-Z0-9_-]+)?]. *)
Definition is_handle (h : string) : Prop :=
  exists a, a <> "" /\ all_word a = true /\
    (h = String "@" a \/
     exists b, b <> "" /\ all_word b = true /\ h = String "@" (a ++ String "/" b)).

(** The owner [normalizeOwners] keeps for [owner] when its trimmed form
    is nonempty: the trimmed form, with ['@'] put in front if missing. *)
Definition normalize_one (owner : string) : string :=
  let owner1 := Config.TrimSpace owner in
  if Config.HasPrefix owner1 "@" then owner1 else "@" ++ owner1.

End Words.

(** ** The detector of [internal/ownership/detector.go]

    The detector [NewRunner] builds with [ownership.NewDetector(readClient)].
    Its client is always a real [*github.Client] there ([github.NewClient]
    never returns nil), so it is not optional.  Files are fetched over plain
    HTTP from [raw.githubusercontent.com], not through the client. *)

Module OwnershipV1.
Import Ownership.

Record Detector1 := { client1 : GitHubAPI }.

Definition NewDetector1 (client : GitHubAPI) : Detector1 := {| client1 := client |}.

(** Requests, in the order they are made. *)
Inductive Call1 :=
| Call1HTTPGet (url : string)
| Call1ListTeams (org repo : string)
| Call1ListCollaborators (org repo : string).

(** The HTTP side of [fetchFile]: [web url] is [Err] when building or
    sending the request fails, and otherwise the status code with the
    outcome of the [bufio.Scanner] loop over the body (the lines, each
    followed by a newline, or the scanner's error). *)
Definition Web : Type := string -> result (nat * result string).

Definition raw_url (org repo path : string) : string :=
  "https://raw.githubusercontent.com/" ++ org ++ "/" ++ repo ++ "/main/" ++ path.

Definition fetchFile1 (web : Web) (org repo path : string) : result string * list Call1 :=
  (match web (raw_url org repo path) with
   | Err e => Err e
   | Ok (status, body) =>
       if (status =? 200)%nat then body else Err ("file not found: " ++ path)
   end, [Call1HTTPGet (raw_url org repo path)]).

Definition detectFromCodeowners1 (web : Web) (org repo : string)
    : result (list string) * list Call1 :=
  let (r1, l1) := fetchFile1 web org repo ".github/CODEOWNERS" in
  match r1 with
  | Ok content => (Ok (extractOwnersFromCodeowners content), l1)
  | Err _ =>
      let (r2, l2) := fetchFile1 web org repo "CODEOWNERS" in
      match r2 with
      | Ok content => (Ok (extractOwnersFromCodeowners content), (l1 ++ l2)%list)
      | Err _ => (Err "CODEOWNERS not found", (l1 ++ l2)%list)
      end
  end.

Definition detectFromTeams1 (d : Detector1) (org repo : string)
    : result (list string) * list Call1 :=
  (match listTeams (client1 d) org repo with
   | Err e => Err e
   | Ok teams =>
       match teams_loop org teams [] with
       | [] => Err "no teams with admin/maintain permissions found"
       | owners => Ok owners
       end
   end, [Call1ListTeams org repo]).

Definition detectFromCollaborators1 (d : Detector1) (org repo : string)
    : result (list string) * list Call1 :=
  (match listCollaborators (client1 d) org repo with
   | Err e => Err e
   | Ok collabs =>
       match collaborators_loop collabs [] with
       | [] => Err "no collaborators with admin/maintain permissions found"
       | owners => Ok owners
       end
   end, [Call1ListCollaborators org repo]).

Definition DetectOwners1 (d : Detector1) (web : Web) (org repo : string)
    : (list string * option string) * list Call1 :=
  let (r1, l1) := detectFromCodeowners1 web org repo in
  match r1 with
  | Ok ((_ :: _) as owners) => ((owners, None), l1)
  | _ =>
      let (r2, l2) := detectFromTeams1 d org repo in
      match r2 with
      | Ok ((_ :: _) as owners) => ((owners, None), (l1 ++ l2)%list)
      | _ =>
          let (r3, l3) := detectFromCollaborators1 d org repo in
          match r3 with
          | Ok ((_ :: _) as owners) => ((owners, None), (l1 ++ l2 ++ l3)%list)
          | _ => ((["@konflux-ci/Vanguard"], None), (l1 ++ l2 ++ l3)%list)
          end
      end
  end.

End OwnershipV1.

(** ** The second version of [internal/config/config.go] (its lines
    199-323): no name validation, and CODEOWNERS opened in append mode *)

Module ConfigV2.
Import Config.

Definition getFilename2 (repoName : string) : string :=
  let parts := split_char "/"%char repoName in
  if (List.length parts =? 2)%nat then nth 1 parts "" ++ ".yaml" else repoName ++ ".yaml".

Definition updateCodeowners2 (w : Writer) (filename : string) (owners : list string)
    (fs : FS) : option string * FS :=
  match owners with
  | [] => (None, fs)
  | _ =>
      match AppendFile (codeownersFile w)
              ("/repos/" ++ filename ++ " " ++ Join " " owners ++ nl) fs with
      | (Some e, fs') => (Some (Error e), fs')
      | (None, fs') => (None, fs')
      end
  end.

Section Write2Sec.
(** [yaml.Marshal], left abstract; the success message on standard output
    is not modelled. *)
Variable marshal : RepositoryConfig -> result string.

Definition Write2 (w : Writer) (cfg : RepositoryConfig) (dryRun : bool) (fs : FS)
    : option string * FS :=
  let filename := getFilename2 (Name cfg) in
  let targetPath :=
    if dryRun then filepath_Join "discovered-repos" filename
    else filepath_Join (reposDir w) filename in
  let mkdir :=
    if dryRun then
      match MkdirAll "discovered-repos" fs with
      | (Some e, fs1) => (Some ("failed to create discovered-repos directory: " ++ Error e), fs1)
      | (None, fs1) => (None, fs1)
      end
    else
      match MkdirAll (reposDir w) fs with
      | (Some e, fs1) => (Some ("failed to create repos directory: " ++ Error e), fs1)
      | (None, fs1) => (None, fs1)
      end in
  match mkdir with
  | (Some e, fs1) => (Some e, fs1)
  | (None, fs1) =>
      match marshal cfg with
      | Err e => (Some ("failed to marshal config: " ++ e), fs1)
      | Ok data =>
          match WriteFile targetPath data fs1 with
          | (Some e, fs2) => (Some ("failed to write config file: " ++ Error e), fs2)
          | (None, fs2) =>
              if negb dryRun then
                match updateCodeowners2 w filename (Owners cfg) fs2 with
                | (Some e, fs3) => (Some ("failed to update CODEOWNERS: " ++ e), fs3)
                | (None, fs3) => (None, fs3)
                end
              else (None, fs2)
          end
      end
  end.

End Write2Sec.

End ConfigV2.

(** ** Helpers of the discovery runner ([internal/discover]) *)

Module Discover.
Import Config.

Definition extractRepoNameFromConfig (fullName : string) : string :=
  let parts := split_char "/"%char fullName in
  if (List.length parts =? 2)%nat then nth 1 parts "" else fullName.

(** [strings.TrimSuffix]. *)
Definition TrimSuffix (s suffix : string) : string :=
  if has_suffix suffix s
  then substring 0 (String.length s - String.length suffix) s
  else s.

(** [getGitRemoteURL] from the output of [git remote get-url origin]. *)
Definition getGitRemoteURL (output : result string) : result string :=
  match output with
  | Err e => Err ("failed to get remote URL: " ++ e)
  | Ok o => Ok (TrimSpace o)
  end.

(** [getCurrentRepoName]; its error is always nil. *)
Definition getCurrentRepoName (output : result string) : string :=
  match getGitRemoteURL output with
  | Err _ => "coverage-dashboard"
  | Ok remoteURL =>
      let parts := split_char "/"%char remoteURL in
      if (0 <? List.length parts)%nat then TrimSuffix (last parts "") ".git"
      else "coverage-dashboard"
  end.

Definition excludeDirs : list string :=
  ["vendor/"; ".github/"; ".tekton/"; "hack/"; "proto/"; "test/"; "tests/";
   "integration-tests/"; "/fake(/|$)"; "/mock(s)?(/|$)"; "/e2e(-tests)?(/|$)"; "docs/"].

Definition excludeFiles : list string :=
  ["zz_generated.deepcopy.go"; "openapi_generated.go"; "*.pb.go"; "mock_*.go"; "*_mock.go"].

(** [analyzeRepository], given what [DetectOwners] returned for the
    repository ([owners, err]); its error is always nil. *)
Definition analyzeRepository (detected : list string * option string)
    (organization repoName : string) : RepositoryConfig :=
  let fullName := organization ++ "/" ++ repoName in
  let owners := match snd detected with
                | Some _ => ["@konflux-ci/Vanguard"]
                | None => fst detected
                end in
  {| Name := fullName; ExcludeDirs := excludeDirs; ExcludeFiles := excludeFiles;
     Owners := owners |}.

(** The loop of [writeConfigurations]: the first error is returned at
    once.  ([len(configs) == 0] returns nil, as the loop does.) *)
Fixpoint write_all (write : RepositoryConfig -> FS -> option string * FS)
    (configs : list RepositoryConfig) (fs : FS) : option string * FS :=
  match configs with
  | [] => (None, fs)
  | cfg :: rest =>
      match write cfg fs with
      | (Some e, fs') => (Some e, fs')
      | (None, fs') => write_all write rest fs'
      end
  end.

Definition writeConfigurations ms q (w : Writer) (dryRun : bool)
    (configs : list RepositoryConfig) (fs : FS) : option string * FS :=
  write_all (fun cfg fs => Write ms q w cfg dryRun fs) configs fs.

End Discover.

(** * Properties of the ownership detector *)

Module OwnershipFacts.
Import Ownership.

Lemma fst_bind {A B} (m : M A) (f : A -> M B) : fst (bind m f) = fst (f (fst m)).
Proof. destruct m as [a l]; simpl. destruct (f a); reflexivity. Qed.

Lemma snd_bind {A B} (m : M A) (f : A -> M B) :
  snd (bind m f) = (snd m ++ snd (f (fst m)))%list.
Proof. destruct m as [a l]; simpl. destruct (f a); reflexivity. Qed.

Lemma firstn_app_full {X} (n : nat) (l1 l2 : list X) :
  List.length l1 = n -> firstn n (l1 ++ l2) = l1.
Proof.
  intros <-. rewrite firstn_app, firstn_all, Nat.sub_diag, firstn_0, app_nil_r.
  reflexivity.
Qed.

Lemma extract_loop_firstn ms : forall seen owners,
  (List.length owners < 5)%nat ->
  extract_loop ms seen owners = firstn 5 (owners ++ dedup_seen seen ms).
Proof.
  induction ms as [|m ms IH]; intros seen owners Hlen.
  - cbn [extract_loop dedup_seen]. rewrite app_nil_r, firstn_all2 by lia. reflexivity.
  - cbn [extract_loop dedup_seen]. destruct (mem m seen); [apply IH; exact Hlen|].
    destruct (5 <=? List.length (owners ++ [m]))%nat eqn:Hc.
    + apply Nat.leb_le in Hc. rewrite length_app in Hc. simpl in Hc.
      change (m :: dedup_seen (m :: seen) ms) with ([m] ++ dedup_seen (m :: seen) ms)%list.
      rewrite app_assoc, (firstn_app_full 5); [reflexivity|].
      rewrite length_app; simpl; lia.
    + apply Nat.leb_gt in Hc. rewrite IH by exact Hc. rewrite <- app_assoc. reflexivity.
Qed.

Lemma extract_spec content :
  extractOwnersFromCodeowners content = firstn 5 (dedup_seen [] (findAllString content)).
Proof. unfold extractOwnersFromCodeowners. apply extract_loop_firstn. simpl. lia. Qed.

Lemma teams_loop_firstn org ts : forall owners,
  (List.length owners < 3)%nat ->
  teams_loop org ts owners = firstn 3 (owners ++ map (team_handle org) (filter team_elevated ts)).
Proof.
  induction ts as [|t ts IH]; intros owners Hlen.
  - cbn [teams_loop filter map]. rewrite app_nil_r, firstn_all2 by lia. reflexivity.
  - cbn [teams_loop filter]. destruct (team_elevated t); [|apply IH; exact Hlen].
    cbn [map].
    destruct (3 <=? List.length (owners ++ [team_handle org t]))%nat eqn:Hc.
    + apply Nat.leb_le in Hc. rewrite length_app in Hc. simpl in Hc.
      change (team_handle org t :: map (team_handle org) (filter team_elevated ts))
        with ([team_handle org t] ++ map (team_handle org) (filter team_elevated ts))%list.
      rewrite app_assoc, (firstn_app_full 3); [reflexivity|].
      rewrite length_app; simpl; lia.
    + apply Nat.leb_gt in Hc. rewrite IH by exact Hc. rewrite <- app_assoc. reflexivity.
Qed.

End OwnershipFacts.

Module OwnershipFacts2.
Import Ownership OwnershipFacts.

Lemma collaborators_loop_firstn cs : forall owners,
  (List.length owners < 5)%nat ->
  collaborators_loop cs owners = firstn 5 (owners ++ map collab_handle (filter collab_elevated cs)).
Proof.
  induction cs as [|c cs IH]; intros owners Hlen.
  - cbn [collaborators_loop filter map]. rewrite app_nil_r, firstn_all2 by lia. reflexivity.
  - cbn [collaborators_loop filter]. destruct (collab_elevated c); [|apply IH; exact Hlen].
    cbn [map].
    destruct (5 <=? List.length (owners ++ [collab_handle c]))%nat eqn:Hc.
    + apply Nat.leb_le in Hc. rewrite length_app in Hc. simpl in Hc.
      change (collab_handle c :: map collab_handle (filter collab_elevated cs))
        with ([collab_handle c] ++ map collab_handle (filter collab_elevated cs))%list.
      rewrite app_assoc, (firstn_app_full 5); [reflexivity|].
      rewrite length_app; simpl; lia.
    + apply Nat.leb_gt in Hc. rewrite IH by exact Hc. rewrite <- app_assoc. reflexivity.
Qed.

Lemma teams_fst d org repo :
  fst (detectFromTeams d org repo) =
  match client d with
  | None => Err "GitHub client not configured"
  | Some api =>
      match listTeams api org repo with
      | Err e => Err ("failed to list teams for " ++ org ++ "/" ++ repo ++ ": " ++ e)
      | Ok teams =>
          match firstn 3 (map (team_handle org) (filter team_elevated teams)) with
          | [] => Err "no teams with admin/maintain permissions found"
          | owners => Ok owners
          end
      end
  end.
Proof.
  unfold detectFromTeams. destruct (client d) as [api|]; [|reflexivity].
  simpl. destruct (listTeams api org repo) as [teams|e]; [|reflexivity].
  rewrite teams_loop_firstn by (simpl; lia). reflexivity.
Qed.

Lemma collaborators_fst d org repo :
  fst (detectFromCollaborators d org repo) =
  match client d with
  | None => Err "GitHub client not configured"
  | Some api =>
      match listCollaborators api org repo with
      | Err e => Err ("failed to list collaborators for " ++ org ++ "/" ++ repo ++ ": " ++ e)
      | Ok cs =>
          match firstn 5 (map collab_handle (filter collab_elevated cs)) with
          | [] => Err "no collaborators with admin/maintain permissions found"
          | owners => Ok owners
          end
      end
  end.
Proof.
  unfold detectFromCollaborators. destruct (client d) as [api|]; [|reflexivity].
  simpl. destruct (listCollaborators api org repo) as [cs|e]; [|reflexivity].
  rewrite collaborators_loop_firstn by (simpl; lia). reflexivity.
Qed.

Lemma teams_snd d org repo :
  snd (detectFromTeams d org repo) =
  match client d with None => [] | Some _ => [CallListTeams org repo] end.
Proof. unfold detectFromTeams. destruct (client d); reflexivity. Qed.

Lemma collaborators_snd d org repo :
  snd (detectFromCollaborators d org repo) =
  match client d with None => [] | Some _ => [CallListCollaborators org repo] end.
Proof. unfold detectFromCollaborators. destruct (client d); reflexivity. Qed.

Lemma codeowners_loop_cons d org repo p ps le :
  codeowners_loop d org repo (p :: ps) le =
  bind (fetchFile d org repo p) (fun r =>
    match r with
    | Err e => codeowners_loop d org repo ps (Some e)
    | Ok content =>
        if (0 <? List.length (extractOwnersFromCodeowners content))%nat
        then ret (Ok (extractOwnersFromCodeowners content))
        else codeowners_loop d org repo ps (Some ("no valid owners found in " ++ p))
    end).
Proof. reflexivity. Qed.

Lemma codeowners_loop_ok d org repo paths : forall le owners,
  fst (codeowners_loop d org repo paths le) = Ok owners <->
  exists pre p post content,
    paths = (pre ++ p :: post)%list /\ Forall (skipped d org repo) pre /\
    fst (fetchFile d org repo p) = Ok content /\
    extractOwnersFromCodeowners content = owners /\ owners <> [].
Proof.
  induction paths as [|q ps IH]; intros le owners.
  - split.
    + simpl. destruct le; discriminate.
    + intros (pre & p & post & content & Heq & _). destruct pre; discriminate.
  - rewrite codeowners_loop_cons, fst_bind.
    destruct (fst (fetchFile d org repo q)) as [content|e] eqn:Hf.
    + destruct (0 <? List.length (extractOwnersFromCodeowners content))%nat eqn:Hl.
      * simpl. split.
        -- intros H. inversion H; subst. exists [], q, ps, content.
           repeat split; try assumption; [constructor|].
           intros E. rewrite E in Hl. discriminate.
        -- intros (pre & p & post & c & Heq & Hskip & Hfp & Hex & Hne).
           destruct pre as [|q' pre].
           ++ inversion Heq; subst. rewrite Hfp in Hf. inversion Hf; subst. reflexivity.
           ++ inversion Heq; subst. inversion Hskip; subst.
              match goal with Hs : skipped _ _ _ _ |- _ => rewrite (Hs content Hf) in Hl end.
              discriminate.
      * assert (Hnil : extractOwnersFromCodeowners content = []).
        { destruct (extractOwnersFromCodeowners content); [reflexivity|discriminate]. }
        rewrite IH. split.
        -- intros (pre & p & post & c & Heq & Hskip & Hfp & Hex & Hne).
           exists (q :: pre), p, post, c. subst. repeat split; try assumption.
           constructor; [|assumption].
           intros c' Hc'. rewrite Hc' in Hf. inversion Hf; subst. exact Hnil.
        -- intros (pre & p & post & c & Heq & Hskip & Hfp & Hex & Hne).
           destruct pre as [|q' pre].
           ++ inversion Heq; subst. rewrite Hfp in Hf. inversion Hf; subst.
              rewrite Hnil in Hne. contradiction.
           ++ inversion Heq; subst. inversion Hskip; subst.
              exists pre, p, post, c. repeat split; assumption.
    + rewrite IH. split.
      * intros (pre & p & post & c & Heq & Hskip & Hfp & Hex & Hne).
        exists (q :: pre), p, post, c. subst. repeat split; try assumption.
        constructor; [|assumption].
        intros c' Hc'. rewrite Hc' in Hf. discriminate.
      * intros (pre & p & post & c & Heq & Hskip & Hfp & Hex & Hne).
        destruct pre as [|q' pre].
        -- inversion Heq; subst. rewrite Hfp in Hf. discriminate.
        -- inversion Heq; subst. inversion Hskip; subst.
           exists pre, p, post, c. repeat split; assumption.
Qed.

Lemma codeowners_loop_calls d org repo paths : forall le,
  exists k, snd (codeowners_loop d org repo paths le) = fetch_calls d org repo (firstn k paths).
Proof.
  unfold fetch_calls.
  induction paths as [|q ps IH]; intros le.
  - exists 0. simpl. destruct le; destruct (client d); reflexivity.
  - rewrite codeowners_loop_cons, snd_bind.
    assert (Hs : snd (fetchFile d org repo q) =
                 match client d with None => [] | Some _ => [CallGetContents org repo q] end).
    { unfold fetchFile. destruct (client d); reflexivity. }
    rewrite Hs.
    destruct (fst (fetchFile d org repo q)) as [content|e].
    + destruct (0 <? List.length (extractOwnersFromCodeowners content))%nat.
      * exists 1. simpl. destruct (client d); reflexivity.
      * destruct (IH (Some ("no valid owners found in " ++ q))) as [k Hk].
        exists (S k). rewrite Hk. simpl. destruct (client d); reflexivity.
    + destruct (IH (Some e)) as [k Hk].
      exists (S k). rewrite Hk. simpl. destruct (client d); reflexivity.
Qed.

Lemma DetectOwners_fst d org repo :
  fst (DetectOwners d org repo) =
  (match fst (detectFromCodeowners d org repo) with
   | Ok ((_ :: _) as o) => o
   | _ =>
       match fst (detectFromTeams d org repo) with
       | Ok ((_ :: _) as o) => o
       | _ =>
           match fst (detectFromCollaborators d org repo) with
           | Ok ((_ :: _) as o) => o
           | _ => [defaultOwner d]
           end
       end
   end, None).
Proof.
  unfold DetectOwners. rewrite fst_bind.
  destruct (fst (detectFromCodeowners d org repo)) as [[|o os]|e];
    [rewrite fst_bind| reflexivity | rewrite fst_bind];
  (destruct (fst (detectFromTeams d org repo)) as [[|o' os']|e'];
    [rewrite fst_bind| reflexivity | rewrite fst_bind]);
  (destruct (fst (detectFromCollaborators d org repo)) as [[|o'' os'']|e'']; reflexivity).
Qed.

Lemma DetectOwners_snd d org repo :
  snd (DetectOwners d org repo) =
  (snd (detectFromCodeowners d org repo) ++
   match fst (detectFromCodeowners d org repo) with
   | Ok (_ :: _) => []
   | _ =>
       snd (detectFromTeams d org repo) ++
       match fst (detectFromTeams d org repo) with
       | Ok (_ :: _) => []
       | _ => snd (detectFromCollaborators d org repo) ++ []
       end
   end)%list.
Proof.
  unfold DetectOwners. rewrite snd_bind.
  destruct (fst (detectFromCodeowners d org repo)) as [[|o os]|e];
    [rewrite snd_bind| reflexivity | rewrite snd_bind];
  (destruct (fst (detectFromTeams d org repo)) as [[|o' os']|e'];
    [rewrite snd_bind| reflexivity | rewrite snd_bind]);
  (destruct (fst (detectFromCollaborators d org repo)) as [[|o'' os'']|e'']; reflexivity).
Qed.

End OwnershipFacts2.

Module OwnershipFacts3.
Import Ownership OwnershipFacts OwnershipFacts2.

Lemma In_firstn_l {X} (n : nat) (l : list X) x : In x (firstn n l) -> In x l.
Proof. intros H. rewrite <- (firstn_skipn n l). apply in_or_app. left. exact H. Qed.

Lemma dedup_seen_incl l : forall seen x, In x (dedup_seen seen l) -> In x l.
Proof.
  induction l as [|y l IH]; intros seen x H; [exact H|].
  simpl in H. destruct (mem y seen).
  - right. eapply IH. exact H.
  - destruct H as [<-|H]; [left; reflexivity|right; eapply IH; exact H].
Qed.

Lemma marked_at t : marked (String "@" t) = true.
Proof. destruct t; reflexivity. Qed.

Lemma match_owner_at_marked s m r : match_owner_at s = Some (m, r) -> marked m = true.
Proof.
  destruct s as [|c s1]; simpl; [discriminate|].
  destruct (Ascii.eqb c "@"%char); [|discriminate].
  destruct (span_word s1) as [w1 r1].
  destruct (w1 =? ""); [discriminate|].
  destruct r1 as [|c2 s2].
  - intros H; inversion H; subst; apply marked_at.
  - destruct (Ascii.eqb c2 "/"%char).
    + destruct (span_word s2) as [w2 r2].
      destruct (w2 =? ""); intros H; inversion H; subst; apply marked_at.
    + intros H; inversion H; subst; apply marked_at.
Qed.

Lemma find_all_marked n : forall s, Forall (fun m => marked m = true) (find_all_fuel n s).
Proof.
  induction n as [|n IH]; intros s; [constructor|].
  destruct s as [|c s']; [constructor|]. cbn [find_all_fuel].
  destruct (match_owner_at (String c s')) as [[m r]|] eqn:E; [|apply IH].
  constructor; [eapply match_owner_at_marked; exact E|apply IH].
Qed.

Lemma extract_marked content :
  Forall (fun h => marked h = true) (extractOwnersFromCodeowners content).
Proof.
  rewrite extract_spec. apply Forall_forall. intros x Hx.
  apply In_firstn_l, dedup_seen_incl in Hx.
  exact (proj1 (Forall_forall _ _) (find_all_marked _ _) x Hx).
Qed.

Lemma extract_length content :
  (List.length (extractOwnersFromCodeowners content) <= 5)%nat.
Proof. rewrite extract_spec. apply firstn_le_length. Qed.

Lemma codeowners_ok_extract d org repo owners :
  fst (detectFromCodeowners d org repo) = Ok owners ->
  exists content, owners = extractOwnersFromCodeowners content.
Proof.
  unfold detectFromCodeowners. rewrite codeowners_loop_ok.
  intros (pre & p & post & c & _ & _ & _ & Hex & _). exists c. symmetry. exact Hex.
Qed.

Lemma teams_ok d org repo owners :
  fst (detectFromTeams d org repo) = Ok owners ->
  exists teams, owners = firstn 3 (map (team_handle org) (filter team_elevated teams)).
Proof.
  rewrite teams_fst. destruct (client d) as [api|]; [|discriminate].
  destruct (listTeams api org repo) as [teams|e]; [|discriminate].
  intros Hok. exists teams.
  destruct (firstn 3 (map (team_handle org) (filter team_elevated teams))) as [|h t]; [discriminate|].
  inversion Hok; reflexivity.
Qed.

Lemma collaborators_ok d org repo owners :
  fst (detectFromCollaborators d org repo) = Ok owners ->
  exists cs, owners = firstn 5 (map collab_handle (filter collab_elevated cs)).
Proof.
  rewrite collaborators_fst. destruct (client d) as [api|]; [|discriminate].
  destruct (listCollaborators api org repo) as [cs|e]; [|discriminate].
  intros Hok. exists cs.
  destruct (firstn 5 (map collab_handle (filter collab_elevated cs))) as [|h t]; [discriminate|].
  inversion Hok; reflexivity.
Qed.

Lemma firstn_map_marked {X} n (f : X -> string) l :
  (forall x, marked (f x) = true) -> Forall (fun h => marked h = true) (firstn n (map f l)).
Proof.
  intros Hf. apply Forall_forall. intros h Hh.
  apply In_firstn_l, in_map_iff in Hh. destruct Hh as (x & <- & _). apply Hf.
Qed.

Lemma existsb_fetch_calls d org repo l :
  existsb is_ListTeams (fetch_calls d org repo l) = false /\
  existsb is_ListCollaborators (fetch_calls d org repo l) = false.
Proof.
  unfold fetch_calls. destruct (client d); [|split; reflexivity].
  induction l as [|p l IH]; [split; reflexivity|]. exact IH.
Qed.

(** ** C1 *)

(** C1: for every detector, organization and repository and every behaviour
    of the API (errors included), [DetectOwners] returns a nil error and
    between one and five owner handles. *)
Theorem DetectOwners_total d org repo :
  snd (fst (DetectOwners d org repo)) = None /\
  (1 <= List.length (fst (fst (DetectOwners d org repo))) <= 5)%nat.
Proof.
  assert (B1 : forall o, fst (detectFromCodeowners d org repo) = Ok o -> (List.length o <= 5)%nat).
  { intros o Ho. destruct (codeowners_ok_extract _ _ _ _ Ho) as [c ->]. apply extract_length. }
  assert (B2 : forall o, fst (detectFromTeams d org repo) = Ok o -> (List.length o <= 3)%nat).
  { intros o Ho. destruct (teams_ok _ _ _ _ Ho) as [ts ->]. apply firstn_le_length. }
  assert (B3 : forall o, fst (detectFromCollaborators d org repo) = Ok o -> (List.length o <= 5)%nat).
  { intros o Ho. destruct (collaborators_ok _ _ _ _ Ho) as [cs ->]. apply firstn_le_length. }
  rewrite DetectOwners_fst. cbn [fst snd]. split; [reflexivity|].
  destruct (fst (detectFromCodeowners d org repo)) as [[|o os]|e] eqn:E1;
    try (pose proof (B1 _ eq_refl); simpl in *; lia);
  destruct (fst (detectFromTeams d org repo)) as [[|o2 os2]|e2] eqn:E2;
    try (pose proof (B2 _ eq_refl); simpl in *; lia);
  destruct (fst (detectFromCollaborators d org repo)) as [[|o3 os3]|e3] eqn:E3;
    try (pose proof (B3 _ eq_refl); simpl in *; lia); simpl; lia.
Qed.

End OwnershipFacts3.

Module OwnershipClaims.
Import Ownership OwnershipFacts OwnershipFacts2 OwnershipFacts3 Examples.

(** ** C2 *)

(** C2: when the CODEOWNERS strategy yields a non-empty list, [DetectOwners]
    returns exactly that list and makes neither a teams nor a collaborators
    request; when the teams strategy yields a non-empty list, no
    collaborators request is made. *)
Theorem DetectOwners_priority d org repo :
  (forall owners, fst (detectFromCodeowners d org repo) = Ok owners -> owners <> [] ->
     fst (DetectOwners d org repo) = (owners, None) /\
     existsb is_ListTeams (snd (DetectOwners d org repo)) = false /\
     existsb is_ListCollaborators (snd (DetectOwners d org repo)) = false) /\
  (forall owners, fst (detectFromTeams d org repo) = Ok owners -> owners <> [] ->
     existsb is_ListCollaborators (snd (DetectOwners d org repo)) = false).
Proof.
  destruct (codeowners_loop_calls d org repo codeownersPaths None) as [k Hk].
  destruct (existsb_fetch_calls d org repo (firstn k codeownersPaths)) as [Ht Hc].
  fold (detectFromCodeowners d org repo) in Hk.
  split.
  - intros owners H1 Hne. destruct owners as [|o os]; [contradiction|].
    rewrite DetectOwners_fst, DetectOwners_snd, H1, Hk, !app_nil_r.
    repeat split; assumption.
  - intros owners H2 Hne. destruct owners as [|o os]; [contradiction|].
    rewrite DetectOwners_snd, Hk, existsb_app, Hc. simpl.
    destruct (fst (detectFromCodeowners d org repo)) as [[|? ?]|?];
      try reflexivity;
      rewrite existsb_app, teams_snd, H2; destruct (client d); reflexivity.
Qed.

Lemma DetectOwners_priority_witness :
  let d := detector_of (api_of [("CODEOWNERS", "* @konflux-ci/Vanguard")]
                               scenario_teams seven_collaborators) in
  (fst (detectFromCodeowners d "org" "repo") = Ok ["@konflux-ci/Vanguard"] /\
   ["@konflux-ci/Vanguard"] <> [] /\
   fst (DetectOwners d "org" "repo") = (["@konflux-ci/Vanguard"], None) /\
   existsb is_ListTeams (snd (DetectOwners d "org" "repo")) = false /\
   existsb is_ListCollaborators (snd (DetectOwners d "org" "repo")) = false) /\
  (fst (detectFromTeams d "org" "repo") = Ok ["@org/admin-team"; "@org/maintain-team"] /\
   existsb is_ListCollaborators (snd (DetectOwners d "org" "repo")) = false).
Proof.
  intros d.
  assert (H1 : fst (detectFromCodeowners d "org" "repo") = Ok ["@konflux-ci/Vanguard"])
    by (vm_compute; reflexivity).
  assert (H2 : fst (detectFromTeams d "org" "repo") = Ok ["@org/admin-team"; "@org/maintain-team"])
    by (vm_compute; reflexivity).
  split.
  - split; [exact H1|]. split; [discriminate|].
    apply (proj1 (DetectOwners_priority d "org" "repo")); [exact H1|discriminate].
  - split; [exact H2|].
    apply (proj2 (DetectOwners_priority d "org" "repo") _ H2); discriminate.
Defined.

(** ** C3 *)

(** C3 (as stated): a counterexample.  The first path that is fetched,
    [.github/CODEOWNERS], yields no handle; the claim has the strategy fail
    there, but the code goes on to [CODEOWNERS] and returns its handle. *)
Lemma codeowners_first_fetched_cex :
  let d := detector_of (api_of [(".github/CODEOWNERS", "# no owners here");
                                ("CODEOWNERS", "* @user")] [] []) in
  fst (fetchFile d "org" "repo" ".github/CODEOWNERS") = Ok "# no owners here" /\
  extractOwnersFromCodeowners "# no owners here" = [] /\
  fst (detectFromCodeowners d "org" "repo") = Ok ["@user"].
Proof. vm_compute. repeat split. Qed.

(** C3 (amended): the candidate paths are [.github/CODEOWNERS], [CODEOWNERS],
    [docs/CODEOWNERS] in this order and are fetched in this order (a prefix
    of the list).  The strategy returns the handles of the first path whose
    fetch succeeds and whose file yields at least one handle; every earlier
    path is skipped (its fetch fails or its file yields no handle).  When
    every path is skipped the strategy fails. *)
Theorem codeowners_first_nonempty_file d org repo :
  codeownersPaths = [".github/CODEOWNERS"; "CODEOWNERS"; "docs/CODEOWNERS"] /\
  (exists k, snd (detectFromCodeowners d org repo) =
             fetch_calls d org repo (firstn k codeownersPaths)) /\
  (forall owners,
     fst (detectFromCodeowners d org repo) = Ok owners <->
     exists pre path post content,
       codeownersPaths = (pre ++ path :: post)%list /\
       Forall (skipped d org repo) pre /\
       fst (fetchFile d org repo path) = Ok content /\
       extractOwnersFromCodeowners content = owners /\ owners <> []) /\
  (Forall (skipped d org repo) codeownersPaths ->
     exists e, fst (detectFromCodeowners d org repo) = Err e).
Proof.
  split; [reflexivity|]. split; [apply codeowners_loop_calls|].
  assert (Hok : forall owners,
     fst (detectFromCodeowners d org repo) = Ok owners <->
     exists pre path post content,
       codeownersPaths = (pre ++ path :: post)%list /\
       Forall (skipped d org repo) pre /\
       fst (fetchFile d org repo path) = Ok content /\
       extractOwnersFromCodeowners content = owners /\ owners <> [])
    by (intros owners; apply codeowners_loop_ok).
  split; [exact Hok|].
  intros Hall. destruct (fst (detectFromCodeowners d org repo)) as [owners|e] eqn:E;
    [|exists e; reflexivity].
  exfalso. destruct (proj1 (Hok owners) eq_refl) as (pre & path & post & c & Heq & _ & Hf & Hex & Hne).
  rewrite Heq in Hall. apply Forall_app in Hall. destruct Hall as [_ Hall].
  apply Forall_inv in Hall.
  apply Hne. rewrite <- Hex. apply Hall. exact Hf.
Qed.

Lemma codeowners_first_nonempty_file_witness :
  let d := detector_of (api_of [(".github/CODEOWNERS", "# no owners here");
                                ("CODEOWNERS", "* @user")] [] []) in
  Forall (skipped d "org" "repo") [".github/CODEOWNERS"] /\
  fst (detectFromCodeowners d "org" "repo") = Ok ["@user"] /\
  ~ Forall (skipped d "org" "repo") codeownersPaths.
Proof.
  intros d.
  destruct (codeowners_first_nonempty_file d "org" "repo") as (_ & _ & Hok & _).
  assert (Hs : Forall (skipped d "org" "repo") [".github/CODEOWNERS"]).
  { constructor; [|constructor]. intros c Hc. vm_compute in Hc. inversion Hc. reflexivity. }
  assert (Hr : fst (detectFromCodeowners d "org" "repo") = Ok ["@user"]).
  { apply (proj2 (Hok ["@user"])).
    exists [".github/CODEOWNERS"], "CODEOWNERS", ["docs/CODEOWNERS"], "* @user".
    split; [reflexivity|]. split; [exact Hs|]. split; [reflexivity|].
    split; [reflexivity|discriminate]. }
  split; [exact Hs|]. split; [exact Hr|].
  intros Hall.
  destruct (codeowners_first_nonempty_file d "org" "repo") as (_ & _ & _ & Herr).
  destruct (Herr Hall) as [e He]. rewrite Hr in He. discriminate.
Defined.

(** ** C4 *)

(** C4: the teams strategy keeps exactly the teams whose permission string
    is ["admin"] or ["maintain"], the collaborators strategy exactly the
    collaborators whose [admin] or [maintain] flag is set, in listing order
    (then capped); an empty selection makes the strategy fail.  For the
    spec's scenario the teams strategy returns
    [["@org/admin-team"; "@org/maintain-team"]]. *)
Theorem elevated_permission_filter d org repo api :
  client d = Some api ->
  (forall teams, listTeams api org repo = Ok teams ->
     let kept := map (fun t => "@" ++ org ++ "/" ++ slug t)
                   (filter (fun t => (permission t =? "admin") || (permission t =? "maintain"))
                      teams) in
     (kept = [] /\ exists e, fst (detectFromTeams d org repo) = Err e) \/
     (kept <> [] /\ fst (detectFromTeams d org repo) = Ok (firstn 3 kept))) /\
  (forall cs, listCollaborators api org repo = Ok cs ->
     let kept := map (fun c => "@" ++ login c)
                   (filter (fun c => perm_get (permissions c) "admin"
                                     || perm_get (permissions c) "maintain") cs) in
     (kept = [] /\ exists e, fst (detectFromCollaborators d org repo) = Err e) \/
     (kept <> [] /\ fst (detectFromCollaborators d org repo) = Ok (firstn 5 kept))) /\
  (listTeams api "org" "repo" = Ok scenario_teams ->
     fst (detectFromTeams d "org" "repo") = Ok ["@org/admin-team"; "@org/maintain-team"]).
Proof.
  intros Hc. split; [|split].
  - intros teams Hl kept.
    change kept with (map (team_handle org) (filter team_elevated teams)).
    rewrite teams_fst, Hc, Hl.
    destruct (map (team_handle org) (filter team_elevated teams)) as [|x xs].
    + left. split; [reflexivity|]. eexists; reflexivity.
    + right. split; [discriminate|reflexivity].
  - intros cs Hl kept.
    change kept with (map collab_handle (filter collab_elevated cs)).
    rewrite collaborators_fst, Hc, Hl.
    destruct (map collab_handle (filter collab_elevated cs)) as [|x xs].
    + left. split; [reflexivity|]. eexists; reflexivity.
    + right. split; [discriminate|reflexivity].
  - intros Hl. rewrite teams_fst, Hc, Hl. reflexivity.
Qed.

Lemma elevated_permission_filter_witness :
  let api := api_of [] scenario_teams
               [mk_admin "admin-user";
                {| login := "read-user"; permissions := [("admin", false); ("maintain", false)] |}] in
  client (detector_of api) = Some api /\
  fst (detectFromTeams (detector_of api) "org" "repo")
    = Ok ["@org/admin-team"; "@org/maintain-team"] /\
  fst (detectFromCollaborators (detector_of api) "org" "repo") = Ok ["@admin-user"].
Proof.
  intros api.
  destruct (elevated_permission_filter (detector_of api) "org" "repo" api eq_refl)
    as (_ & Hcs & Hsc).
  split; [reflexivity|]. split; [apply Hsc; reflexivity|].
  destruct (Hcs _ eq_refl) as [[Hk _]|[_ Hr]]; [discriminate Hk|exact Hr].
Defined.

(** ** C5 *)

(** C5: with 7 qualifying teams the teams strategy returns the first 3; with
    7 qualifying collaborators the collaborators strategy returns the first
    5; when the file the file strategy settles on holds 8 distinct handle
    tokens, it returns the first 5.  That file is at any of the candidate
    paths: the one reached after every earlier path was skipped. *)
Theorem strategy_caps d org repo api :
  client d = Some api ->
  (forall teams, listTeams api org repo = Ok teams ->
     List.length (filter team_elevated teams) = 7 ->
     exists owners, fst (detectFromTeams d org repo) = Ok owners /\
       List.length owners = 3 /\
       owners = firstn 3 (map (team_handle org) (filter team_elevated teams))) /\
  (forall cs, listCollaborators api org repo = Ok cs ->
     List.length (filter collab_elevated cs) = 7 ->
     exists owners, fst (detectFromCollaborators d org repo) = Ok owners /\
       List.length owners = 5 /\
       owners = firstn 5 (map collab_handle (filter collab_elevated cs))) /\
  (forall pre path post content,
     codeownersPaths = (pre ++ path :: post)%list ->
     Forall (skipped d org repo) pre ->
     getContents api org repo path = Ok content ->
     List.length (dedup_seen [] (findAllString content)) = 8 ->
     exists owners, fst (detectFromCodeowners d org repo) = Ok owners /\
       List.length owners = 5 /\
       owners = firstn 5 (dedup_seen [] (findAllString content))).
Proof.
  intros Hc. split; [|split].
  - intros teams Hl H7. rewrite teams_fst, Hc, Hl.
    assert (Hlen : List.length (firstn 3 (map (team_handle org) (filter team_elevated teams))) = 3)
      by (rewrite length_firstn, length_map, H7; reflexivity).
    destruct (firstn 3 (map (team_handle org) (filter team_elevated teams))) as [|x xs] eqn:E;
      [discriminate Hlen|].
    exists (x :: xs). split; [reflexivity|]. split; [exact Hlen|reflexivity].
  - intros cs Hl H7. rewrite collaborators_fst, Hc, Hl.
    assert (Hlen : List.length (firstn 5 (map collab_handle (filter collab_elevated cs))) = 5)
      by (rewrite length_firstn, length_map, H7; reflexivity).
    destruct (firstn 5 (map collab_handle (filter collab_elevated cs))) as [|x xs] eqn:E;
      [discriminate Hlen|].
    exists (x :: xs). split; [reflexivity|]. split; [exact Hlen|reflexivity].
  - intros pre path post content Hp Hpre Hg H8.
    assert (Hlen : List.length (extractOwnersFromCodeowners content) = 5)
      by (rewrite extract_spec, length_firstn, H8; reflexivity).
    exists (extractOwnersFromCodeowners content). split; [|split; [exact Hlen|apply extract_spec]].
    unfold detectFromCodeowners. apply codeowners_loop_ok.
    exists pre, path, post, content.
    split; [exact Hp|]. split; [exact Hpre|].
    split; [unfold fetchFile; rewrite Hc, Hg; reflexivity|].
    split; [reflexivity|]. intros E. rewrite E in Hlen. discriminate.
Qed.

Lemma strategy_caps_witness :
  let api := api_of [("docs/CODEOWNERS", eight_handles)] seven_teams seven_collaborators in
  let d := detector_of api in
  fst (detectFromTeams d "many" "repo") = Ok ["@many/team1"; "@many/team2"; "@many/team3"] /\
  fst (detectFromCollaborators d "many" "repo")
    = Ok ["@user1"; "@user2"; "@user3"; "@user4"; "@user5"] /\
  fst (detectFromCodeowners d "many" "repo") = Ok ["@o1"; "@o2"; "@o3"; "@o4"; "@o5"].
Proof.
  intros api d.
  destruct (strategy_caps d "many" "repo" api eq_refl) as (Ht & Hcs & Hf).
  destruct (Ht seven_teams eq_refl eq_refl) as (o1 & E1 & _ & Ho1).
  destruct (Hcs seven_collaborators eq_refl eq_refl) as (o2 & E2 & _ & Ho2).
  assert (Hsk : Forall (skipped d "many" "repo") [".github/CODEOWNERS"; "CODEOWNERS"]).
  { constructor; [|constructor; [|constructor]];
      intros c Hc; vm_compute in Hc; discriminate Hc. }
  destruct (Hf [".github/CODEOWNERS"; "CODEOWNERS"] "docs/CODEOWNERS" [] eight_handles
              eq_refl Hsk eq_refl
              (eq_refl : List.length (dedup_seen [] (findAllString eight_handles)) = 8))
    as (o3 & E3 & _ & Ho3).
  rewrite E1, E2, E3, Ho1, Ho2, Ho3. vm_compute. split; [|split]; reflexivity.
Defined.

(** ** C6 *)

(** C6 (as stated): a counterexample.  A detector configured with the
    default owner ["konflux"] and no client returns ["konflux"], which has
    no leading ['@']. *)
Lemma default_owner_unmarked_cex :
  fst (fst (DetectOwners (NewDetector None "konflux") "org" "repo")) = ["konflux"] /\
  marked "konflux" = false.
Proof. split; reflexivity. Qed.

Lemma DetectOwners_marked_or_default d org repo :
  Forall (fun h => marked h = true \/ h = defaultOwner d) (fst (fst (DetectOwners d org repo))).
Proof.
  rewrite DetectOwners_fst. cbn [fst].
  assert (Hm : forall l, Forall (fun h => marked h = true) l ->
                         Forall (fun h => marked h = true \/ h = defaultOwner d) l)
    by (intros l Hl; eapply Forall_impl; [|exact Hl]; intros h Hh; left; exact Hh).
  destruct (fst (detectFromCodeowners d org repo)) as [[|o os]|e] eqn:E1.
  2:{ apply Hm. destruct (codeowners_ok_extract _ _ _ _ E1) as [c ->]. apply extract_marked. }
  all: destruct (fst (detectFromTeams d org repo)) as [[|o2 os2]|e2] eqn:E2.
  2:{ apply Hm. destruct (teams_ok _ _ _ _ E2) as [ts ->].
      apply firstn_map_marked. intros t. exact (marked_at _). }
  4:{ apply Hm. destruct (teams_ok _ _ _ _ E2) as [ts ->].
      apply firstn_map_marked. intros t. exact (marked_at _). }
  all: destruct (fst (detectFromCollaborators d org repo)) as [[|o3 os3]|e3] eqn:E3;
    try (constructor; [right; reflexivity|constructor]).
  all: apply Hm; destruct (collaborators_ok _ _ _ _ E3) as [cs ->];
       apply firstn_map_marked; intros c; exact (marked_at _).
Qed.

(** C6 (amended): every handle from the CODEOWNERS, teams and collaborators
    strategies starts with ['@'].  When all three fail or come back empty,
    [DetectOwners] returns the configured default-owner string verbatim
    (["@konflux-ci/Vanguard"] when it is empty).  Hence every handle
    returned, for every client and repository, starts with ['@'] exactly
    when the configured string is empty or itself starts with ['@']. *)
Theorem handles_marked def0 :
  (forall c org repo owners,
     (fst (detectFromCodeowners (NewDetector c def0) org repo) = Ok owners \/
      fst (detectFromTeams (NewDetector c def0) org repo) = Ok owners \/
      fst (detectFromCollaborators (NewDetector c def0) org repo) = Ok owners) ->
     Forall (fun h => marked h = true) owners) /\
  (forall c org repo,
     (forall o, fst (detectFromCodeowners (NewDetector c def0) org repo) = Ok o -> o = []) ->
     (forall o, fst (detectFromTeams (NewDetector c def0) org repo) = Ok o -> o = []) ->
     (forall o, fst (detectFromCollaborators (NewDetector c def0) org repo) = Ok o -> o = []) ->
     fst (fst (DetectOwners (NewDetector c def0) org repo)) =
       [if def0 =? "" then "@konflux-ci/Vanguard" else def0]) /\
  ((forall c org repo,
      Forall (fun h => marked h = true) (fst (fst (DetectOwners (NewDetector c def0) org repo))))
   <-> def0 = "" \/ marked def0 = true).
Proof.
  assert (Hdef : forall c, defaultOwner (NewDetector c def0) =
                           if def0 =? "" then "@konflux-ci/Vanguard" else def0)
    by reflexivity.
  split; [|split].
  - intros c org repo owners [H|[H|H]].
    + destruct (codeowners_ok_extract _ _ _ _ H) as [ct ->]. apply extract_marked.
    + destruct (teams_ok _ _ _ _ H) as [ts ->].
      apply firstn_map_marked. intros t. exact (marked_at _).
    + destruct (collaborators_ok _ _ _ _ H) as [cs ->].
      apply firstn_map_marked. intros x. exact (marked_at _).
  - intros c org repo H1 H2 H3. rewrite DetectOwners_fst. cbn [fst]. rewrite <- (Hdef c).
    destruct (fst (detectFromCodeowners (NewDetector c def0) org repo)) as [[|o os]|e];
      [|discriminate (H1 _ eq_refl)|];
    (destruct (fst (detectFromTeams (NewDetector c def0) org repo)) as [[|o2 os2]|e2];
      [|discriminate (H2 _ eq_refl)|]);
    (destruct (fst (detectFromCollaborators (NewDetector c def0) org repo)) as [[|o3 os3]|e3];
      [|discriminate (H3 _ eq_refl)|]); reflexivity.
  - split.
    + intros H. specialize (H None "org" "repo").
      change (fst (fst (DetectOwners (NewDetector None def0) "org" "repo")))
        with [defaultOwner (NewDetector None def0)] in H.
      rewrite Hdef in H. inversion H as [|x l Hx _]; subst.
      destruct (def0 =? "") eqn:E; [left; apply String.eqb_eq; exact E|right; exact Hx].
    + intros Hd c org repo.
      pose proof (DetectOwners_marked_or_default (NewDetector c def0) org repo) as H.
      eapply Forall_impl; [|exact H]. intros h [Hh| ->]; [exact Hh|].
      rewrite Hdef. destruct Hd as [-> | Hm]; [reflexivity|].
      destruct (def0 =? ""); [reflexivity|exact Hm].
Qed.

Lemma handles_marked_witness :
  fst (fst (DetectOwners (NewDetector None "konflux") "org" "repo")) = ["konflux"] /\
  Forall (fun h => marked h = true)
    (fst (fst (DetectOwners (NewDetector None "@custom-org/custom-team") "test-org" "test-repo"))).
Proof.
  destruct (handles_marked "konflux") as (_ & Hf & _).
  destruct (handles_marked "@custom-org/custom-team") as (_ & _ & Hm).
  split.
  - apply (Hf None "org" "repo");
      intros o Ho; vm_compute in Ho; discriminate Ho.
  - apply Hm. right. reflexivity.
Defined.

(** ** C7 *)

(** C7: without a client the detector makes no call and returns exactly the
    configured default handle, which is ["@konflux-ci/Vanguard"] when the
    configured default-owner string is empty. *)
Theorem no_client_default def0 org repo :
  DetectOwners (NewDetector None def0) org repo =
    (([if def0 =? "" then "@konflux-ci/Vanguard" else def0], None), []) /\
  (forall c, defaultOwner (NewDetector c "") = "@konflux-ci/Vanguard").
Proof. split; [reflexivity|intros c; reflexivity]. Qed.

(** ** C8 *)

(** C8: the file strategy's extraction deduplicates the regexp matches by
    exact string equality in first-seen order (then keeps at most five), as
    in the spec's two examples. *)
Theorem extract_dedup_first_seen :
  (forall content,
     extractOwnersFromCodeowners content = firstn 5 (dedup_seen [] (findAllString content))) /\
  extractOwnersFromCodeowners "@user1 @user1 @user2" = ["@user1"; "@user2"] /\
  extractOwnersFromCodeowners
    ("* @konflux-ci/Vanguard" ++ String "010"
       "/repos/x.yaml @dirgim @hongweiliu17 @konflux-ci/integration")
  = ["@konflux-ci/Vanguard"; "@dirgim"; "@hongweiliu17"; "@konflux-ci/integration"].
Proof.
  split; [exact extract_spec|].
  split; vm_compute; reflexivity.
Qed.

End OwnershipClaims.

(** * Properties of the configuration writer *)

Module ConfigFacts.
Import Config.

(** ** Strings *)

Lemma sapp_assoc (a b c : string) : (a ++ b) ++ c = a ++ (b ++ c).
Proof. induction a as [|x a IH]; simpl; [reflexivity|now rewrite IH]. Qed.

Lemma sapp_nil (a : string) : a ++ "" = a.
Proof. induction a as [|x a IH]; simpl; [reflexivity|now rewrite IH]. Qed.

Lemma has_char_app c a b : has_char c (a ++ b) = has_char c a || has_char c b.
Proof. induction a as [|x a IH]; simpl; [reflexivity|]. rewrite IH, orb_assoc. reflexivity. Qed.

Lemma prefix_nil s : String.prefix "" s = true.
Proof. destruct s; reflexivity. Qed.

Lemma prefix_app p s t : String.prefix (p ++ s) (p ++ t) = String.prefix s t.
Proof.
  induction p as [|c p IH]; [reflexivity|]. simpl.
  destruct (ascii_dec c c) as [_|n]; [exact IH|contradiction n; reflexivity].
Qed.

Lemma prefix_at s : String.prefix "@" s = true -> exists r, s = String "@" r.
Proof.
  destruct s as [|c r]; [discriminate|].
  change ((if ascii_dec "@" c then String.prefix "" r else false) = true ->
          exists r0, String c r = String "@" r0).
  destruct (ascii_dec "@" c) as [<-|_]; [intros _; exists r; reflexivity|intros H; discriminate H].
Qed.

Lemma eqb_at_false c : nat_of_ascii c <> 64 -> Ascii.eqb c "@" = false.
Proof.
  intros H. destruct (Ascii.eqb c "@") eqn:E; [|reflexivity].
  apply Ascii.eqb_eq in E. subst c. contradiction H. reflexivity.
Qed.

(** ** White space never contains ['@'] *)

Lemma space1_not_at c : is_space_ascii c = true -> nat_of_ascii c <> 64.
Proof.
  unfold is_space_ascii. generalize (nat_of_ascii c). intros n H.
  repeat rewrite ?orb_true_iff, ?andb_true_iff, ?Nat.eqb_eq, ?Nat.leb_le in H. lia.
Qed.

Lemma space2_not_at c1 c2 : space2 c1 c2 = true ->
  nat_of_ascii c1 <> 64 /\ nat_of_ascii c2 <> 64.
Proof.
  unfold space2. generalize (nat_of_ascii c1) (nat_of_ascii c2). intros n1 n2 H.
  repeat rewrite ?orb_true_iff, ?andb_true_iff, ?Nat.eqb_eq, ?Nat.leb_le in H. lia.
Qed.

Lemma space3_not_at c1 c2 c3 : space3 c1 c2 c3 = true ->
  nat_of_ascii c1 <> 64 /\ nat_of_ascii c2 <> 64 /\ nat_of_ascii c3 <> 64.
Proof.
  unfold space3. generalize (nat_of_ascii c1) (nat_of_ascii c2) (nat_of_ascii c3).
  intros n1 n2 n3 H.
  repeat rewrite ?orb_true_iff, ?andb_true_iff, ?Nat.eqb_eq, ?Nat.leb_le in H. lia.
Qed.

Lemma all_spaces_at_aux n : forall s, String.length s <= n ->
  has_char "@" s = true -> all_spaces s = false.
Proof.
  induction n as [|n IH]; intros s Hl Hh.
  - destruct s; [discriminate|simpl in Hl; lia].
  - destruct s as [|c1 s1]; [discriminate|].
    cbn [has_char String.length] in Hh, Hl. cbn [all_spaces].
    destruct (is_space_ascii c1) eqn:S1.
    + rewrite (eqb_at_false _ (space1_not_at _ S1)) in Hh.
      apply IH; [lia|exact Hh].
    + destruct s1 as [|c2 s2]; [reflexivity|].
      cbn [has_char String.length] in Hh, Hl.
      destruct (space2 c1 c2) eqn:S2.
      * destruct (space2_not_at _ _ S2) as [N1 N2].
        rewrite (eqb_at_false _ N1), (eqb_at_false _ N2) in Hh.
        apply IH; [lia|exact Hh].
      * destruct s2 as [|c3 s3]; [reflexivity|].
        cbn [has_char String.length] in Hh, Hl.
        destruct (space3 c1 c2 c3) eqn:S3; [|reflexivity].
        destruct (space3_not_at _ _ _ S3) as (N1 & N2 & N3).
        rewrite (eqb_at_false _ N1), (eqb_at_false _ N2), (eqb_at_false _ N3) in Hh.
        apply IH; [lia|exact Hh].
Qed.

Lemma all_spaces_at s : has_char "@" s = true -> all_spaces s = false.
Proof. apply (all_spaces_at_aux (String.length s)). lia. Qed.

Lemma trim_right_app a b : has_char "@" b = true -> trim_right (a ++ b) = a ++ trim_right b.
Proof.
  intros Hb. induction a as [|c a IH]; [reflexivity|].
  cbn [append trim_right].
  rewrite all_spaces_at by (cbn [has_char]; rewrite has_char_app, Hb, !orb_true_r; reflexivity).
  rewrite IH. reflexivity.
Qed.

Lemma trim_left_slash t : trim_left (String "/" t) = String "/" t.
Proof. destruct t as [|c2 [|c3 t]]; reflexivity. Qed.

Lemma before_hash_app a b : has_char "#" a = false -> before_hash (a ++ b) = a ++ before_hash b.
Proof.
  induction a as [|c a IH]; [reflexivity|]. cbn [has_char append before_hash].
  intros H. apply orb_false_iff in H as [H1 H2]. rewrite H1, (IH H2). reflexivity.
Qed.

(** ** [Split] and [Join] on newlines *)

Lemma split_nosep sep x : has_char sep x = false -> split_char sep x = [x].
Proof.
  induction x as [|c x IH]; [reflexivity|]. cbn [has_char split_char].
  intros H. apply orb_false_iff in H as [H1 H2]. rewrite H1, (IH H2). reflexivity.
Qed.

Lemma split_app_sep sep x rest : has_char sep x = false ->
  split_char sep (x ++ String sep rest) = x :: split_char sep rest.
Proof.
  induction x as [|c x IH]; cbn [has_char append split_char]; intros H.
  - rewrite Ascii.eqb_refl. reflexivity.
  - apply orb_false_iff in H as [H1 H2]. rewrite H1, (IH H2). reflexivity.
Qed.

Lemma Forall_split_nosep sep s :
  Forall (fun x => has_char sep x = false) (split_char sep s).
Proof.
  induction s as [|c s IH]; cbn [split_char].
  - constructor; [reflexivity|constructor].
  - destruct (Ascii.eqb c sep) eqn:E; [constructor; [reflexivity|exact IH]|].
    destruct (split_char sep s) as [|p ps].
    + constructor; [cbn [has_char]; rewrite E; reflexivity|constructor].
    + apply Forall_cons_iff in IH as [Hp Hps].
      constructor; [cbn [has_char]; rewrite E, Hp; reflexivity|exact Hps].
Qed.

Lemma Forall_split_sub c sep s : has_char c s = false ->
  Forall (fun x => has_char c x = false) (split_char sep s).
Proof.
  induction s as [|c0 s IH]; cbn [split_char has_char]; intros H.
  - constructor; [reflexivity|constructor].
  - apply orb_false_iff in H as [H1 H2]. specialize (IH H2).
    destruct (Ascii.eqb c0 sep); [constructor; [reflexivity|exact IH]|].
    destruct (split_char sep s) as [|p ps].
    + constructor; [cbn [has_char]; rewrite H1; reflexivity|constructor].
    + apply Forall_cons_iff in IH as [Hp Hps].
      constructor; [cbn [has_char]; rewrite H1, Hp; reflexivity|exact Hps].
Qed.

Lemma Forall_nth {X} (P : X -> Prop) n l d : Forall P l -> P d -> P (nth n l d).
Proof.
  revert n. induction l as [|x l IH]; intros n Hl Hd; destruct n; simpl; auto.
  - inversion Hl; assumption.
  - inversion Hl; subst. apply IH; assumption.
Qed.

Lemma split_Join l : l <> [] -> Forall (fun x => has_char "010" x = false) l ->
  split_char "010" (Join nl l) = l.
Proof.
  induction l as [|x [|y ys] IH]; intros Hne Hf; [congruence| |].
  - apply Forall_cons_iff in Hf as [Hx _]. apply split_nosep. exact Hx.
  - apply Forall_cons_iff in Hf as [Hx Hys].
    change (Join nl (x :: y :: ys)) with (x ++ String "010" (Join nl (y :: ys))).
    rewrite split_app_sep by exact Hx. rewrite IH; [reflexivity|discriminate|exact Hys].
Qed.

Lemma Join_snoc_empty l : l <> [] -> Join nl (l ++ [""]) = Join nl l ++ nl.
Proof.
  induction l as [|x [|y ys] IH]; intros Hne; [congruence| |].
  - transitivity (x ++ nl ++ ""); [reflexivity|]. rewrite sapp_nil. reflexivity.
  - transitivity (x ++ nl ++ Join nl ((y :: ys) ++ [""])); [reflexivity|].
    rewrite IH by discriminate.
    transitivity ((x ++ nl ++ Join nl (y :: ys)) ++ nl); [|reflexivity].
    rewrite !sapp_assoc. reflexivity.
Qed.

Lemma has_suffix_app suf s : has_suffix suf (s ++ suf) = true.
Proof.
  induction s as [|c s IH].
  - destruct suf as [|c t]; [reflexivity|].
    cbn [append has_suffix]. rewrite String.eqb_refl. reflexivity.
  - cbn [append has_suffix]. rewrite IH, orb_true_r. reflexivity.
Qed.

Lemma has_char_Join c sep l : has_char c sep = false ->
  Forall (fun x => has_char c x = false) l -> has_char c (Join sep l) = false.
Proof.
  intros Hs. induction l as [|x [|y ys] IH]; intros Hf; [reflexivity| |].
  - apply Forall_cons_iff in Hf as [Hx _]. exact Hx.
  - apply Forall_cons_iff in Hf as [Hx Hys].
    change (Join sep (x :: y :: ys)) with (x ++ sep ++ Join sep (y :: ys)).
    rewrite !has_char_app, Hx, Hs, (IH Hys). reflexivity.
Qed.

(** ** The written content read back *)

Lemma writeCodeowners_render w lines fs :
  writeCodeowners w lines fs =
  match WriteFile (codeownersFile w) (render lines) fs with
  | (Some e, fs') => (Some (Error e), fs')
  | (None, fs') => (None, fs')
  end.
Proof. reflexivity. Qed.

Lemma render_split L : L <> [] -> Forall (fun x => has_char "010" x = false) L ->
  exists ext, split_char "010" (render L) = (L ++ ext)%list /\
              render (split_char "010" (render L)) = render L.
Proof.
  intros Hne Hf. destruct (has_suffix nl (Join nl L)) eqn:E.
  - assert (RL : render L = Join nl L) by (unfold render; rewrite E; reflexivity).
    rewrite RL. exists []. rewrite split_Join by assumption. rewrite app_nil_r.
    split; [reflexivity|exact RL].
  - assert (RL : render L = Join nl L ++ nl) by (unfold render; rewrite E; reflexivity).
    rewrite RL. exists [""]. rewrite <- Join_snoc_empty by assumption.
    rewrite split_Join.
    + split; [reflexivity|]. unfold render. rewrite Join_snoc_empty by assumption.
      rewrite has_suffix_app. reflexivity.
    + destruct L; [congruence|discriminate].
    + apply Forall_app. split; [exact Hf|constructor; [reflexivity|constructor]].
Qed.

(** ** The replacement loop *)

Lemma replace_first_spec pat E lines : forall lines' found,
  replace_first pat E lines = (lines', found) ->
  (found = true /\ exists pre x post, lines = (pre ++ x :: post)%list /\
      Forall (fun l => matchesPattern l pat = false) pre /\
      matchesPattern x pat = true /\ lines' = (pre ++ E :: post)%list) \/
  (found = false /\ lines' = lines /\ Forall (fun l => matchesPattern l pat = false) lines).
Proof.
  induction lines as [|l ls IH]; intros lines' found H; cbn [replace_first] in H.
  - injection H as <- <-. right. auto.
  - destruct (matchesPattern l pat) eqn:M.
    + injection H as <- <-. left. split; [reflexivity|].
      exists [], l, ls. auto.
    + destruct (replace_first pat E ls) as [r f] eqn:R. injection H as <- <-.
      destruct (IH r f eq_refl) as [(-> & pre & x & post & -> & Hp & Hx & ->)|(-> & -> & Hp)].
      * left. split; [reflexivity|]. exists (l :: pre), x, post.
        split; [reflexivity|]. split; [constructor; assumption|split; [exact Hx|reflexivity]].
      * right. split; [reflexivity|]. split; [reflexivity|constructor; assumption].
Qed.

Lemma replace_first_hit pat E pre l post :
  Forall (fun x => matchesPattern x pat = false) pre -> matchesPattern l pat = true ->
  replace_first pat E (pre ++ l :: post) = ((pre ++ E :: post)%list, true).
Proof.
  intros Hp Hl. induction pre as [|x pre IH].
  - cbn [app replace_first]. rewrite Hl. reflexivity.
  - apply Forall_cons_iff in Hp as [Hx Hp].
    cbn [app replace_first]. rewrite Hx, (IH Hp). reflexivity.
Qed.

Lemma render_fixed pat E pre post :
  Forall (fun x => matchesPattern x pat = false) pre ->
  Forall (fun x => has_char "010" x = false) (pre ++ E :: post) ->
  matchesPattern E pat = true ->
  replace_first pat E (split_char "010" (render (pre ++ E :: post)))
    = (split_char "010" (render (pre ++ E :: post)), true) /\
  render (split_char "010" (render (pre ++ E :: post))) = render (pre ++ E :: post).
Proof.
  intros Hp Hf HE.
  destruct (render_split (pre ++ E :: post)) as (ext & Hs & Hr);
    [destruct pre; discriminate|exact Hf|].
  split; [|exact Hr]. rewrite Hs. rewrite <- app_assoc, <- app_comm_cons.
  apply replace_first_hit; assumption.
Qed.

(** ** The entry of a repository *)

Lemma matchesPattern_empty fn : matchesPattern "" ("/repos/" ++ fn) = false.
Proof. reflexivity. Qed.

Lemma Join_at l : l <> [] -> Forall (fun o => exists r, o = String "@" r) l ->
  exists r, Join " " l = String "@" r.
Proof.
  intros Hne Hf. destruct l as [|o [|o' os]]; [congruence| |].
  - apply Forall_cons_iff in Hf as [[r ->] _]. exists r. reflexivity.
  - apply Forall_cons_iff in Hf as [[r ->] _]. eexists. reflexivity.
Qed.

Lemma entry_matches fn no : has_char "#" fn = false -> no <> [] ->
  Forall (fun o => exists r, o = String "@" r) no ->
  matchesPattern ("/repos/" ++ fn ++ " " ++ Join " " no) ("/repos/" ++ fn) = true.
Proof.
  intros Hfn Hne Hf. destruct (Join_at no Hne Hf) as [r ->].
  unfold matchesPattern, TrimSpace.
  rewrite <- (sapp_assoc "/repos/" fn).
  rewrite before_hash_app by (rewrite has_char_app, Hfn; reflexivity).
  change (before_hash (" " ++ String "@" r)) with (" " ++ String "@" (before_hash r)).
  change (trim_left ((("/repos/" ++ fn) ++ " " ++ String "@" (before_hash r))))
    with (trim_left (String "/" (("repos/" ++ fn) ++ " " ++ String "@" (before_hash r)))).
  rewrite trim_left_slash.
  change (String "/" (("repos/" ++ fn) ++ " " ++ String "@" (before_hash r)))
    with (("/repos/" ++ fn) ++ " " ++ String "@" (before_hash r)).
  rewrite trim_right_app by reflexivity.
  unfold HasPrefix. rewrite prefix_app.
  apply orb_true_iff. right.
  change (trim_right (" " ++ String "@" (before_hash r)))
    with (if all_spaces (String " " (String "@" (before_hash r))) then ""
          else String " " (trim_right (String "@" (before_hash r)))).
  rewrite all_spaces_at by reflexivity. simpl. apply prefix_nil.
Qed.

Lemma normalize_loop_props owners : forall seen result,
  Forall (fun o => has_char "010" (TrimSpace o) = false) owners ->
  Forall (fun o => (exists r, o = String "@" r) /\ has_char "010" o = false) result ->
  Forall (fun o => (exists r, o = String "@" r) /\ has_char "010" o = false)
    (normalize_loop owners seen result).
Proof.
  induction owners as [|o os IH]; intros seen result Ho Hr; [exact Hr|].
  apply Forall_cons_iff in Ho as [Ho Hos]. cbn [normalize_loop].
  destruct (TrimSpace o =? "") eqn:E; [apply IH; assumption|].
  set (o2 := if HasPrefix (TrimSpace o) "@" then TrimSpace o else "@" ++ TrimSpace o).
  destruct (mem o2 seen); [apply IH; assumption|].
  apply IH; [exact Hos|]. apply Forall_app. split; [exact Hr|].
  constructor; [|constructor]. unfold o2.
  destruct (HasPrefix (TrimSpace o) "@") eqn:P.
  - split; [apply prefix_at; exact P|exact Ho].
  - split; [eexists; reflexivity|]. cbn [has_char append]. rewrite Ho. reflexivity.
Qed.

Lemma span_word_spec s : forall w r, span_word s = (w, r) ->
  s = w ++ r /\ forall c, is_word_char c = false -> has_char c w = false.
Proof.
  induction s as [|c0 s IH]; intros w r H; cbn [span_word] in H.
  - injection H as <- <-. split; [reflexivity|intros; reflexivity].
  - destruct (is_word_char c0) eqn:W.
    + destruct (span_word s) as [w' r'] eqn:E. injection H as <- <-.
      destruct (IH w' r' eq_refl) as [-> Hc]. split; [reflexivity|].
      intros c Hnc. cbn [has_char]. rewrite (Hc c Hnc).
      destruct (Ascii.eqb c0 c) eqn:Ec; [|reflexivity].
      apply Ascii.eqb_eq in Ec. subst. congruence.
    + injection H as <- <-. split; [reflexivity|intros; reflexivity].
Qed.

Lemma valid_name_chars s c : repoNamePattern_match s = true ->
  is_word_char c = false -> Ascii.eqb "/" c = false -> has_char c s = false.
Proof.
  intros H Hw Hs. unfold repoNamePattern_match in H.
  destruct (span_word s) as [w1 r1] eqn:E1.
  apply andb_true_iff in H as [_ H].
  destruct r1 as [|c0 r2]; [discriminate|].
  apply andb_true_iff in H as [Hc H]. apply Ascii.eqb_eq in Hc. subst c0.
  destruct (span_word r2) as [w2 r3] eqn:E2.
  apply andb_true_iff in H as [_ H3]. apply String.eqb_eq in H3. subst r3.
  destruct (span_word_spec _ _ _ E1) as [-> H1].
  destruct (span_word_spec _ _ _ E2) as [-> H2].
  rewrite has_char_app, (H1 c Hw). cbn [has_char]. rewrite Hs, has_char_app, (H2 c Hw).
  reflexivity.
Qed.

Lemma getFilename_chars name c : repoNamePattern_match name = true ->
  is_word_char c = false -> Ascii.eqb "/" c = false -> has_char c ".yaml" = false ->
  has_char c (getFilename name) = false.
Proof.
  intros H Hw Hs Hy. unfold getFilename. rewrite has_char_app, Hy, orb_false_r.
  apply (Forall_nth (fun x => has_char c x = false)); [|reflexivity].
  apply Forall_split_sub. apply valid_name_chars; assumption.
Qed.

(** ** The lines [updateCodeowners] writes *)

Lemma update_lines_cases fn no lines :
  (exists pre l post, lines = (pre ++ l :: post)%list /\
     Forall (fun x => matchesPattern x ("/repos/" ++ fn) = false) pre /\
     matchesPattern l ("/repos/" ++ fn) = true /\
     update_lines fn no lines = (pre ++ (("/repos/" ++ fn ++ " " ++ Join " " no)%string) :: post)%list) \/
  (Forall (fun x => matchesPattern x ("/repos/" ++ fn) = false) lines /\
   update_lines fn no lines =
     ((if (0 <? List.length lines)%nat && negb (last lines "" =? "")
       then lines ++ [""] else lines) ++ [("/repos/" ++ fn ++ " " ++ Join " " no)%string])%list).
Proof.
  unfold update_lines. cbv zeta.
  destruct (replace_first _ _ lines) as [l1 found] eqn:R.
  destruct (replace_first_spec _ _ _ _ _ R)
    as [(-> & pre & x & post & Hl & Hp & Hx & ->)|(-> & -> & Hp)].
  - left. exists pre, x, post. repeat split; assumption.
  - right. split; [exact Hp|reflexivity].
Qed.

Lemma codeowners_after_idem fn owners cur c :
  has_char "#" fn = false -> has_char "010" fn = false ->
  Forall (fun o => has_char "010" (TrimSpace o) = false) owners ->
  codeowners_after fn owners cur = Ok c ->
  codeowners_after fn owners (Some c) = Ok c.
Proof.
  intros Hh Hn Ho A.
  pose proof (normalize_loop_props owners [] [] Ho (Forall_nil _)) as Hno.
  unfold codeowners_after in A |- *.
  destruct owners as [|o os]; [discriminate|].
  fold (normalizeOwners (o :: os)) in Hno.
  destruct (normalizeOwners (o :: os)) as [|n ns] eqn:N; [discriminate|].
  injection A as <-.
  set (E := "/repos/" ++ fn ++ " " ++ Join " " (n :: ns)).
  set (lines := match cur with Some data => split_char "010" data | None => [] end).
  assert (Hl : Forall (fun x => has_char "010" x = false) lines)
    by (unfold lines; destruct cur; [apply Forall_split_nosep|constructor]).
  assert (HE : matchesPattern E ("/repos/" ++ fn) = true).
  { apply entry_matches; [exact Hh|discriminate|].
    eapply Forall_impl; [|exact Hno]. intros x [Hx _]. exact Hx. }
  assert (HEn : has_char "010" E = false).
  { unfold E. rewrite !has_char_app, Hn. apply has_char_Join; [reflexivity|].
    eapply Forall_impl; [|exact Hno]. intros x [_ Hx]. exact Hx. }
  assert (G : exists pre post, update_lines fn (n :: ns) lines = (pre ++ E :: post)%list /\
              Forall (fun x => matchesPattern x ("/repos/" ++ fn) = false) pre /\
              Forall (fun x => has_char "010" x = false) (pre ++ E :: post)).
  { destruct (update_lines_cases fn (n :: ns) lines)
      as [(pre & x & post & Hlines & Hp & _ & ->)|(Hp & ->)].
    - exists pre, post. split; [reflexivity|]. split; [exact Hp|].
      rewrite Hlines in Hl. apply Forall_app in Hl as [Hl1 Hl2].
      apply Forall_cons_iff in Hl2 as [_ Hl2].
      apply Forall_app. split; [exact Hl1|constructor; assumption].
    - eexists _, []. split; [reflexivity|].
      destruct (_ && _).
      + split; [apply Forall_app; split; [exact Hp|constructor; [apply matchesPattern_empty|constructor]]|].
        apply Forall_app. split; [apply Forall_app; split; [exact Hl|constructor; [reflexivity|constructor]]|].
        constructor; [exact HEn|constructor].
      + split; [exact Hp|]. apply Forall_app. split; [exact Hl|constructor; [exact HEn|constructor]]. }
  destruct G as (pre & post & HX & Hp & Hf).
  fold lines. rewrite HX. destruct (render_fixed _ _ _ _ Hp Hf HE) as [R2 Hr].
  unfold update_lines at 1. cbv zeta. fold E. rewrite R2. rewrite Hr. reflexivity.
Qed.

End ConfigFacts.

Module ConfigClaims.
Import Config ConfigFacts ConfigExamples.

(** ** C9 *)

(** C9: [Write] rejects every configuration whose name does not match
    [^[a-zA-Z0-9_-]+/[a-zA-Z0-9_-]+$] with an error and returns the file
    system unchanged, in dry-run mode or not (no configuration file, no
    CODEOWNERS update); the spec's four names are rejected by the pattern,
    and an [org/repo] name is accepted. *)
Theorem Write_rejects_invalid_name ms q w cfg dryRun fs :
  (repoNamePattern_match (Name cfg) = false ->
   exists e, Write ms q w cfg dryRun fs = (Some e, fs)) /\
  map repoNamePattern_match ["../etc/passwd"; "org/repo/extra"; "no-slash"; ""]
    = [false; false; false; false] /\
  repoNamePattern_match "konflux-ci/coverage_dashboard" = true.
Proof.
  split; [|split; reflexivity].
  intros H. unfold Write.
  destruct (TrimSpace (Name cfg) =? ""); [eexists; reflexivity|].
  rewrite H. eexists. reflexivity.
Qed.

Lemma Write_rejects_invalid_name_witness :
  repoNamePattern_match (Name (cfg_of "org/repo/extra" ["@a"])) = false /\
  exists e, write0 (cfg_of "org/repo/extra" ["@a"]) tab_codeowners
            = (Some e, tab_codeowners).
Proof.
  split; [reflexivity|].
  destruct (Write_rejects_invalid_name marshal_name quote_q writer0
              (cfg_of "org/repo/extra" ["@a"]) false tab_codeowners) as [H _].
  exact (H eq_refl).
Defined.

(** ** C10 *)

(** C10 (as stated): two counterexamples.  With an owner ["a\nb"] the
    second write of the same configuration appends a second ["b"] line to
    CODEOWNERS; and a line ["/repos/x.yaml\t@old"], whose first white-space
    delimited token is [/repos/x.yaml], is not replaced: a second entry for
    [x.yaml] is appended. *)
Lemma Write_codeowners_cex :
  let cfg := cfg_of "org/x" ["a" ++ String "010" "b"] in
  let fs1 := snd (write0 cfg empty_fs) in
  fst (write0 cfg empty_fs) = None /\ fst (write0 cfg fs1) = None /\
  lookup fs1 (path_key "/CODEOWNERS") = LFile ("/repos/x.yaml @a" ++ nl ++ "b" ++ nl) /\
  lookup (snd (write0 cfg fs1)) (path_key "/CODEOWNERS")
    = LFile ("/repos/x.yaml @a" ++ nl ++ "b" ++ nl ++ "b" ++ nl) /\
  fst (write0 (cfg_of "org/x" ["@new"]) tab_codeowners) = None /\
  lookup (snd (write0 (cfg_of "org/x" ["@new"]) tab_codeowners)) (path_key "/CODEOWNERS")
    = LFile ("/repos/x.yaml" ++ String "009" ("@old" ++ nl ++ nl ++ "/repos/x.yaml @new" ++ nl)).
Proof. vm_compute. repeat split. Qed.

End ConfigClaims.

(** * Properties of the file-system model *)

Module FSFacts.
Import Config ConfigFacts.
Local Open Scope list_scope.

(** [fs'] has every entry of [fs], and maybe new directories. *)
Definition grows (fs fs' : FS) : Prop :=
  forall k, lookup fs' k = lookup fs k \/ (lookup fs k = LNotFound /\ lookup fs' k = LDir).

(** [fs'] is [fs] with the file [d] at [k]: a new file hides the missing
    paths below it. *)
Definition writes (k : key) (d : string) (fs fs' : FS) : Prop :=
  lookup fs' k = LFile d /\
  forall k', k' <> k -> lookup fs' k' = lookup fs k' \/
    (lookup fs k = LNotFound /\ lookup fs k' = LNotFound /\ lookup fs' k' = LNotDir).

(** [k'] is [k] or lies below it. *)
Definition prefixed (k k' : key) : Prop := exists rest, k' = (fst k, snd k ++ rest).

(** ** Resolution *)

Lemma walk_app m r pre l1 l2 :
  walk m r pre (l1 ++ l2) =
  match walk m r pre l1 with
  | LDir => walk m r (pre ++ l1) l2
  | LFile d => match l2 with [] => LFile d | _ :: _ => LNotDir end
  | o => o
  end.
Proof.
  revert pre. induction l1 as [|e l1 IH]; intros pre.
  - cbn [walk app]. rewrite app_nil_r. reflexivity.
  - cbn [walk app]. destruct (e =? "..")%string.
    + rewrite IH, <- app_assoc. reflexivity.
    + destruct (m (r, pre ++ [e])) as [[d|]|].
      * destruct l1; [destruct l2|]; reflexivity.
      * rewrite IH, <- app_assoc. reflexivity.
      * reflexivity.
Qed.

Lemma walk_ext m1 m2 r l : forall pre,
  (forall n, 0 < n <= List.length l -> m1 (r, pre ++ firstn n l) = m2 (r, pre ++ firstn n l)) ->
  walk m1 r pre l = walk m2 r pre l.
Proof.
  induction l as [|e l IH]; intros pre H; [reflexivity|].
  cbn [walk]. assert (H1 := H 1 ltac:(cbn; lia)). cbn [firstn] in H1. rewrite H1.
  assert (IH' : walk m1 r (pre ++ [e]) l = walk m2 r (pre ++ [e]) l).
  { apply IH. intros n Hn. rewrite <- app_assoc. apply (H (S n)). cbn; lia. }
  rewrite IH'. reflexivity.
Qed.

Lemma walk_file m r pre l d : walk m r pre l = LFile d -> m (r, pre ++ l) = Some (File d).
Proof.
  revert pre. induction l as [|e l IH]; intros pre H; cbn [walk] in H; [discriminate|].
  destruct (e =? "..")%string.
  - apply IH in H. rewrite <- app_assoc in H. exact H.
  - destruct (m (r, pre ++ [e])) as [[x|]|] eqn:M.
    + destruct l; [injection H as <-; exact M|discriminate].
    + apply IH in H. rewrite <- app_assoc in H. exact H.
    + discriminate.
Qed.

Lemma walk_none m r l : forall pre,
  (forall n, 0 < n <= List.length l -> m (r, pre ++ firstn n l) = None) ->
  walk m r pre l = LDir \/ walk m r pre l = LNotFound.
Proof.
  induction l as [|e l IH]; intros pre H; [left; reflexivity|].
  cbn [walk]. destruct (e =? "..")%string.
  - apply IH. intros n Hn. rewrite <- app_assoc. apply (H (S n)). cbn; lia.
  - assert (H1 := H 1 ltac:(cbn; lia)). cbn [firstn] in H1. rewrite H1. right; reflexivity.
Qed.

Lemma lookup_nil fs r : lookup fs (r, []) = LDir.
Proof. reflexivity. Qed.

Lemma lookup_child fs r init x :
  lookup fs (r, init ++ [x]) =
  match lookup fs (r, init) with
  | LDir =>
      if (x =? "..")%string then LDir
      else match node fs (r, init ++ [x]) with
           | None => LNotFound
           | Some Dir => LDir
           | Some (File d) => LFile d
           end
  | LFile _ => LNotDir
  | o => o
  end.
Proof.
  unfold lookup. cbn [fst snd]. rewrite walk_app.
  destruct (walk _ _ _ init); reflexivity.
Qed.

Lemma lookup_below fs r kl y rest :
  lookup fs (r, kl ++ y :: rest) =
  match lookup fs (r, kl) with
  | LDir => walk (node fs) r kl (y :: rest)
  | LFile _ => LNotDir
  | o => o
  end.
Proof.
  unfold lookup. cbn [fst snd]. rewrite walk_app.
  destruct (walk _ _ _ kl); reflexivity.
Qed.

Lemma lookup_file_node fs k d : lookup fs k = LFile d -> node fs k = Some (File d).
Proof. destruct k as [r l]. apply walk_file. Qed.

Lemma lookup_file_parent fs k d : lookup fs k = LFile d -> lookup fs (parent_key k) = LDir.
Proof.
  destruct k as [r kl]. destruct kl as [|y ys] using rev_ind; [discriminate|].
  intros H. unfold parent_key. cbn [fst snd]. rewrite removelast_last.
  rewrite lookup_child in H. destruct (lookup fs (r, ys)); congruence.
Qed.

Lemma prefixed_dec k k' : prefixed k k' \/ ~ prefixed k k'.
Proof.
  destruct k as [r kl], k' as [r' l'].
  destruct (Bool.bool_dec r' r) as [<-|D]; [|right; intros [rest E]; injection E; congruence].
  destruct (list_eq_dec string_dec (firstn (List.length kl) l') kl) as [E|D].
  - left. exists (skipn (List.length kl) l'). cbn [fst snd].
    rewrite <- E at 1. rewrite firstn_skipn. reflexivity.
  - right. intros [rest Ee]. injection Ee as Ee. apply D. subst l'.
    rewrite firstn_app, Nat.sub_diag, firstn_O, app_nil_r, firstn_all. reflexivity.
Qed.

Lemma not_prefixed_shorter k r l : List.length l < List.length (snd k) -> ~ prefixed k (r, l).
Proof. intros H [rest E]. injection E as _ E. rewrite E, length_app in H. lia. Qed.

(** Only the entries at and below [k] decide the paths at and below [k]. *)
Lemma lookup_frame fs fs' k k' :
  (forall j, ~ prefixed k j -> node fs' j = node fs j) ->
  ~ prefixed k k' -> lookup fs' k' = lookup fs k'.
Proof.
  intros H Hk. destruct k' as [r l]. unfold lookup; cbn [fst snd].
  apply walk_ext. intros n Hn. cbn [app]. apply H. intros [rest Hr].
  apply Hk. exists (rest ++ skipn n l).
  injection Hr as Hr1 Hr2. rewrite <- Hr1. f_equal.
  rewrite app_assoc, <- Hr2, firstn_skipn. reflexivity.
Qed.

Lemma is_prefix_app l1 l2 : is_prefix l1 (l1 ++ l2) = true.
Proof. induction l1 as [|x l1 IH]; [reflexivity|]. cbn. rewrite String.eqb_refl. exact IH. Qed.

Lemma is_prefix_spec l1 l2 : is_prefix l1 l2 = true -> exists rest, l2 = l1 ++ rest.
Proof.
  revert l2. induction l1 as [|x l1 IH]; intros l2 H; [exists l2; reflexivity|].
  destruct l2 as [|y l2]; [discriminate|]. cbn in H.
  apply andb_true_iff in H as [Hxy H]. apply String.eqb_eq in Hxy as ->.
  destruct (IH _ H) as [rest ->]. exists rest. reflexivity.
Qed.

Lemma below_prefixed k j : below k j = true -> prefixed k j.
Proof.
  unfold below. intros H. apply andb_true_iff in H as [H _].
  apply andb_true_iff in H as [Hr Hp]. apply Bool.eqb_prop in Hr.
  destruct (is_prefix_spec _ _ Hp) as [rest E]. exists rest.
  destruct j as [rj lj]. cbn in *. rewrite Hr, E. reflexivity.
Qed.

Lemma grows_refl fs : grows fs fs.
Proof. intros k. left. reflexivity. Qed.

Lemma grows_trans fs1 fs2 fs3 : grows fs1 fs2 -> grows fs2 fs3 -> grows fs1 fs3.
Proof.
  intros H12 H23 k. destruct (H12 k) as [E1|[E1 E1']]; destruct (H23 k) as [E2|[E2 E2']].
  - left. congruence.
  - right. split; congruence.
  - right. split; congruence.
  - congruence.
Qed.

Lemma grows_dir fs fs' k : grows fs fs' -> lookup fs k = LDir -> lookup fs' k = LDir.
Proof. intros H E. destruct (H k) as [E'|[E' _]]; congruence. Qed.

Lemma grows_file fs fs' k d : grows fs fs' -> lookup fs' k = LFile d -> lookup fs k = LFile d.
Proof. intros H E. destruct (H k) as [E'|[_ E']]; congruence. Qed.

Lemma grows_notfound fs fs' k : grows fs fs' -> lookup fs' k = LNotFound -> lookup fs k = LNotFound.
Proof. intros H E. destruct (H k) as [E'|[_ E']]; congruence. Qed.

(** ** Creating a file and making a directory *)

Lemma kl_last (kl : list string) : kl <> [] -> exists init x, kl = init ++ [x].
Proof.
  intros H. destruct kl as [|y ys] using rev_ind; [contradiction H; reflexivity|].
  exists ys, y. reflexivity.
Qed.

Lemma set_file_writes fs k d :
  lookup fs (parent_key k) = LDir ->
  (lookup fs k = LNotFound \/ exists x, lookup fs k = LFile x) ->
  writes k d fs (set_node fs k (File d)).
Proof.
  intros Hp Hk. destruct k as [r kl].
  destruct (kl_last kl) as (init & x & ->).
  { intros ->. rewrite lookup_nil in Hk. destruct Hk as [Hk|[? Hk]]; discriminate. }
  unfold parent_key in Hp. cbn [fst snd] in Hp. rewrite removelast_last in Hp.
  assert (Hx : (x =? "..")%string = false).
  { destruct (x =? "..")%string eqn:X; [|reflexivity].
    rewrite lookup_child, Hp, X in Hk. destruct Hk as [Hk|[? Hk]]; discriminate. }
  set (fs' := set_node fs (r, init ++ [x]) (File d)).
  assert (Hnode : forall j, ~ prefixed (r, init ++ [x]) j -> node fs' j = node fs j).
  { intros j Hj. cbn [fs' node set_node].
    destruct (key_eq_dec j (r, init ++ [x])) as [->|]; [|reflexivity].
    exfalso. apply Hj. exists []. rewrite app_nil_r. reflexivity. }
  assert (Hpar : lookup fs' (r, init) = LDir).
  { rewrite (lookup_frame fs fs' (r, init ++ [x])); [exact Hp|exact Hnode|].
    apply not_prefixed_shorter. cbn [snd]. rewrite length_app. cbn. lia. }
  assert (Hk' : lookup fs' (r, init ++ [x]) = LFile d).
  { rewrite lookup_child, Hpar, Hx. cbn [fs' node set_node].
    destruct (key_eq_dec _ _) as [_|D]; [reflexivity|contradiction D; reflexivity]. }
  split; [exact Hk'|].
  intros k' Hne. destruct (prefixed_dec (r, init ++ [x]) k') as [[rest ->]|Hn].
  - cbn [fst snd] in *. destruct rest as [|y rest].
    { rewrite app_nil_r in Hne. contradiction Hne; reflexivity. }
    rewrite (lookup_below fs' r (init ++ [x]) y rest), (lookup_below fs r (init ++ [x]) y rest), Hk'.
    destruct Hk as [Hk|[x0 Hk]]; rewrite Hk; [right; repeat split|left; reflexivity].
  - left. apply lookup_frame with (k := (r, init ++ [x])); assumption.
Qed.

Lemma make_dir_grows fs k :
  lookup fs (parent_key k) = LDir -> lookup fs k = LNotFound ->
  grows fs (make_dir fs k) /\ lookup (make_dir fs k) k = LDir.
Proof.
  intros Hp Hk. destruct k as [r kl].
  destruct (kl_last kl) as (init & x & ->).
  { intros ->. rewrite lookup_nil in Hk. discriminate. }
  unfold parent_key in Hp. cbn [fst snd] in Hp. rewrite removelast_last in Hp.
  assert (Hx : (x =? "..")%string = false).
  { destruct (x =? "..")%string eqn:X; [|reflexivity].
    rewrite lookup_child, Hp, X in Hk. discriminate. }
  set (fs' := make_dir fs (r, init ++ [x])).
  assert (Hnode : forall j, ~ prefixed (r, init ++ [x]) j -> node fs' j = node fs j).
  { intros j Hj. cbn [fs' node make_dir].
    destruct (key_eq_dec j (r, init ++ [x])) as [->|].
    - exfalso. apply Hj. exists []. rewrite app_nil_r. reflexivity.
    - destruct (below (r, init ++ [x]) j) eqn:B; [|reflexivity].
      exfalso. apply Hj. apply below_prefixed. exact B. }
  assert (Hpar : lookup fs' (r, init) = LDir).
  { rewrite (lookup_frame fs fs' (r, init ++ [x])); [exact Hp|exact Hnode|].
    apply not_prefixed_shorter. cbn [snd]. rewrite length_app. cbn. lia. }
  assert (Hk' : lookup fs' (r, init ++ [x]) = LDir).
  { rewrite lookup_child, Hpar, Hx. cbn [fs' node make_dir].
    destruct (key_eq_dec _ _) as [_|D]; [reflexivity|contradiction D; reflexivity]. }
  split; [|exact Hk'].
  intros k'. destruct (prefixed_dec (r, init ++ [x]) k') as [[rest ->]|Hn].
  - cbn [fst snd] in *. destruct rest as [|y rest].
    { rewrite app_nil_r. right. split; [exact Hk|exact Hk']. }
    rewrite (lookup_below fs' r (init ++ [x]) y rest), (lookup_below fs r (init ++ [x]) y rest), Hk, Hk'.
    destruct (walk_none (node fs') r (y :: rest) (init ++ [x])) as [E|E].
    + intros n Hn. cbn [fs' node make_dir].
      destruct (key_eq_dec _ _) as [E|_].
      { injection E as E. apply (f_equal (@List.length string)) in E.
        rewrite length_app in E. destruct n; [lia|]. cbn in E.
        rewrite length_firstn in E. cbn in E. lia. }
      assert (B : below (r, init ++ [x]) (r, (init ++ [x]) ++ firstn n (y :: rest)) = true).
      { unfold below. cbn [fst snd]. rewrite Bool.eqb_reflx, is_prefix_app. cbn [andb].
        apply Nat.ltb_lt. destruct n; [lia|]. rewrite !length_app. cbn. lia. }
      rewrite B. reflexivity.
    + rewrite E. right. split; reflexivity.
    + rewrite E. left. reflexivity.
  - left. apply lookup_frame with (k := (r, init ++ [x])); assumption.
Qed.

Lemma parent_error_none fs k : parent_error fs k = None -> lookup fs (parent_key k) = LDir.
Proof. unfold parent_error. destruct (lookup fs (parent_key k)); congruence. Qed.

Lemma Mkdir_spec p fs :
  grows fs (snd (Mkdir p fs)) /\ fault (snd (Mkdir p fs)) = fault fs /\
  (fst (Mkdir p fs) = None -> stat p (snd (Mkdir p fs)) = LDir).
Proof.
  unfold Mkdir, stat. destruct (p =? "")%string eqn:E.
  { cbn. split; [apply grows_refl|split; [reflexivity|discriminate]]. }
  destruct (lookup fs (path_key p)) eqn:L;
    try (cbn; split; [apply grows_refl|split; [reflexivity|discriminate]]).
  destruct (parent_error fs (path_key p)) eqn:P;
    [cbn; split; [apply grows_refl|split; [reflexivity|discriminate]]|].
  destruct (fault fs (path_key p)) eqn:F;
    [cbn; split; [apply grows_refl|split; [reflexivity|discriminate]]|].
  destruct (make_dir_grows fs (path_key p) (parent_error_none _ _ P) L) as [G D].
  cbn [fst snd]. split; [exact G|split; [reflexivity|intros _; exact D]].
Qed.

Lemma MkdirAll_tail p fs fs1 (r1 : option PathError) :
  grows fs fs1 -> fault fs1 = fault fs ->
  let res := match r1 with
             | Some e => (Some e, fs1)
             | None =>
                 match Mkdir p fs1 with
                 | (None, fs2) => (None, fs2)
                 | (Some e, fs2) =>
                     match stat p fs2 with
                     | LDir => (None, fs2)
                     | _ => (Some e, fs2)
                     end
                 end
             end in
  grows fs (snd res) /\ fault (snd res) = fault fs /\ (fst res = None -> stat p (snd res) = LDir).
Proof.
  intros G1 F1 res. subst res. destruct r1 as [e|].
  { cbn. split; [exact G1|split; [exact F1|discriminate]]. }
  pose proof (Mkdir_spec p fs1) as [G2 [F2 D2]].
  destruct (Mkdir p fs1) as [[e|] fs2]; cbn [fst snd] in *.
  - destruct (stat p fs2) eqn:S2; cbn [fst snd];
      (split; [apply (grows_trans _ _ _ G1 G2)|split; [congruence|]]);
      try discriminate. intros _; exact S2.
  - split; [apply (grows_trans _ _ _ G1 G2)|split; [congruence|]].
    intros _. apply D2. reflexivity.
Qed.

Lemma MkdirAll_fuel_spec fuel : forall p fs,
  grows fs (snd (MkdirAll_fuel fuel p fs)) /\ fault (snd (MkdirAll_fuel fuel p fs)) = fault fs /\
  (fst (MkdirAll_fuel fuel p fs) = None -> stat p (snd (MkdirAll_fuel fuel p fs)) = LDir).
Proof.
  induction fuel as [|fuel IH]; intros p fs; cbn [MkdirAll_fuel];
  destruct (stat p fs) eqn:S;
  try (cbn; split; [apply grows_refl|split; [reflexivity|first [discriminate|intros _; exact S]]]);
  (match goal with
   | |- context [if ?b then ?t else ?e] => destruct (if b then t else e) as [r1 fs1] eqn:R1;
       assert (H1 : grows fs fs1 /\ fault fs1 = fault fs);
       [destruct b;
        [first [injection R1 as <- <-; split; [apply grows_refl|reflexivity]
               |pose proof (IH (before_last_slash (strip_trailing_slashes p)) fs) as [G [F _]];
                rewrite R1 in G, F; split; assumption]
        |injection R1 as <- <-; split; [apply grows_refl|reflexivity]]
       |]
   end);
  destruct H1 as [G1 F1]; exact (MkdirAll_tail p fs fs1 r1 G1 F1).
Qed.

Lemma MkdirAll_spec p fs :
  grows fs (snd (MkdirAll p fs)) /\ fault (snd (MkdirAll p fs)) = fault fs /\
  (fst (MkdirAll p fs) = None -> stat p (snd (MkdirAll p fs)) = LDir).
Proof. apply MkdirAll_fuel_spec. Qed.

Lemma MkdirAll_dir p fs : stat p fs = LDir -> MkdirAll p fs = (None, fs).
Proof. intros S. unfold MkdirAll. destruct (String.length p); cbn [MkdirAll_fuel]; rewrite S; reflexivity. Qed.

Lemma open_create_ok name fs : open_create name fs = None ->
  name <> "" /\ dir_syntax name = false /\ fault fs (path_key name) = None /\
  lookup fs (parent_key (path_key name)) = LDir /\
  (lookup fs (path_key name) = LNotFound \/ exists x, lookup fs (path_key name) = LFile x).
Proof.
  unfold open_create, stat. destruct (name =? "")%string eqn:E; [discriminate|].
  apply String.eqb_neq in E.
  destruct (lookup fs (path_key name)) eqn:L; try discriminate.
  - destruct (dir_syntax name); [discriminate|].
    destruct (fault fs (path_key name)); [discriminate|]. intros _.
    repeat split; [exact E|eapply lookup_file_parent; exact L|right; eexists; reflexivity].
  - destruct (parent_error fs (path_key name)) eqn:P; [discriminate|].
    destruct (dir_syntax name); [discriminate|].
    destruct (fault fs (path_key name)); [discriminate|]. intros _.
    repeat split; [exact E|apply parent_error_none; exact P|left; reflexivity].
Qed.

Lemma open_create_file name fs x :
  name <> "" -> dir_syntax name = false -> fault fs (path_key name) = None ->
  lookup fs (path_key name) = LFile x -> open_create name fs = None.
Proof.
  intros E D F L. unfold open_create, stat.
  rewrite (proj2 (String.eqb_neq _ _) E), L, D, F. reflexivity.
Qed.


Lemma WriteFile_ok name d fs fs' : WriteFile name d fs = (None, fs') ->
  open_create name fs = None /\ writes (path_key name) d fs fs' /\ fault fs' = fault fs.
Proof.
  unfold WriteFile. destruct (open_create name fs) eqn:O; [discriminate|].
  intros H. injection H as <-. split; [reflexivity|split; [|reflexivity]].
  destruct (open_create_ok _ _ O) as (_ & _ & _ & P & L).
  apply set_file_writes; assumption.
Qed.

Lemma WriteFile_err name d fs e fs' : WriteFile name d fs = (Some e, fs') -> fs' = fs.
Proof. unfold WriteFile. destruct (open_create name fs); congruence. Qed.

Lemma AppendFile_ok name s fs fs' : AppendFile name s fs = (None, fs') ->
  open_create name fs = None /\
  writes (path_key name) (match lookup fs (path_key name) with LFile d => d | _ => "" end ++ s)%string
    fs fs' /\ fault fs' = fault fs.
Proof.
  unfold AppendFile. destruct (open_create name fs) eqn:O; [discriminate|].
  intros H. injection H as <-. split; [reflexivity|split; [|reflexivity]].
  destruct (open_create_ok _ _ O) as (E & _ & _ & P & L).
  unfold stat. rewrite (proj2 (String.eqb_neq _ _) E).
  apply set_file_writes; assumption.
Qed.

Lemma AppendFile_err name s fs e fs' : AppendFile name s fs = (Some e, fs') -> fs' = fs.
Proof. unfold AppendFile. destruct (open_create name fs); congruence. Qed.

Lemma ReadFile_ok name fs d : ReadFile name fs = ReadOk d ->
  name <> "" /\ lookup fs (path_key name) = LFile d.
Proof.
  unfold ReadFile, stat. destruct (name =? "")%string eqn:E; [discriminate|].
  apply String.eqb_neq in E.
  destruct (lookup fs (path_key name)) eqn:L; try discriminate.
  destruct (dir_syntax name); [discriminate|].
  destruct (fault fs (path_key name)); [discriminate|]. intros H. injection H as <-.
  split; [exact E|reflexivity].
Qed.

Lemma ReadFile_notexist name fs e : ReadFile name fs = ReadErr e -> IsNotExist e = true ->
  stat name fs = LNotFound.
Proof.
  unfold ReadFile. destruct (stat name fs) eqn:S; [|intros H; injection H as <-; discriminate
    |reflexivity|intros H; injection H as <-; discriminate].
  destruct (dir_syntax name); [intros H; injection H as <-; discriminate|].
  destruct (fault fs (path_key name)); [intros H; injection H as <-; discriminate|discriminate].
Qed.

Lemma ReadFile_file name fs d :
  name <> "" -> dir_syntax name = false -> fault fs (path_key name) = None ->
  lookup fs (path_key name) = LFile d -> ReadFile name fs = ReadOk d.
Proof.
  intros E D F L. unfold ReadFile, stat. rewrite (proj2 (String.eqb_neq _ _) E), L, D, F.
  reflexivity.
Qed.


(** ** [updateCodeowners] *)

Lemma updateCodeowners_ok w fn owners fs fs' :
  updateCodeowners w fn owners fs = (None, fs') ->
  exists cur c, codeowners_after fn owners cur = Ok c /\
    ((exists d, cur = Some d /\ ReadFile (codeownersFile w) fs = ReadOk d) \/
     (cur = None /\ stat (codeownersFile w) fs = LNotFound)) /\
    WriteFile (codeownersFile w) c fs = (None, fs').
Proof.
  unfold updateCodeowners, codeowners_after.
  destruct owners as [|o os]; [discriminate|].
  destruct (normalizeOwners (o :: os)) as [|n ns]; [discriminate|].
  destruct (ReadFile (codeownersFile w) fs) as [d|e] eqn:R.
  - rewrite writeCodeowners_render.
    destruct (WriteFile _ _ fs) as [[e|] fs2] eqn:W; [discriminate|]. intros H. injection H as <-.
    eexists (Some d), _. split; [reflexivity|]. split; [left; exists d; split; [reflexivity|first [exact R|reflexivity]]|exact W].
  - destruct (IsNotExist e) eqn:N; [|discriminate].
    rewrite writeCodeowners_render.
    destruct (WriteFile _ _ fs) as [[e'|] fs2] eqn:W; [discriminate|]. intros H. injection H as <-.
    eexists None, _. split; [reflexivity|]. split; [right; split; [reflexivity|]|exact W].
    exact (ReadFile_notexist _ _ _ R N).
Qed.

Lemma updateCodeowners_err w fn owners fs e fs' :
  updateCodeowners w fn owners fs = (Some e, fs') -> fs' = fs.
Proof.
  unfold updateCodeowners.
  destruct owners as [|o os]; [congruence|].
  destruct (normalizeOwners (o :: os)) as [|n ns]; [congruence|].
  destruct (ReadFile (codeownersFile w) fs) as [d|e0];
    [|destruct (IsNotExist e0); [|congruence]];
  rewrite writeCodeowners_render;
  destruct (WriteFile _ _ fs) as [[e1|] fs2] eqn:W; try discriminate;
  intros H; injection H as _ <-; exact (WriteFile_err _ _ _ _ _ W).
Qed.

End FSFacts.

(** * Further properties of the ownership code *)

Module ExtraOwnershipFacts.
Import Ownership Words OwnershipV1 OwnershipFacts OwnershipFacts2 OwnershipFacts3.

Lemma mem_In x l : mem x l = true <-> In x l.
Proof.
  unfold mem. rewrite existsb_exists. split.
  - intros (y & Hy & E). apply String.eqb_eq in E. subst. exact Hy.
  - intros H. exists x. split; [exact H | apply String.eqb_refl].
Qed.

Lemma NoDup_firstn_l {X} n (l : list X) : NoDup l -> NoDup (firstn n l).
Proof.
  revert l; induction n as [|n IH]; intros l H; [constructor|].
  destruct l as [|x l]; [constructor|]. simpl. inversion H; subst.
  constructor; [|apply IH; assumption].
  intros Hin. apply In_firstn_l in Hin. contradiction.
Qed.

Lemma dedup_seen_NoDup l : forall seen, NoDup (dedup_seen seen l) /\
  forall x, In x (dedup_seen seen l) -> mem x seen = false.
Proof.
  induction l as [|y l IH]; intros seen; simpl.
  - split; [constructor | intros x []].
  - destruct (mem y seen) eqn:Hm.
    + apply IH.
    + destruct (IH (y :: seen)) as [Hn Hs]. split.
      * constructor; [|exact Hn]. intros Hin. specialize (Hs y Hin).
        unfold mem in Hs. simpl in Hs. rewrite String.eqb_refl in Hs. discriminate Hs.
      * intros x [<-|Hin]; [exact Hm|]. specialize (Hs x Hin).
        unfold mem in Hs. simpl in Hs. apply orb_false_iff in Hs. exact (proj2 Hs).
Qed.

Lemma span_word_all s : forall w r, span_word s = (w, r) -> all_word w = true.
Proof.
  induction s as [|c s IH]; intros w r H; simpl in H.
  - inversion H; reflexivity.
  - destruct (is_word_char c) eqn:Hc.
    + destruct (span_word s) as [w' r'] eqn:E. inversion H; subst.
      simpl. rewrite Hc. exact (IH _ _ eq_refl).
    + inversion H; reflexivity.
Qed.

Lemma match_owner_at_handle s m r : match_owner_at s = Some (m, r) -> is_handle m.
Proof.
  destruct s as [|c s1]; [intros H; discriminate H|].
  unfold match_owner_at. destruct (Ascii.eqb c "@"%char); [|intros H; discriminate H].
  destruct (span_word s1) as [w1 r1] eqn:E1.
  destruct (w1 =? "") eqn:Hw1; [intros H; discriminate H|].
  apply String.eqb_neq in Hw1. pose proof (span_word_all _ _ _ E1) as A1.
  destruct r1 as [|c2 s2].
  - intros H; inversion H; subst.
    exists w1; split; [exact Hw1|split; [exact A1|left; reflexivity]].
  - destruct (Ascii.eqb c2 "/"%char).
    + destruct (span_word s2) as [w2 r2] eqn:E2.
      destruct (w2 =? "") eqn:Hw2; intros H; inversion H; subst.
      * exists w1; split; [exact Hw1|split; [exact A1|left; reflexivity]].
      * apply String.eqb_neq in Hw2.
        exists w1; split; [exact Hw1|split; [exact A1|right]].
        exists w2; split; [exact Hw2|split; [exact (span_word_all _ _ _ E2)|reflexivity]].
    + intros H; inversion H; subst.
      exists w1; split; [exact Hw1|split; [exact A1|left; reflexivity]].
Qed.

Lemma find_all_handles n : forall s, Forall is_handle (find_all_fuel n s).
Proof.
  induction n as [|n IH]; intros s; [constructor|].
  destruct s as [|c s']; [constructor|]. cbn [find_all_fuel].
  destruct (match_owner_at (String c s')) as [[m r]|] eqn:E; [|apply IH].
  constructor; [eapply match_owner_at_handle; exact E|apply IH].
Qed.

(** The old detector, strategy by strategy. *)

Lemma fetchFile1_snd web org repo p :
  snd (fetchFile1 web org repo p) = [Call1HTTPGet (raw_url org repo p)].
Proof. reflexivity. Qed.

Lemma teams1_snd d org repo : snd (detectFromTeams1 d org repo) = [Call1ListTeams org repo].
Proof. reflexivity. Qed.

Lemma collaborators1_snd d org repo :
  snd (detectFromCollaborators1 d org repo) = [Call1ListCollaborators org repo].
Proof. reflexivity. Qed.

Lemma codeowners1_fst web org repo :
  fst (detectFromCodeowners1 web org repo) =
  match fst (fetchFile1 web org repo ".github/CODEOWNERS") with
  | Ok c => Ok (extractOwnersFromCodeowners c)
  | Err _ =>
      match fst (fetchFile1 web org repo "CODEOWNERS") with
      | Ok c => Ok (extractOwnersFromCodeowners c)
      | Err _ => Err "CODEOWNERS not found"
      end
  end.
Proof.
  unfold detectFromCodeowners1.
  rewrite (surjective_pairing (fetchFile1 web org repo ".github/CODEOWNERS")).
  destruct (fst (fetchFile1 web org repo ".github/CODEOWNERS")); [reflexivity|].
  rewrite (surjective_pairing (fetchFile1 web org repo "CODEOWNERS")).
  destruct (fst (fetchFile1 web org repo "CODEOWNERS")); reflexivity.
Qed.

Lemma codeowners1_snd web org repo :
  snd (detectFromCodeowners1 web org repo) =
  Call1HTTPGet (raw_url org repo ".github/CODEOWNERS") ::
  match fst (fetchFile1 web org repo ".github/CODEOWNERS") with
  | Ok _ => []
  | Err _ => [Call1HTTPGet (raw_url org repo "CODEOWNERS")]
  end.
Proof.
  unfold detectFromCodeowners1.
  rewrite (surjective_pairing (fetchFile1 web org repo ".github/CODEOWNERS")), fetchFile1_snd.
  destruct (fst (fetchFile1 web org repo ".github/CODEOWNERS")); [reflexivity|].
  rewrite (surjective_pairing (fetchFile1 web org repo "CODEOWNERS")), fetchFile1_snd.
  destruct (fst (fetchFile1 web org repo "CODEOWNERS")); reflexivity.
Qed.

Lemma teams1_fst d org repo :
  fst (detectFromTeams1 d org repo) =
  match listTeams (client1 d) org repo with
  | Err e => Err e
  | Ok teams =>
      match firstn 3 (map (team_handle org) (filter team_elevated teams)) with
      | [] => Err "no teams with admin/maintain permissions found"
      | owners => Ok owners
      end
  end.
Proof.
  unfold detectFromTeams1. cbn [fst].
  destruct (listTeams (client1 d) org repo) as [teams|e]; [|reflexivity].
  rewrite teams_loop_firstn by (simpl; lia). reflexivity.
Qed.

Lemma collaborators1_fst d org repo :
  fst (detectFromCollaborators1 d org repo) =
  match listCollaborators (client1 d) org repo with
  | Err e => Err e
  | Ok cs =>
      match firstn 5 (map collab_handle (filter collab_elevated cs)) with
      | [] => Err "no collaborators with admin/maintain permissions found"
      | owners => Ok owners
      end
  end.
Proof.
  unfold detectFromCollaborators1. cbn [fst].
  destruct (listCollaborators (client1 d) org repo) as [cs|e]; [|reflexivity].
  rewrite collaborators_loop_firstn by (simpl; lia). reflexivity.
Qed.

Lemma DetectOwners1_fst d web org repo :
  fst (DetectOwners1 d web org repo) =
  (match fst (detectFromCodeowners1 web org repo) with
   | Ok ((_ :: _) as o) => o
   | _ =>
       match fst (detectFromTeams1 d org repo) with
       | Ok ((_ :: _) as o) => o
       | _ =>
           match fst (detectFromCollaborators1 d org repo) with
           | Ok ((_ :: _) as o) => o
           | _ => ["@konflux-ci/Vanguard"]
           end
       end
   end, None).
Proof.
  unfold DetectOwners1.
  destruct (detectFromCodeowners1 web org repo) as [r1 l1]. cbn [fst].
  destruct r1 as [[|o os]|e]; try reflexivity;
  (destruct (detectFromTeams1 d org repo) as [r2 l2]; cbn [fst];
   destruct r2 as [[|o2 os2]|e2]; try reflexivity;
   destruct (detectFromCollaborators1 d org repo) as [r3 l3]; cbn [fst];
   destruct r3 as [[|o3 os3]|e3]; reflexivity).
Qed.

Definition not_http (c : Call1) : Prop :=
  match c with Call1HTTPGet _ => False | _ => True end.

Lemma DetectOwners1_snd d web org repo : exists rest,
  snd (DetectOwners1 d web org repo) = (snd (detectFromCodeowners1 web org repo) ++ rest)%list /\
  Forall not_http rest.
Proof.
  unfold DetectOwners1.
  destruct (detectFromCodeowners1 web org repo) as [r1 l1]. cbn [snd].
  rewrite (surjective_pairing (detectFromTeams1 d org repo)), teams1_snd.
  rewrite (surjective_pairing (detectFromCollaborators1 d org repo)), collaborators1_snd.
  destruct r1 as [[|o os]|e];
    [| exists []; split; [rewrite app_nil_r; reflexivity|constructor] |];
  (destruct (fst (detectFromTeams1 d org repo)) as [[|o2 os2]|e2];
    [| exists [Call1ListTeams org repo]; split; [reflexivity|repeat constructor] |];
   destruct (fst (detectFromCollaborators1 d org repo)) as [[|o3 os3]|e3];
   exists [Call1ListTeams org repo; Call1ListCollaborators org repo];
   (split; [reflexivity|repeat constructor])).
Qed.

Lemma sapp_cancel (a b c : string) : a ++ b = a ++ c -> b = c.
Proof. induction a as [|x a IH]; simpl; intros H; [exact H|]. inversion H; auto. Qed.

Lemma raw_url_inj org repo p1 p2 : raw_url org repo p1 = raw_url org repo p2 -> p1 = p2.
Proof.
  unfold raw_url. intros H.
  do 5 apply sapp_cancel in H. exact H.
Qed.

Lemma DetectOwners1_props d web org repo :
  snd (fst (DetectOwners1 d web org repo)) = None /\
  (1 <= List.length (fst (fst (DetectOwners1 d web org repo))) <= 5)%nat /\
  Forall (fun h => marked h = true) (fst (fst (DetectOwners1 d web org repo))).
Proof.
  assert (B1 : forall o, fst (detectFromCodeowners1 web org repo) = Ok o ->
                 (List.length o <= 5)%nat /\ Forall (fun h => marked h = true) o).
  { intros o. rewrite codeowners1_fst.
    destruct (fst (fetchFile1 web org repo ".github/CODEOWNERS")) as [c|_];
      [|destruct (fst (fetchFile1 web org repo "CODEOWNERS")) as [c|_]; [|discriminate]];
      intros H; inversion H; subst; split; [apply extract_length|apply extract_marked
                                          |apply extract_length|apply extract_marked]. }
  assert (B2 : forall o, fst (detectFromTeams1 d org repo) = Ok o ->
                 (List.length o <= 3)%nat /\ Forall (fun h => marked h = true) o).
  { intros o. rewrite teams1_fst.
    destruct (listTeams (client1 d) org repo) as [ts|e]; [|discriminate].
    destruct (firstn 3 (map (team_handle org) (filter team_elevated ts))) as [|h t] eqn:E;
      [discriminate|].
    intros H; inversion H; subst. rewrite <- E. split; [apply firstn_le_length|].
    apply firstn_map_marked. intros x. apply marked_at. }
  assert (B3 : forall o, fst (detectFromCollaborators1 d org repo) = Ok o ->
                 (List.length o <= 5)%nat /\ Forall (fun h => marked h = true) o).
  { intros o. rewrite collaborators1_fst.
    destruct (listCollaborators (client1 d) org repo) as [cs|e]; [|discriminate].
    destruct (firstn 5 (map collab_handle (filter collab_elevated cs))) as [|h t] eqn:E;
      [discriminate|].
    intros H; inversion H; subst. rewrite <- E. split; [apply firstn_le_length|].
    apply firstn_map_marked. intros x. apply marked_at. }
  rewrite DetectOwners1_fst. cbn [fst snd]. split; [reflexivity|].
  destruct (fst (detectFromCodeowners1 web org repo)) as [[|o os]|e] eqn:E1;
    try (destruct (B1 _ eq_refl); simpl in *; split; [lia|assumption]);
  destruct (fst (detectFromTeams1 d org repo)) as [[|o2 os2]|e2] eqn:E2;
    try (destruct (B2 _ eq_refl); simpl in *; split; [lia|assumption]);
  destruct (fst (detectFromCollaborators1 d org repo)) as [[|o3 os3]|e3] eqn:E3;
    try (destruct (B3 _ eq_refl); simpl in *; split; [lia|assumption]);
  (split; [simpl; lia|repeat constructor]).
Qed.

End ExtraOwnershipFacts.

Module ExtraOwnership.
Import Ownership Words OwnershipV1 OwnershipFacts OwnershipFacts2 OwnershipFacts3
  ExtraOwnershipFacts.

(** X1: [extractOwnersFromCodeowners] returns at most five distinct
    strings, each a regexp match: ['@'] then a nonempty run of
    [[a-zA-Z0-9_-]], optionally followed by ['/'] and a second nonempty run. *)
Theorem extract_shape content :
  NoDup (extractOwnersFromCodeowners content) /\
  (List.length (extractOwnersFromCodeowners content) <= 5)%nat /\
  Forall is_handle (extractOwnersFromCodeowners content).
Proof.
  split; [|split; [apply extract_length|]]; rewrite extract_spec.
  - apply NoDup_firstn_l. apply dedup_seen_NoDup.
  - apply Forall_forall. intros x Hx.
    apply In_firstn_l, dedup_seen_incl in Hx.
    exact (proj1 (Forall_forall _ _) (find_all_handles _ _) x Hx).
Qed.

(** X2: when [detectFromCodeowners] fails, its error wraps only what
    happened at the last path, docs/CODEOWNERS: that file's fetch error, or
    "no valid owners found in docs/CODEOWNERS".  The errors of the other
    paths are dropped, and "no CODEOWNERS files found" is never returned. *)
Theorem detectFromCodeowners_error d org repo e :
  fst (detectFromCodeowners d org repo) = Err e ->
  exists e', e = "failed to detect owners from CODEOWNERS: " ++ e' /\
    (fst (fetchFile d org repo "docs/CODEOWNERS") = Err e' \/
     exists c, fst (fetchFile d org repo "docs/CODEOWNERS") = Ok c /\
               extractOwnersFromCodeowners c = [] /\
               e' = "no valid owners found in docs/CODEOWNERS").
Proof.
  unfold detectFromCodeowners, codeownersPaths.
  rewrite codeowners_loop_cons, fst_bind.
  destruct (fst (fetchFile d org repo ".github/CODEOWNERS")) as [c1|e1];
    [destruct (0 <? List.length (extractOwnersFromCodeowners c1))%nat;
       [intros H; discriminate H|]|];
  rewrite codeowners_loop_cons, fst_bind;
  (destruct (fst (fetchFile d org repo "CODEOWNERS")) as [c2|e2];
    [destruct (0 <? List.length (extractOwnersFromCodeowners c2))%nat;
       [intros H; discriminate H|]|]);
  rewrite codeowners_loop_cons, fst_bind;
  (destruct (fst (fetchFile d org repo "docs/CODEOWNERS")) as [c3|e3] eqn:E3;
    [destruct (0 <? List.length (extractOwnersFromCodeowners c3))%nat eqn:L3;
       [intros H; discriminate H|]|]);
  cbn [codeowners_loop ret fst]; intros H; inversion H; subst;
  eexists; (split; [reflexivity|]);
  first [left; reflexivity
        | right; exists c3; split; [reflexivity|split; [|reflexivity]];
          destruct (extractOwnersFromCodeowners c3); [reflexivity|discriminate L3]].
Qed.

(** X3: the detector of [internal/ownership/detector.go], the one the
    discovery runner uses, returns a nil error and one to five owners, each
    starting with ['@'], whatever the HTTP fetches and the API return.  When
    none of its three strategies yields an owner, it returns exactly
    ["@konflux-ci/Vanguard"]. *)
Theorem DetectOwners1_total d web org repo :
  snd (fst (DetectOwners1 d web org repo)) = None /\
  (1 <= List.length (fst (fst (DetectOwners1 d web org repo))) <= 5)%nat /\
  Forall (fun h => marked h = true) (fst (fst (DetectOwners1 d web org repo))) /\
  ((forall o, fst (detectFromCodeowners1 web org repo) = Ok o -> o = []) ->
   (forall o, fst (detectFromTeams1 d org repo) = Ok o -> o = []) ->
   (forall o, fst (detectFromCollaborators1 d org repo) = Ok o -> o = []) ->
   fst (fst (DetectOwners1 d web org repo)) = ["@konflux-ci/Vanguard"]).
Proof.
  destruct (DetectOwners1_props d web org repo) as (H1 & H2 & H3).
  split; [exact H1|]. split; [exact H2|]. split; [exact H3|].
  intros C1 C2 C3. rewrite DetectOwners1_fst. cbn [fst].
  destruct (fst (detectFromCodeowners1 web org repo)) as [[|o os]|e];
    [|discriminate (C1 _ eq_refl)|];
  (destruct (fst (detectFromTeams1 d org repo)) as [[|o2 os2]|e2];
    [|discriminate (C2 _ eq_refl)|]);
  (destruct (fst (detectFromCollaborators1 d org repo)) as [[|o3 os3]|e3];
    [|discriminate (C3 _ eq_refl)|]); reflexivity.
Qed.

(** X4: the old detector requests the root CODEOWNERS file exactly when
    the .github/CODEOWNERS fetch failed.  A .github/CODEOWNERS file that is
    fetched but names no owner does not lead to the root file. *)
Theorem DetectOwners1_root_fetch d web org repo :
  In (Call1HTTPGet (raw_url org repo "CODEOWNERS")) (snd (DetectOwners1 d web org repo)) <->
  exists e, fst (fetchFile1 web org repo ".github/CODEOWNERS") = Err e.
Proof.
  destruct (DetectOwners1_snd d web org repo) as (rest & -> & Hrest).
  rewrite codeowners1_snd. split.
  - intros [H|H].
    + assert (E : raw_url org repo ".github/CODEOWNERS" = raw_url org repo "CODEOWNERS")
        by congruence.
      apply raw_url_inj in E. discriminate E.
    + apply in_app_or in H. destruct H as [H|H].
      * destruct (fst (fetchFile1 web org repo ".github/CODEOWNERS")) as [c|e];
          [destruct H as []|exists e; reflexivity].
      * exact (False_ind _ (proj1 (Forall_forall _ _) Hrest _ H)).
  - intros (e & He). rewrite He. right. apply in_or_app. left. left. reflexivity.
Qed.

End ExtraOwnership.

(** * Further properties of the configuration writer *)

Module ExtraConfigFacts.
Import Ownership Config Words ConfigV2 Discover OwnershipFacts3 ConfigFacts
  ExtraOwnershipFacts.

(** ** Characters and white space *)

Lemma word_char_props c : is_word_char c = true ->
  is_space_ascii c = false /\ (nat_of_ascii c <? 194)%nat = true /\ Ascii.eqb c "/" = false.
Proof.
  destruct c as [[] [] [] [] [] [] [] []]; intros H;
    first [discriminate H | split; [reflexivity|split; reflexivity]].
Qed.

Lemma TrimSpace_head c t : is_space_ascii c = false -> (nat_of_ascii c <? 194)%nat = true ->
  exists r, TrimSpace (String c t) = String c r.
Proof.
  intros Hsp Hlt. apply Nat.ltb_lt in Hlt.
  assert (S2 : forall c2, space2 c c2 = false).
  { intros c2. unfold space2.
    replace (nat_of_ascii c =? 194)%nat with false by (symmetry; apply Nat.eqb_neq; lia).
    reflexivity. }
  assert (S3 : forall c2 c3, space3 c c2 c3 = false).
  { intros c2 c3. unfold space3.
    replace (nat_of_ascii c =? 225)%nat with false by (symmetry; apply Nat.eqb_neq; lia).
    replace (nat_of_ascii c =? 226)%nat with false by (symmetry; apply Nat.eqb_neq; lia).
    replace (nat_of_ascii c =? 227)%nat with false by (symmetry; apply Nat.eqb_neq; lia).
    reflexivity. }
  assert (L : trim_left (String c t) = String c t).
  { destruct t as [|c2 [|c3 t3]]; cbn [trim_left]; rewrite Hsp; try reflexivity.
    - rewrite S2. reflexivity.
    - rewrite S2, S3. reflexivity. }
  assert (A : all_spaces (String c t) = false).
  { destruct t as [|c2 [|c3 t3]]; cbn [all_spaces]; rewrite Hsp; try reflexivity.
    - rewrite S2. reflexivity.
    - rewrite S2, S3. reflexivity. }
  exists (trim_right t). unfold TrimSpace. rewrite L. cbn [trim_right]. rewrite A. reflexivity.
Qed.

Lemma TrimSpace_at t : TrimSpace (String "@" t) <> "".
Proof.
  destruct (TrimSpace_head "@" t eq_refl eq_refl) as [r ->]. intros H; discriminate H.
Qed.

(** ** Repository names *)

Lemma span_word_all_eq b : all_word b = true -> span_word b = (b, "").
Proof.
  induction b as [|c b IH]; simpl; [reflexivity|].
  intros H. apply andb_true_iff in H as [Hc Hb]. rewrite Hc, IH by exact Hb. reflexivity.
Qed.

Lemma span_word_app_slash a r : all_word a = true -> span_word (a ++ String "/" r) = (a, String "/" r).
Proof.
  induction a as [|c a IH]; simpl; [reflexivity|].
  intros H. apply andb_true_iff in H as [Hc Ha]. rewrite Hc, IH by exact Ha. reflexivity.
Qed.

Lemma all_word_no_slash a : all_word a = true -> has_char "/" a = false.
Proof.
  induction a as [|c a IH]; simpl; [reflexivity|].
  intros H. apply andb_true_iff in H as [Hc Ha].
  rewrite (proj2 (proj2 (word_char_props c Hc))), IH by exact Ha. reflexivity.
Qed.

Lemma repoNamePattern_iff s : repoNamePattern_match s = true <->
  exists a b, a <> "" /\ b <> "" /\ all_word a = true /\ all_word b = true /\
              s = a ++ String "/" b.
Proof.
  split.
  - unfold repoNamePattern_match.
    destruct (span_word s) as [w1 r1] eqn:E1.
    destruct (span_word_spec _ _ _ E1) as [Hs _].
    destruct (w1 =? "") eqn:Hw1; [intros H; discriminate H|]. cbn [negb andb].
    destruct r1 as [|c r2]; [intros H; discriminate H|].
    destruct (Ascii.eqb c "/") eqn:Hc; [|intros H; discriminate H]. cbn [andb].
    apply Ascii.eqb_eq in Hc. subst c.
    destruct (span_word r2) as [w2 r3] eqn:E2.
    destruct (span_word_spec _ _ _ E2) as [Hr2 _].
    destruct (w2 =? "") eqn:Hw2; [intros H; discriminate H|]. cbn [negb andb].
    intros H3. apply String.eqb_eq in H3. subst r3. rewrite sapp_nil in Hr2. subst r2.
    exists w1, w2. apply String.eqb_neq in Hw1, Hw2.
    repeat split; try assumption;
      [exact (span_word_all _ _ _ E1)|exact (span_word_all _ _ _ E2)].
  - intros (a & b & Ha & Hb & Wa & Wb & ->).
    unfold repoNamePattern_match. rewrite span_word_app_slash by exact Wa.
    rewrite (proj2 (String.eqb_neq a "") Ha). cbn [negb andb Ascii.eqb Bool.eqb].
    rewrite span_word_all_eq by exact Wb.
    rewrite (proj2 (String.eqb_neq b "") Hb). reflexivity.
Qed.

Lemma getFilename_words a b : all_word a = true -> all_word b = true ->
  getFilename (a ++ String "/" b) = b ++ ".yaml".
Proof.
  intros Wa Wb. unfold getFilename.
  rewrite split_app_sep by (apply all_word_no_slash; exact Wa).
  rewrite split_nosep by (apply all_word_no_slash; exact Wb). reflexivity.
Qed.

Lemma pattern_nonblank s : repoNamePattern_match s = true -> TrimSpace s <> "".
Proof.
  intros H. apply repoNamePattern_iff in H as (a & b & Ha & _ & Wa & _ & ->).
  destruct a as [|c a]; [contradiction|]. simpl in Wa. apply andb_true_iff in Wa as [Hc _].
  destruct (word_char_props c Hc) as (Hs & Hl & _).
  cbn [append]. destruct (TrimSpace_head c (a ++ String "/" b) Hs Hl) as [r ->].
  intros E; discriminate E.
Qed.

(** ** [normalizeOwners] *)

Lemma NoDup_snoc {X} (l : list X) x : NoDup l -> ~ In x l -> NoDup (l ++ [x]).
Proof.
  induction l as [|y l IH]; intros Hn Hx; simpl; [constructor; [intros []|constructor]|].
  inversion Hn; subst. constructor.
  - intros Hin. apply in_app_or in Hin as [Hin|[<-|[]]]; [contradiction|].
    apply Hx. left. reflexivity.
  - apply IH; [assumption|]. intros Hin. apply Hx. right. exact Hin.
Qed.

Lemma normalize_loop_gen owners : forall seen result,
  (forall x, In x seen <-> In x result) -> NoDup result ->
  NoDup (normalize_loop owners seen result) /\
  (forall x, In x (normalize_loop owners seen result) <->
     In x result \/ exists o, In o owners /\ TrimSpace o <> "" /\ x = normalize_one o).
Proof.
  induction owners as [|o rest IH]; intros seen result Hs Hn.
  - split; [exact Hn|]. intros x. split; [intros H; left; exact H|].
    intros [H|(o & [] & _)]. exact H.
  - cbn [normalize_loop].
    destruct (TrimSpace o =? "") eqn:T.
    + apply String.eqb_eq in T.
      destruct (IH seen result Hs Hn) as [N M]. split; [exact N|]. intros x.
      rewrite M. split.
      * intros [H|(o' & Ho' & Ht & ->)]; [left; exact H|right; exists o'].
        split; [right; exact Ho'|split; [exact Ht|reflexivity]].
      * intros [H|(o' & [<-|Ho'] & Ht & ->)]; [left; exact H|contradiction|].
        right. exists o'. split; [exact Ho'|split; [exact Ht|reflexivity]].
    + apply String.eqb_neq in T.
      change (if HasPrefix (TrimSpace o) "@" then TrimSpace o else "@" ++ TrimSpace o)
        with (normalize_one o).
      destruct (mem (normalize_one o) seen) eqn:Mm.
      * apply mem_In, Hs in Mm.
        destruct (IH seen result Hs Hn) as [N M]. split; [exact N|]. intros x.
        rewrite M. split.
        -- intros [H|(o' & Ho' & Ht & ->)]; [left; exact H|right; exists o'].
           split; [right; exact Ho'|split; [exact Ht|reflexivity]].
        -- intros [H|(o' & [<-|Ho'] & Ht & ->)]; [left; exact H|left; exact Mm|].
           right. exists o'. split; [exact Ho'|split; [exact Ht|reflexivity]].
      * assert (Nin : ~ In (normalize_one o) result).
        { intros Hin. apply Hs, mem_In in Hin. rewrite Hin in Mm. discriminate Mm. }
        assert (Hs' : forall x, In x (normalize_one o :: seen) <-> In x (result ++ [normalize_one o])).
        { intros x. rewrite in_app_iff. simpl. rewrite Hs. tauto. }
        destruct (IH _ _ Hs' (NoDup_snoc _ _ Hn Nin)) as [N M]. split; [exact N|]. intros x.
        rewrite M, in_app_iff. simpl. split.
        -- intros [[H|[<-|[]]]|(o' & Ho' & Ht & ->)].
           ++ left; exact H.
           ++ right. exists o. split; [left; reflexivity|split; [exact T|reflexivity]].
           ++ right. exists o'. split; [right; exact Ho'|split; [exact Ht|reflexivity]].
        -- intros [H|(o' & [<-|Ho'] & Ht & ->)].
           ++ left; left; exact H.
           ++ left; right; left; reflexivity.
           ++ right. exists o'. split; [exact Ho'|split; [exact Ht|reflexivity]].
Qed.

Lemma normalizeOwners_props owners :
  NoDup (normalizeOwners owners) /\
  (forall x, In x (normalizeOwners owners) <->
     exists o, In o owners /\ TrimSpace o <> "" /\ x = normalize_one o).
Proof.
  destruct (normalize_loop_gen owners [] [] (fun x => iff_refl _) (NoDup_nil _)) as [N M].
  split; [exact N|]. intros x. unfold normalizeOwners. rewrite M. split.
  - intros [[]|H]. exact H.
  - intros H. right. exact H.
Qed.

Lemma normalize_one_marked o : marked (normalize_one o) = true.
Proof.
  unfold normalize_one. destruct (HasPrefix (TrimSpace o) "@") eqn:E; [exact E|].
  apply marked_at.
Qed.

Lemma normalizeOwners_nil owners :
  normalizeOwners owners = [] <-> Forall (fun o => TrimSpace o = "") owners.
Proof.
  split.
  - intros H. apply Forall_forall. intros o Ho.
    destruct (String.eqb_spec (TrimSpace o) "") as [E|E]; [exact E|].
    assert (Hin : In (normalize_one o) (normalizeOwners owners))
      by (apply normalizeOwners_props; exists o; auto).
    rewrite H in Hin. destruct Hin.
  - intros H. destruct (normalizeOwners owners) as [|x xs] eqn:E; [reflexivity|].
    assert (Hin : In x (normalizeOwners owners)) by (rewrite E; left; reflexivity).
    apply normalizeOwners_props in Hin as (o & Ho & Ht & _).
    exact (False_ind _ (Ht (proj1 (Forall_forall _ _) H o Ho))).
Qed.

End ExtraConfigFacts.

Module ExtraConfigFacts2.
Import Ownership Config Words ConfigV2 Discover OwnershipFacts3 ConfigFacts
  ExtraOwnershipFacts ExtraConfigFacts.

(** ** Strings, [Split] and [Join] *)

Lemma slen_app a b : String.length (a ++ b) = (String.length a + String.length b)%nat.
Proof. induction a as [|c a IH]; simpl; [reflexivity|]. rewrite IH. reflexivity. Qed.

Lemma substring_app a b : substring 0 (String.length a) (a ++ b) = a.
Proof. induction a as [|c a IH]; simpl; [destruct b; reflexivity|]. rewrite IH. reflexivity. Qed.

Lemma split_length sep s : List.length (split_char sep s) = (count_char sep s + 1)%nat.
Proof.
  induction s as [|c s IH]; [reflexivity|]. cbn [split_char count_char].
  destruct (Ascii.eqb c sep).
  - simpl in *. lia.
  - destruct (split_char sep s) as [|p ps]; simpl in *; lia.
Qed.


Lemma count0_nochar c s : count_char c s = 0 -> has_char c s = false.
Proof.
  induction s as [|x s IH]; cbn [count_char has_char]; [reflexivity|].
  destruct (Ascii.eqb x c); cbn [orb]; intros H; [discriminate H|exact (IH H)].
Qed.

Lemma count1_decomp c s : count_char c s = 1 ->
  exists a b, s = a ++ String c b /\ has_char c a = false /\ has_char c b = false.
Proof.
  induction s as [|x s IH]; cbn [count_char]; [intros H; discriminate H|].
  destruct (Ascii.eqb x c) eqn:E; intros H.
  - apply Ascii.eqb_eq in E. subst x. exists "", s. split; [reflexivity|].
    split; [reflexivity|]. apply count0_nochar. simpl in H. lia.
  - destruct (IH H) as (a & b & -> & Ha & Hb). exists (String x a), b.
    split; [reflexivity|]. split; [simpl; rewrite E, Ha; reflexivity|exact Hb].
Qed.

Lemma split_prefix_sep sep p r : exists pre, pre <> [] /\
  split_char sep (p ++ String sep r) = (pre ++ split_char sep r)%list.
Proof.
  induction p as [|c p IH].
  - exists [""]. split; [intros H; discriminate H|].
    cbn [append split_char]. rewrite Ascii.eqb_refl. reflexivity.
  - destruct IH as (pre & Hne & Hs). cbn [append split_char]. rewrite Hs.
    destruct (Ascii.eqb c sep).
    + exists ("" :: pre). split; [intros H; discriminate H|reflexivity].
    + destruct pre as [|q pre']; [contradiction|].
      exists (String c q :: pre'). split; [intros H; discriminate H|reflexivity].
Qed.

Lemma last_app_ne {X} (pre l : list X) d : l <> [] -> last (pre ++ l) d = last l d.
Proof.
  intros Hl. induction pre as [|x pre IH]; [reflexivity|].
  cbn [app last]. rewrite <- IH.
  destruct (pre ++ l)%list eqn:E; [|reflexivity].
  apply app_eq_nil in E as [_ E]. contradiction.
Qed.

Lemma TrimSuffix_git n : TrimSuffix (n ++ ".git") ".git" = n.
Proof.
  unfold TrimSuffix. rewrite has_suffix_app, slen_app.
  replace (String.length n + String.length ".git" - String.length ".git")%nat
    with (String.length n) by lia.
  apply substring_app.
Qed.








(** ** The writers *)

Lemma marked_nonempty_normalize l :
  (exists o, In o l /\ marked o = true) -> normalizeOwners l <> [].
Proof.
  intros (o & Ho & Hm) E. apply prefix_at in Hm as [r ->].
  assert (Hin : In (normalize_one (String "@" r)) (normalizeOwners l)).
  { apply normalizeOwners_props. exists (String "@" r).
    split; [exact Ho|split; [apply TrimSpace_at|reflexivity]]. }
  rewrite E in Hin. destruct Hin.
Qed.

End ExtraConfigFacts2.

(** * Properties of [Write] on the file system *)

Module WriteFacts.
Import Config ConfigV2 ConfigFacts FSFacts ExtraConfigFacts.

(** The path [Write] writes the configuration to. *)
Definition Write_target (w : Writer) (cfg : RepositoryConfig) (dryRun : bool) : string :=
  if dryRun
  then filepath_Join (filepath_Join (filepath_Dir (reposDir w)) "discovered-repos")
         (getFilename (Name cfg))
  else filepath_Join (reposDir w) (getFilename (Name cfg)).

(** [fs'] keeps the faults, every directory and every file outside [A],
    and has no file that [fs] did not have outside [A]. *)
Definition evolves (A : key -> Prop) (fs fs' : FS) : Prop :=
  fault fs' = fault fs /\
  forall k,
    (lookup fs k = LDir -> lookup fs' k = LDir) /\
    (forall d, lookup fs k = LFile d -> ~ A k -> lookup fs' k = LFile d) /\
    (forall d, lookup fs' k = LFile d -> lookup fs k = LFile d \/ A k).

Lemma evolves_dir A fs fs' k : evolves A fs fs' -> lookup fs k = LDir -> lookup fs' k = LDir.
Proof. intros [_ H]. apply (H k). Qed.

Lemma evolves_keep (A : key -> Prop) fs fs' k d :
  evolves A fs fs' -> lookup fs k = LFile d -> ~ A k -> lookup fs' k = LFile d.
Proof. intros [_ H]. apply (H k). Qed.

Lemma evolves_new (A : key -> Prop) fs fs' k d :
  evolves A fs fs' -> lookup fs' k = LFile d -> lookup fs k = LFile d \/ A k.
Proof. intros [_ H]. apply (H k). Qed.

Lemma evolves_refl A fs : evolves A fs fs.
Proof. split; [reflexivity|]. intros k. split; [|split]; auto. Qed.

Lemma evolves_trans (A B : key -> Prop) fs1 fs2 fs3 :
  evolves A fs1 fs2 -> evolves B fs2 fs3 -> evolves (fun k => A k \/ B k) fs1 fs3.
Proof.
  intros [F1 H1] [F2 H2]. split; [congruence|]. intros k.
  destruct (H1 k) as (D1 & K1 & N1), (H2 k) as (D2 & K2 & N2). split; [|split].
  - auto.
  - intros d E NA. apply K2; [apply K1; [exact E|]|]; intros C; apply NA; auto.
  - intros d E. destruct (N2 d E) as [E2|E2]; [|auto].
    destruct (N1 d E2) as [E1|E1]; auto.
Qed.

Lemma evolves_weaken (A B : key -> Prop) fs fs' :
  (forall k, A k -> B k) -> evolves A fs fs' -> evolves B fs fs'.
Proof.
  intros AB [F H]. split; [exact F|]. intros k. destruct (H k) as (D & K & N).
  split; [exact D|split].
  - intros d E NB. apply K; [exact E|]. intros C; apply NB, AB, C.
  - intros d E. destruct (N d E); auto.
Qed.

Lemma grows_evolves A fs fs' : grows fs fs' -> fault fs' = fault fs -> evolves A fs fs'.
Proof.
  intros G F. split; [exact F|]. intros k. split; [|split].
  - apply grows_dir, G.
  - intros d E _. destruct (G k) as [E'|[E' _]]; congruence.
  - intros d E. left. eapply grows_file; eassumption.
Qed.

Lemma MkdirAll_evolves A p fs : evolves A fs (snd (MkdirAll p fs)).
Proof. destruct (MkdirAll_spec p fs) as (G & F & _). apply grows_evolves; assumption. Qed.

Lemma writes_evolves k d fs fs' :
  writes k d fs fs' -> fault fs' = fault fs ->
  (lookup fs k = LNotFound \/ exists x, lookup fs k = LFile x) ->
  evolves (fun k' => k' = k) fs fs'.
Proof.
  intros [Hk H] F Hb. split; [exact F|]. intros k'.
  destruct (key_eq_dec k' k) as [->|Ne].
  - split; [|split].
    + intros E. destruct Hb as [E'|[x E']]; congruence.
    + intros d' _ C. contradiction C; reflexivity.
    + intros d0 _. right; reflexivity.
  - destruct (H k' Ne) as [E|(_ & E1 & E2)]; split; [|split| |split].
    + rewrite E; auto.
    + rewrite E; auto.
    + rewrite E; auto.
    + congruence.
    + congruence.
    + congruence.
Qed.

Lemma WriteFile_evolves name d fs :
  evolves (fun k => k = path_key name) fs (snd (WriteFile name d fs)).
Proof.
  destruct (WriteFile name d fs) as [[e|] fs'] eqn:W; cbn [snd].
  - apply WriteFile_err in W. subst fs'. apply evolves_refl.
  - destruct (WriteFile_ok _ _ _ _ W) as (O & Wr & F).
    destruct (open_create_ok _ _ O) as (_ & _ & _ & _ & L).
    eapply writes_evolves; eassumption.
Qed.

Lemma AppendFile_evolves name s fs :
  evolves (fun k => k = path_key name) fs (snd (AppendFile name s fs)).
Proof.
  destruct (AppendFile name s fs) as [[e|] fs'] eqn:W; cbn [snd].
  - apply AppendFile_err in W. subst fs'. apply evolves_refl.
  - destruct (AppendFile_ok _ _ _ _ W) as (O & Wr & F).
    destruct (open_create_ok _ _ O) as (_ & _ & _ & _ & L).
    eapply writes_evolves; eassumption.
Qed.

Lemma updateCodeowners_evolves w fn owners fs :
  evolves (fun k => k = path_key (codeownersFile w)) fs
    (snd (updateCodeowners w fn owners fs)).
Proof.
  destruct (updateCodeowners w fn owners fs) as [[e|] fs'] eqn:U; cbn [snd].
  - apply updateCodeowners_err in U. subst fs'. apply evolves_refl.
  - destruct (updateCodeowners_ok _ _ _ _ _ U) as (cur & c & _ & _ & W).
    pose proof (WriteFile_evolves (codeownersFile w) c fs) as E.
    rewrite W in E. exact E.
Qed.

(** A file replaced by a file. *)
Lemma set_file_lookup fs k x d : lookup fs k = LFile x ->
  forall k', lookup (set_node fs k (File d)) k' =
             if key_eq_dec k' k then LFile d else lookup fs k'.
Proof.
  intros L. destruct (set_file_writes fs k d (lookup_file_parent _ _ _ L)
                        (or_intror (ex_intro _ x L))) as [Hk H].
  intros k'. destruct (key_eq_dec k' k) as [->|Ne]; [exact Hk|].
  destruct (H k' Ne) as [E|(E & _)]; [exact E|congruence].
Qed.

Lemma codeowners_after_ok fn owners cur c :
  codeowners_after fn owners cur = Ok c ->
  normalizeOwners owners <> [] /\
  c = render (update_lines fn (normalizeOwners owners)
                (match cur with Some d => split_char "010" d | None => [] end)).
Proof.
  unfold codeowners_after. destruct owners as [|o os]; [discriminate|].
  destruct (normalizeOwners (o :: os)) as [|n ns]; [discriminate|].
  intros H. injection H as <-. split; [discriminate|reflexivity].
Qed.

Lemma updateCodeowners_read w fn owners fs d c :
  ReadFile (codeownersFile w) fs = ReadOk d ->
  codeowners_after fn owners (Some d) = Ok c ->
  updateCodeowners w fn owners fs =
  match WriteFile (codeownersFile w) c fs with
  | (Some e, fs') => (Some (Error e), fs')
  | (None, fs') => (None, fs')
  end.
Proof.
  intros R A. unfold updateCodeowners. unfold codeowners_after in A.
  destruct owners as [|o os]; [discriminate|].
  destruct (normalizeOwners (o :: os)) as [|n ns]; [discriminate|].
  injection A as <-. rewrite R. apply writeCodeowners_render.
Qed.


Lemma Write_eq ms q w cfg dryRun fs data :
  repoNamePattern_match (Name cfg) = true -> ms cfg = Ok data ->
  Write ms q w cfg dryRun fs =
  match MkdirAll (filepath_Dir (Write_target w cfg dryRun)) fs with
  | (Some e, fs1) => (Some ("failed to create directory: " ++ Error e), fs1)
  | (None, fs1) =>
      match WriteFile (Write_target w cfg dryRun) data fs1 with
      | (Some e, fs2) =>
          (Some ("failed to write config to " ++ Write_target w cfg dryRun ++ ": " ++ Error e), fs2)
      | (None, fs2) =>
          if negb dryRun then
            match updateCodeowners w (getFilename (Name cfg)) (Owners cfg) fs2 with
            | (Some e, fs3) => (Some ("failed to update CODEOWNERS: " ++ e), fs3)
            | (None, fs3) => (None, fs3)
            end
          else (None, fs2)
      end
  end.
Proof.
  intros Hp Hm. unfold Write.
  rewrite (proj2 (String.eqb_neq _ _) (pattern_nonblank _ Hp)), Hp, Hm. reflexivity.
Qed.

Lemma Write_rejected ms q w cfg dryRun fs :
  (repoNamePattern_match (Name cfg) = false \/ exists e, ms cfg = Err e) ->
  snd (Write ms q w cfg dryRun fs) = fs.
Proof.
  intros H. unfold Write. destruct (TrimSpace (Name cfg) =? "")%string; [reflexivity|].
  destruct H as [H|[e H]]; [rewrite H; reflexivity|].
  destruct (negb _); [reflexivity|]. rewrite H. reflexivity.
Qed.

Lemma Write_success ms q w cfg dryRun fs fs' :
  Write ms q w cfg dryRun fs = (None, fs') ->
  exists data fs1 fs2,
    repoNamePattern_match (Name cfg) = true /\ ms cfg = Ok data /\
    MkdirAll (filepath_Dir (Write_target w cfg dryRun)) fs = (None, fs1) /\
    WriteFile (Write_target w cfg dryRun) data fs1 = (None, fs2) /\
    (if dryRun then fs' = fs2
     else updateCodeowners w (getFilename (Name cfg)) (Owners cfg) fs2 = (None, fs')).
Proof.
  intros H. destruct (repoNamePattern_match (Name cfg)) eqn:P.
  2: { unfold Write in H. rewrite P in H. destruct (TrimSpace _ =? "")%string; discriminate. }
  destruct (ms cfg) as [data|e] eqn:M.
  2: { unfold Write in H. rewrite P, M in H. destruct (TrimSpace _ =? "")%string; discriminate. }
  rewrite (Write_eq _ _ _ _ _ _ _ P M) in H.
  destruct (MkdirAll _ fs) as [[e|] fs1] eqn:Mk; [discriminate|].
  destruct (WriteFile _ data fs1) as [[e|] fs2] eqn:Wf; [discriminate|].
  exists data, fs1, fs2. split; [reflexivity|split; [reflexivity|split; [first [exact Mk|reflexivity]|split; [first [exact Wf|reflexivity]|]]]].
  destruct dryRun; cbn [negb] in H.
  - congruence.
  - destruct (updateCodeowners _ _ _ fs2) as [[e|] fs3]; congruence.
Qed.

Lemma Write_evolves ms q w cfg dryRun fs :
  evolves (fun k => k = path_key (Write_target w cfg dryRun) \/
                    (dryRun = false /\ k = path_key (codeownersFile w)))
    fs (snd (Write ms q w cfg dryRun fs)).
Proof.
  destruct (repoNamePattern_match (Name cfg)) eqn:P;
    [|rewrite Write_rejected by (left; exact P); apply evolves_refl].
  destruct (ms cfg) as [data|e] eqn:M;
    [|rewrite Write_rejected by (right; exists e; exact M); apply evolves_refl].
  rewrite (Write_eq _ _ _ _ _ _ _ P M).
  pose proof (MkdirAll_evolves (fun _ => False) (filepath_Dir (Write_target w cfg dryRun)) fs) as E1.
  destruct (MkdirAll _ fs) as [[e|] fs1]; cbn [snd] in *.
  { eapply evolves_weaken; [|exact E1]. intros k []. }
  pose proof (WriteFile_evolves (Write_target w cfg dryRun) data fs1) as E2.
  pose proof (evolves_trans _ _ _ _ _ E1 E2) as E12.
  destruct (WriteFile _ data fs1) as [[e|] fs2]; cbn [snd] in *.
  { eapply evolves_weaken; [|exact E12]. intros k [[]|H]; left; exact H. }
  destruct dryRun; cbn [negb].
  - eapply evolves_weaken; [|exact E12]. intros k [[]|H]; left; exact H.
  - pose proof (updateCodeowners_evolves w (getFilename (Name cfg)) (Owners cfg) fs2) as E3.
    pose proof (evolves_trans _ _ _ _ _ E12 E3) as E123.
    destruct (updateCodeowners _ _ _ fs2) as [[e|] fs3]; cbn [snd] in *;
      (eapply evolves_weaken; [|exact E123]);
      intros k [[[]|H]|H]; [left; exact H|right; split; [reflexivity|exact H]
                           |left; exact H|right; split; [reflexivity|exact H]].
Qed.


Lemma updateCodeowners_fs_error w fn owners fs e fs' :
  normalizeOwners owners <> [] ->
  updateCodeowners w fn owners fs = (Some e, fs') -> exists pe, e = Error pe.
Proof.
  intros Hn. unfold updateCodeowners.
  destruct owners as [|o os]; [contradiction Hn; reflexivity|].
  destruct (normalizeOwners (o :: os)) as [|n ns]; [contradiction Hn; reflexivity|].
  destruct (ReadFile _ fs) as [data|pe].
  - rewrite writeCodeowners_render. destruct (WriteFile _ _ fs) as [[pe|] fs1];
      intros H; inversion H; subst; eexists; reflexivity.
  - destruct (IsNotExist pe).
    + rewrite writeCodeowners_render. destruct (WriteFile _ _ fs) as [[pe'|] fs1];
        intros H; inversion H; subst; eexists; reflexivity.
    + intros H. inversion H; subst. eexists; reflexivity.
Qed.

(** Once the name is valid and the owners survive normalization, [Write]
    fails only on marshalling or on the file system. *)
Lemma Write_errors ms q w cfg dryRun fs e fs' :
  repoNamePattern_match (Name cfg) = true -> normalizeOwners (Owners cfg) <> [] ->
  Write ms q w cfg dryRun fs = (Some e, fs') ->
  (exists m, ms cfg = Err m /\ e = ("failed to marshal config: " ++ m)%string) \/
  exists pe, e = ("failed to create directory: " ++ Error pe)%string \/
             e = ("failed to write config to " ++ Write_target w cfg dryRun ++ ": " ++ Error pe)%string \/
             e = ("failed to update CODEOWNERS: " ++ Error pe)%string.
Proof.
  intros P Hn. destruct (ms cfg) as [data|m] eqn:M.
  2: { unfold Write. rewrite (proj2 (String.eqb_neq _ _) (pattern_nonblank _ P)), P, M.
       intros H. injection H as <- _. left. exists m. split; reflexivity. }
  rewrite (Write_eq _ _ _ _ _ _ _ P M).
  destruct (MkdirAll _ fs) as [[pe|] fs1].
  { intros H. injection H as <- _. right. exists pe. left. reflexivity. }
  destruct (WriteFile _ data fs1) as [[pe|] fs2].
  { intros H. injection H as <- _. right. exists pe. right. left. reflexivity. }
  destruct dryRun; cbn [negb]; [discriminate|].
  destruct (updateCodeowners _ _ _ fs2) as [[e'|] fs3] eqn:U; [|discriminate].
  intros H. injection H as <- _. destruct (updateCodeowners_fs_error _ _ _ _ _ _ Hn U) as [pe ->].
  right. exists pe. right. right. reflexivity.
Qed.

(** ** The second version *)

Definition Write2_target (w : Writer) (cfg : RepositoryConfig) (dryRun : bool) : string :=
  if dryRun then filepath_Join "discovered-repos" (getFilename2 (Name cfg))
  else filepath_Join (reposDir w) (getFilename2 (Name cfg)).

Definition Write2_dir (w : Writer) (dryRun : bool) : string :=
  if dryRun then "discovered-repos" else reposDir w.

Lemma Write2_mkdir ms w cfg dryRun fs :
  Write2 ms w cfg dryRun fs =
  match MkdirAll (Write2_dir w dryRun) fs with
  | (Some e, fs1) =>
      (Some ((if dryRun then "failed to create discovered-repos directory: "
              else "failed to create repos directory: ") ++ Error e), fs1)
  | (None, fs1) =>
      match ms cfg with
      | Err e => (Some ("failed to marshal config: " ++ e), fs1)
      | Ok data =>
          match WriteFile (Write2_target w cfg dryRun) data fs1 with
          | (Some e, fs2) => (Some ("failed to write config file: " ++ Error e), fs2)
          | (None, fs2) =>
              if negb dryRun then
                match updateCodeowners2 w (getFilename2 (Name cfg)) (Owners cfg) fs2 with
                | (Some e, fs3) => (Some ("failed to update CODEOWNERS: " ++ e), fs3)
                | (None, fs3) => (None, fs3)
                end
              else (None, fs2)
          end
      end
  end.
Proof.
  unfold Write2, Write2_dir, Write2_target. cbv zeta.
  destruct dryRun; destruct (MkdirAll _ fs) as [[e|] fs1]; reflexivity.
Qed.

Lemma Write2_success ms w cfg dryRun fs fs' :
  Write2 ms w cfg dryRun fs = (None, fs') ->
  exists data fs1 fs2,
    ms cfg = Ok data /\
    MkdirAll (Write2_dir w dryRun) fs = (None, fs1) /\
    WriteFile (Write2_target w cfg dryRun) data fs1 = (None, fs2) /\
    (if dryRun then fs' = fs2
     else updateCodeowners2 w (getFilename2 (Name cfg)) (Owners cfg) fs2 = (None, fs')).
Proof.
  rewrite Write2_mkdir. intros H.
  destruct (MkdirAll _ fs) as [[e|] fs1] eqn:Mk; [discriminate|].
  destruct (ms cfg) as [data|e] eqn:M; [|discriminate].
  destruct (WriteFile _ data fs1) as [[e|] fs2] eqn:Wf; [discriminate|].
  exists data, fs1, fs2.
  split; [reflexivity|split; [first [exact Mk|reflexivity]|split; [first [exact Wf|reflexivity]|]]].
  destruct dryRun; cbn [negb] in H.
  - congruence.
  - destruct (updateCodeowners2 _ _ _ fs2) as [[e|] fs3]; congruence.
Qed.

Lemma updateCodeowners2_evolves w fn owners fs :
  evolves (fun k => k = path_key (codeownersFile w)) fs
    (snd (updateCodeowners2 w fn owners fs)).
Proof.
  unfold updateCodeowners2. destruct owners as [|o os]; [apply evolves_refl|].
  pose proof (AppendFile_evolves (codeownersFile w)
                ("/repos/" ++ fn ++ " " ++ Join " " (o :: os) ++ nl) fs) as E.
  destruct (AppendFile _ _ fs) as [[e|] fs']; exact E.
Qed.

Lemma Write2_evolves ms w cfg dryRun fs :
  evolves (fun k => k = path_key (Write2_target w cfg dryRun) \/
                    (dryRun = false /\ k = path_key (codeownersFile w)))
    fs (snd (Write2 ms w cfg dryRun fs)).
Proof.
  rewrite Write2_mkdir.
  pose proof (MkdirAll_evolves (fun _ => False) (Write2_dir w dryRun) fs) as E1.
  destruct (MkdirAll _ fs) as [[e|] fs1]; cbn [snd] in *.
  { eapply evolves_weaken; [|exact E1]. intros k []. }
  destruct (ms cfg) as [data|e]; cbn [snd].
  2: { eapply evolves_weaken; [|exact E1]. intros k []. }
  pose proof (WriteFile_evolves (Write2_target w cfg dryRun) data fs1) as E2.
  pose proof (evolves_trans _ _ _ _ _ E1 E2) as E12.
  destruct (WriteFile _ data fs1) as [[e|] fs2]; cbn [snd] in *.
  { eapply evolves_weaken; [|exact E12]. intros k [[]|H]; left; exact H. }
  destruct dryRun; cbn [negb].
  - eapply evolves_weaken; [|exact E12]. intros k [[]|H]; left; exact H.
  - pose proof (updateCodeowners2_evolves w (getFilename2 (Name cfg)) (Owners cfg) fs2) as E3.
    pose proof (evolves_trans _ _ _ _ _ E12 E3) as E123.
    destruct (updateCodeowners2 _ _ _ fs2) as [[e|] fs3]; cbn [snd] in *;
      (eapply evolves_weaken; [|exact E123]);
      intros k [[[]|H]|H]; [left; exact H|right; split; [reflexivity|exact H]
                           |left; exact H|right; split; [reflexivity|exact H]].
Qed.

End WriteFacts.

(** * C10: writing a configuration twice *)

Module CodeownersClaims.
Import Config Words ConfigFacts FSFacts ExtraConfigFacts WriteFacts ConfigExamples.

(** C10 (corrected): let a [Write] with [dryRun = false] succeed on [fs]
    (so none of its [MkdirAll], [WriteFile], [ReadFile] calls failed), for
    a configuration none of whose trimmed owners holds a newline.  Then
    writing the same configuration again on the result succeeds and leaves
    every path as the first write left it.  And, when the CODEOWNERS path
    is not the configuration's path: the first write left a CODEOWNERS file
    [c] computed from the lines [fs] held there (none if it did not exist);
    the owners written are the normalized ones (trimmed, blanks dropped,
    ['@'] ensured, duplicates removed); and [c] is those lines with the
    first matching line replaced by the entry, or with the entry appended
    (after an empty line when the last line is not empty) when no line
    matches. *)
Theorem Write_idempotent ms q w cfg fs :
  Forall (fun o => has_char "010" (TrimSpace o) = false) (Owners cfg) ->
  fst (Write ms q w cfg false fs) = None ->
  (fst (Write ms q w cfg false (snd (Write ms q w cfg false fs))) = None /\
   forall k, lookup (snd (Write ms q w cfg false (snd (Write ms q w cfg false fs)))) k
             = lookup (snd (Write ms q w cfg false fs)) k) /\
  (path_key (codeownersFile w)
     <> path_key (filepath_Join (reposDir w) (getFilename (Name cfg))) ->
   exists lines c,
     ((exists d, lookup fs (path_key (codeownersFile w)) = LFile d /\
                 lines = split_char "010" d) \/
      (lookup fs (path_key (codeownersFile w)) = LNotFound /\ lines = [])) /\
     lookup (snd (Write ms q w cfg false fs)) (path_key (codeownersFile w)) = LFile c /\
     normalizeOwners (Owners cfg) <> [] /\ NoDup (normalizeOwners (Owners cfg)) /\
     (forall x, In x (normalizeOwners (Owners cfg)) <->
        exists o, In o (Owners cfg) /\ TrimSpace o <> "" /\ x = normalize_one o) /\
     ((exists pre l post, lines = (pre ++ l :: post)%list /\
         Forall (fun x => matchesPattern x ("/repos/" ++ getFilename (Name cfg)) = false) pre /\
         matchesPattern l ("/repos/" ++ getFilename (Name cfg)) = true /\
         c = render (pre ++ ("/repos/" ++ getFilename (Name cfg) ++ " "
                             ++ Join " " (normalizeOwners (Owners cfg)))%string :: post)%list) \/
      (Forall (fun x => matchesPattern x ("/repos/" ++ getFilename (Name cfg)) = false) lines /\
       c = render ((if (0 <? List.length lines)%nat && negb (last lines "" =? "")
                    then lines ++ [""] else lines) ++
                   [("/repos/" ++ getFilename (Name cfg) ++ " "
                     ++ Join " " (normalizeOwners (Owners cfg)))%string])%list))).
Proof.
  intros Ho H1.
  destruct (Write ms q w cfg false fs) as [r fs3] eqn:W1. cbn [fst snd] in *. subst r.
  destruct (Write_success _ _ _ _ _ _ _ W1) as (data & fs1 & fs2 & P & M & Mk & Wf & U).
  cbv iota in U.
  pose proof (MkdirAll_spec (filepath_Dir (Write_target w cfg false)) fs) as (G1 & F1 & S1).
  rewrite Mk in G1, F1, S1. cbn [fst snd] in G1, F1, S1. specialize (S1 eq_refl).
  destruct (WriteFile_ok _ _ _ _ Wf) as (O2 & Wr2 & F2).
  destruct (open_create_ok _ _ O2) as (Tne & Tds & Tf & _ & _).
  destruct (updateCodeowners_ok _ _ _ _ _ U) as (cur & c & A & Cur & W3).
  destruct (WriteFile_ok _ _ _ _ W3) as (O3 & Wr3 & F3).
  destruct (open_create_ok _ _ O3) as (Cne & Cds & Cf & _ & _).
  pose proof (WriteFile_evolves (Write_target w cfg false) data fs1) as E2.
  rewrite Wf in E2. cbn [snd] in E2.
  pose proof (WriteFile_evolves (codeownersFile w) c fs2) as E3.
  rewrite W3 in E3. cbn [snd] in E3.
  assert (St3 : stat (filepath_Dir (Write_target w cfg false)) fs3 = LDir).
  { unfold stat in S1 |- *. destruct (_ =? "")%string; [discriminate|].
    eapply evolves_dir; [exact E3|]. eapply evolves_dir; [exact E2|exact S1]. }
  assert (Ft : fault fs3 (path_key (Write_target w cfg false)) = None)
    by (rewrite F3, F2; exact Tf).
  assert (Fc : fault fs3 (path_key (codeownersFile w)) = None) by (rewrite F3; exact Cf).
  destruct Wr2 as [Lt2 Wr2]. destruct Wr3 as [Lc3 Wr3].
  split.
  - destruct (key_eq_dec (path_key (codeownersFile w)) (path_key (Write_target w cfg false)))
      as [Ect|Nct].
    + (* the configuration went to the CODEOWNERS path *)
      assert (Lt3 : lookup fs3 (path_key (Write_target w cfg false)) = LFile c)
        by (rewrite <- Ect; exact Lc3).
      set (fs4 := set_node fs3 (path_key (Write_target w cfg false)) (File data)).
      assert (L4 : lookup fs4 (path_key (codeownersFile w)) = LFile data).
      { unfold fs4. rewrite (set_file_lookup _ _ _ _ Lt3).
        destruct (key_eq_dec _ _) as [_|D]; [reflexivity|contradiction]. }
      assert (R4 : ReadFile (codeownersFile w) fs4 = ReadOk data)
        by (apply ReadFile_file; assumption).
      assert (A4 : codeowners_after (getFilename (Name cfg)) (Owners cfg) (Some data) = Ok c).
      { destruct Cur as [(d & -> & R)|(-> & S)].
        - apply ReadFile_ok in R as [_ R]. rewrite Ect, Lt2 in R. injection R as <-. exact A.
        - unfold stat in S. rewrite (proj2 (String.eqb_neq _ _) Cne), Ect, Lt2 in S.
          discriminate. }
      assert (W2 : Write ms q w cfg false fs3
                   = (None, set_node fs4 (path_key (codeownersFile w)) (File c))).
      { rewrite (Write_eq _ _ _ _ _ _ _ P M), (MkdirAll_dir _ _ St3).
        unfold WriteFile at 1. rewrite (open_create_file _ _ _ Tne Tds Ft Lt3).
        change (set_node fs3 (path_key (Write_target w cfg false)) (File data)) with fs4.
        rewrite (updateCodeowners_read _ _ _ _ _ _ R4 A4).
        unfold WriteFile. rewrite (open_create_file (codeownersFile w) fs4 _ Cne Cds Fc L4).
        reflexivity. }
      rewrite W2. cbn [fst snd]. split; [reflexivity|]. intros k.
      rewrite (set_file_lookup _ _ _ _ L4 k).
      destruct (key_eq_dec k _) as [->|Ne]; [symmetry; exact Lc3|].
      unfold fs4. rewrite (set_file_lookup _ _ _ _ Lt3 k).
      destruct (key_eq_dec k _) as [E|_]; [congruence|reflexivity].
    + (* two different paths *)
      assert (Lt3 : lookup fs3 (path_key (Write_target w cfg false)) = LFile data).
      { destruct (Wr3 _ (fun E => Nct (eq_sym E))) as [E|(_ & E & _)]; congruence. }
      set (fs4 := set_node fs3 (path_key (Write_target w cfg false)) (File data)).
      assert (L4 : lookup fs4 (path_key (codeownersFile w)) = LFile c).
      { unfold fs4. rewrite (set_file_lookup _ _ _ _ Lt3).
        destruct (key_eq_dec _ _) as [E|_]; [contradiction|exact Lc3]. }
      assert (R4 : ReadFile (codeownersFile w) fs4 = ReadOk c)
        by (apply ReadFile_file; assumption).
      assert (A4 : codeowners_after (getFilename (Name cfg)) (Owners cfg) (Some c) = Ok c).
      { apply (codeowners_after_idem _ _ cur); [| |exact Ho|exact A];
          apply getFilename_chars; first [exact P|reflexivity]. }
      assert (W2 : Write ms q w cfg false fs3
                   = (None, set_node fs4 (path_key (codeownersFile w)) (File c))).
      { rewrite (Write_eq _ _ _ _ _ _ _ P M), (MkdirAll_dir _ _ St3).
        unfold WriteFile at 1. rewrite (open_create_file _ _ _ Tne Tds Ft Lt3).
        change (set_node fs3 (path_key (Write_target w cfg false)) (File data)) with fs4.
        rewrite (updateCodeowners_read _ _ _ _ _ _ R4 A4).
        unfold WriteFile. rewrite (open_create_file (codeownersFile w) fs4 _ Cne Cds Fc L4).
        reflexivity. }
      rewrite W2. cbn [fst snd]. split; [reflexivity|]. intros k.
      rewrite (set_file_lookup _ _ _ _ L4 k).
      destruct (key_eq_dec k _) as [->|Ne]; [symmetry; exact Lc3|].
      unfold fs4. rewrite (set_file_lookup _ _ _ _ Lt3 k).
      destruct (key_eq_dec k _) as [->|_]; [symmetry; exact Lt3|reflexivity].
  - intros Nct.
    exists (match cur with Some d => split_char "010" d | None => [] end), c.
    split.
    { destruct Cur as [(d & -> & R)|(-> & S)].
      - left. exists d. split; [|reflexivity].
        apply ReadFile_ok in R as [_ R].
        destruct (Wr2 _ Nct) as [E|(_ & _ & E)]; [|congruence].
        eapply grows_file; [exact G1|congruence].
      - right. split; [|reflexivity].
        unfold stat in S. rewrite (proj2 (String.eqb_neq _ _) Cne) in S.
        destruct (Wr2 _ Nct) as [E|(_ & _ & E)]; [|congruence].
        eapply grows_notfound; [exact G1|congruence]. }
    split; [exact Lc3|].
    destruct (codeowners_after_ok _ _ _ _ A) as [Nn Hc].
    destruct (normalizeOwners_props (Owners cfg)) as [Nd Ni].
    split; [exact Nn|split; [exact Nd|split; [exact Ni|]]].
    destruct (update_lines_cases (getFilename (Name cfg)) (normalizeOwners (Owners cfg))
                (match cur with Some d => split_char "010" d | None => [] end))
      as [(pre & l & post & Hl & Hp & Hm & Hu)|(Hp & Hu)]; rewrite Hu in Hc.
    + left. exists pre, l, post. auto.
    + right. auto.
Qed.

Lemma Write_idempotent_witness :
  let cfg := cfg_of "org/x" ["@new"; " bob "; "@new"] in
  Forall (fun o => has_char "010" (TrimSpace o) = false) (Owners cfg) /\
  fst (write0 cfg tab_codeowners) = None /\
  fst (write0 cfg (snd (write0 cfg tab_codeowners))) = None.
Proof.
  cbv zeta.
  assert (H1 : Forall (fun o => has_char "010" (TrimSpace o) = false)
                 (Owners (cfg_of "org/x" ["@new"; " bob "; "@new"])))
    by (repeat constructor).
  assert (H2 : fst (write0 (cfg_of "org/x" ["@new"; " bob "; "@new"]) tab_codeowners) = None)
    by (vm_compute; reflexivity).
  split; [exact H1|split; [exact H2|]].
  exact (proj1 (proj1 (Write_idempotent marshal_name quote_q writer0
                         (cfg_of "org/x" ["@new"; " bob "; "@new"]) tab_codeowners H1 H2))).
Defined.

End CodeownersClaims.

(** * CODEOWNERS entries *)

Module ExtraConfigFacts3.
Import Config Words ConfigV2 ConfigFacts ExtraConfigFacts ExtraConfigFacts2.

Lemma updateCodeowners2_eq w fn owners fs : owners <> [] ->
  updateCodeowners2 w fn owners fs =
  match AppendFile (codeownersFile w) ("/repos/" ++ fn ++ " " ++ Join " " owners ++ nl) fs with
  | (Some e, fs') => (Some (Error e), fs')
  | (None, fs') => (None, fs')
  end.
Proof. destruct owners as [|o os]; [intros H; contradiction H; reflexivity|reflexivity]. Qed.




End ExtraConfigFacts3.

Module ExtraConfig.
Import Ownership Config Words ConfigV2 OwnershipFacts3 ConfigFacts
  ExtraOwnershipFacts ExtraConfigFacts ExtraConfigFacts2 FSFacts WriteFacts ExtraConfigFacts3.

(** X5: [normalizeOwners] returns distinct owners, each starting with
    ['@'].  They are exactly the trimmed nonblank inputs, with ['@'] put in
    front where it was missing.  The result is empty exactly when every
    input is blank after trimming. *)
Theorem normalizeOwners_spec owners :
  NoDup (normalizeOwners owners) /\
  Forall (fun x => marked x = true) (normalizeOwners owners) /\
  (forall x, In x (normalizeOwners owners) <->
     exists o, In o owners /\ TrimSpace o <> "" /\ x = normalize_one o) /\
  (normalizeOwners owners = [] <-> Forall (fun o => TrimSpace o = "") owners).
Proof.
  destruct (normalizeOwners_props owners) as [N M].
  split; [exact N|]. split.
  - apply Forall_forall. intros x Hx. apply M in Hx as (o & _ & _ & ->).
    apply normalize_one_marked.
  - split; [exact M|apply normalizeOwners_nil].
Qed.

(** X6: let [Write] (not a dry run) get a valid name, a marshalled config
    and only blank owners, and let its [MkdirAll] and [WriteFile] succeed.
    Then it fails with a CODEOWNERS error: "no owners specified" when the
    list is empty, "all owners ... were invalid after normalization"
    otherwise.  The config file it has written stays in place. *)
Theorem Write_blank_owners ms q w cfg fs data fs1 fs2 :
  repoNamePattern_match (Name cfg) = true -> ms cfg = Ok data ->
  Forall (fun o => TrimSpace o = "") (Owners cfg) ->
  MkdirAll (filepath_Dir (filepath_Join (reposDir w) (getFilename (Name cfg)))) fs = (None, fs1) ->
  WriteFile (filepath_Join (reposDir w) (getFilename (Name cfg))) data fs1 = (None, fs2) ->
  lookup fs2 (path_key (filepath_Join (reposDir w) (getFilename (Name cfg)))) = LFile data /\
  (Owners cfg = [] ->
   Write ms q w cfg false fs =
     (Some ("failed to update CODEOWNERS: no owners specified for " ++ getFilename (Name cfg)), fs2)) /\
  (Owners cfg <> [] ->
   Write ms q w cfg false fs =
     (Some ("failed to update CODEOWNERS: all owners for " ++ getFilename (Name cfg)
            ++ " were invalid after normalization"), fs2)).
Proof.
  intros P M B Mk Wf.
  destruct (WriteFile_ok _ _ _ _ Wf) as (_ & [Lt _] & _).
  split; [exact Lt|].
  rewrite (Write_eq _ _ _ _ _ _ _ P M).
  change (Write_target w cfg false) with (filepath_Join (reposDir w) (getFilename (Name cfg))).
  rewrite Mk. cbv iota beta. rewrite Wf. cbv iota beta. cbn [negb].
  apply normalizeOwners_nil in B. unfold updateCodeowners. revert B.
  destruct (Owners cfg) as [|o os]; intros B; split; intros Ho.
  - reflexivity.
  - contradiction Ho; reflexivity.
  - discriminate Ho.
  - rewrite B. reflexivity.
Qed.


(** X8: a name passes [repoNamePattern] exactly when it is two nonempty
    runs of [[a-zA-Z0-9_-]] joined by one ['/'].  For such a name
    [getFilename] is the second run followed by ".yaml". *)
Theorem repoNamePattern_spec s :
  (repoNamePattern_match s = true <->
   exists a b, a <> "" /\ b <> "" /\ all_word a = true /\ all_word b = true /\
               s = a ++ "/" ++ b) /\
  (forall a b, all_word a = true -> all_word b = true ->
               getFilename (a ++ "/" ++ b) = b ++ ".yaml").
Proof. split; [apply repoNamePattern_iff|intros a b; apply getFilename_words]. Qed.

(** X9: whatever happens, [Write] keeps every directory and the system's
    errors, keeps every file other than its target path and (on a real run)
    the CODEOWNERS file, and creates no file elsewhere.  The target is
    [reposDir/<filename>] on a real run and
    [Dir(reposDir)/discovered-repos/<filename>] on a dry run.  When it
    succeeds, the target holds the marshalled config, unless on a real run
    the target is the CODEOWNERS file itself. *)
Theorem Write_frame ms q w cfg dryRun fs :
  fault (snd (Write ms q w cfg dryRun fs)) = fault fs /\
  (forall k, lookup fs k = LDir -> lookup (snd (Write ms q w cfg dryRun fs)) k = LDir) /\
  (forall k d, lookup fs k = LFile d -> k <> path_key (Write_target w cfg dryRun) ->
     (dryRun = true \/ k <> path_key (codeownersFile w)) ->
     lookup (snd (Write ms q w cfg dryRun fs)) k = LFile d) /\
  (forall k d, lookup (snd (Write ms q w cfg dryRun fs)) k = LFile d ->
     lookup fs k = LFile d \/ k = path_key (Write_target w cfg dryRun) \/
     (dryRun = false /\ k = path_key (codeownersFile w))) /\
  (fst (Write ms q w cfg dryRun fs) = None -> forall data, ms cfg = Ok data ->
     (dryRun = true \/ path_key (Write_target w cfg dryRun) <> path_key (codeownersFile w)) ->
     lookup (snd (Write ms q w cfg dryRun fs)) (path_key (Write_target w cfg dryRun)) = LFile data).
Proof.
  destruct (Write_evolves ms q w cfg dryRun fs) as [F H].
  split; [exact F|]. split; [intros k; apply (H k)|]. split.
  - intros k d L Nt Nc. apply (proj1 (proj2 (H k)) d L).
    intros [E|[Ed E]]; [contradiction|]. destruct Nc as [Nc|Nc]; [congruence|contradiction].
  - split.
    + intros k d L. destruct (proj2 (proj2 (H k)) d L) as [E|[E|E]]; auto.
    + intros Hs data Hm Hc. clear F H.
      destruct (Write ms q w cfg dryRun fs) as [r fs3] eqn:W. cbn [fst snd] in *. subst r.
      destruct (Write_success _ _ _ _ _ _ _ W) as (data0 & fs1 & fs2 & P & M & Mk & Wf & U).
      rewrite Hm in M. injection M as <-.
      destruct (WriteFile_ok _ _ _ _ Wf) as (_ & [Lt _] & _).
      destruct dryRun.
      * congruence.
      * pose proof (updateCodeowners_evolves w (getFilename (Name cfg)) (Owners cfg) fs2) as E.
        rewrite U in E. cbn [snd] in E.
        eapply evolves_keep; [exact E|exact Lt|].
        destruct Hc as [Hc|Hc]; [discriminate Hc|exact Hc].
Qed.

(** X10: let the second version's [Write] (not a dry run, nonempty
    owners, a marshalled config, a config path other than the CODEOWNERS
    path) succeed once.  The CODEOWNERS file then holds its old content (none
    if it was missing) followed by the entry, and writing the same config
    again succeeds and adds the same entry a second time. *)
Theorem Write2_appends ms w cfg fs data :
  ms cfg = Ok data -> Owners cfg <> [] ->
  path_key (filepath_Join (reposDir w) (getFilename2 (Name cfg))) <> path_key (codeownersFile w) ->
  fst (Write2 ms w cfg false fs) = None ->
  let entry := ("/repos/" ++ getFilename2 (Name cfg) ++ " " ++ Join " " (Owners cfg) ++ nl)%string in
  let old := match lookup fs (path_key (codeownersFile w)) with LFile d => d | _ => "" end in
  lookup (snd (Write2 ms w cfg false fs)) (path_key (codeownersFile w)) = LFile (old ++ entry) /\
  fst (Write2 ms w cfg false (snd (Write2 ms w cfg false fs))) = None /\
  lookup (snd (Write2 ms w cfg false (snd (Write2 ms w cfg false fs)))) (path_key (codeownersFile w))
    = LFile (old ++ entry ++ entry).
Proof.
  intros Hm Ho Hne H1. cbv zeta.
  destruct (Write2 ms w cfg false fs) as [r fs3] eqn:W1. cbn [fst snd] in *. subst r.
  destruct (Write2_success _ _ _ _ _ _ W1) as (data0 & fs1 & fs2 & M & Mk & Wf & U).
  rewrite Hm in M. injection M as <-. cbv iota in U.
  rewrite (updateCodeowners2_eq _ _ _ _ Ho) in U.
  destruct (AppendFile _ _ fs2) as [[e|] fs3'] eqn:A; [discriminate|].
  injection U as ->.
  change (Write2_dir w false) with (reposDir w) in Mk.
  change (Write2_target w cfg false) with (filepath_Join (reposDir w) (getFilename2 (Name cfg))) in Wf.
  pose proof (MkdirAll_spec (reposDir w) fs) as (G1 & F1 & S1).
  rewrite Mk in G1, F1, S1. cbn [fst snd] in G1, F1, S1. specialize (S1 eq_refl).
  destruct (WriteFile_ok _ _ _ _ Wf) as (O2 & [Lt2 Wr2] & F2).
  destruct (open_create_ok _ _ O2) as (Tne & Tds & Tf & _ & _).
  destruct (AppendFile_ok _ _ _ _ A) as (O3 & [Lc3 Wr3] & F3).
  destruct (open_create_ok _ _ O3) as (Cne & Cds & Cf & _ & Cl).
  pose proof (WriteFile_evolves (filepath_Join (reposDir w) (getFilename2 (Name cfg))) data fs1) as E2.
  rewrite Wf in E2. cbn [snd] in E2.
  pose proof (AppendFile_evolves (codeownersFile w)
                ("/repos/" ++ getFilename2 (Name cfg) ++ " " ++ Join " " (Owners cfg) ++ nl) fs2) as E3.
  rewrite A in E3. cbn [snd] in E3.
  assert (Hold : match lookup fs2 (path_key (codeownersFile w)) with LFile d => d | _ => "" end =
                 match lookup fs (path_key (codeownersFile w)) with LFile d => d | _ => "" end).
  { destruct (Wr2 _ (not_eq_sym Hne)) as [E|(_ & _ & E)];
      [|destruct Cl as [Cl|[x Cl]]; congruence].
    rewrite E in Cl |- *. destruct Cl as [Cl|[x Cl]].
    - rewrite Cl, (grows_notfound _ _ _ G1 Cl). reflexivity.
    - rewrite Cl, (grows_file _ _ _ _ G1 Cl). reflexivity. }
  rewrite Hold in Lc3.
  split; [exact Lc3|].
  assert (St3 : stat (reposDir w) fs3 = LDir).
  { unfold stat in S1 |- *. destruct (_ =? "")%string; [discriminate|].
    eapply evolves_dir; [exact E3|]. eapply evolves_dir; [exact E2|exact S1]. }
  assert (Lt3 : lookup fs3 (path_key (filepath_Join (reposDir w) (getFilename2 (Name cfg))))
                = LFile data).
  { destruct (Wr3 _ Hne) as [E|(_ & E & _)]; congruence. }
  assert (Ft : fault fs3 (path_key (filepath_Join (reposDir w) (getFilename2 (Name cfg)))) = None)
    by (rewrite F3, F2; exact Tf).
  assert (Fc : fault fs3 (path_key (codeownersFile w)) = None) by (rewrite F3; exact Cf).
  set (fs4 := set_node fs3 (path_key (filepath_Join (reposDir w) (getFilename2 (Name cfg))))
                (File data)).
  assert (L4 : lookup fs4 (path_key (codeownersFile w)) =
               LFile (match lookup fs (path_key (codeownersFile w)) with LFile d => d | _ => "" end
                      ++ "/repos/" ++ getFilename2 (Name cfg) ++ " " ++ Join " " (Owners cfg) ++ nl)).
  { unfold fs4. rewrite (set_file_lookup _ _ _ _ Lt3).
    destruct (key_eq_dec _ _) as [E|_]; [contradiction Hne; symmetry; exact E|exact Lc3]. }
  assert (W2 : Write2 ms w cfg false fs3 =
    (None, set_node fs4 (path_key (codeownersFile w))
             (File ((match lookup fs (path_key (codeownersFile w)) with LFile d => d | _ => "" end
                     ++ "/repos/" ++ getFilename2 (Name cfg) ++ " " ++ Join " " (Owners cfg) ++ nl)
                    ++ "/repos/" ++ getFilename2 (Name cfg) ++ " " ++ Join " " (Owners cfg) ++ nl)))).
  { rewrite Write2_mkdir. change (Write2_dir w false) with (reposDir w).
    rewrite (MkdirAll_dir _ _ St3), Hm.
    change (Write2_target w cfg false) with (filepath_Join (reposDir w) (getFilename2 (Name cfg))).
    unfold WriteFile. rewrite (open_create_file _ _ _ Tne Tds Ft Lt3).
    change (set_node fs3 (path_key (filepath_Join (reposDir w) (getFilename2 (Name cfg))))
              (File data)) with fs4.
    cbn [negb]. rewrite (updateCodeowners2_eq _ _ _ _ Ho).
    unfold AppendFile. rewrite (open_create_file (codeownersFile w) fs4 _ Cne Cds Fc L4).
    unfold stat. rewrite (proj2 (String.eqb_neq _ _) Cne), L4. reflexivity. }
  rewrite W2. cbn [fst snd]. split; [reflexivity|].
  rewrite (set_file_lookup _ _ _ _ L4).
  destruct (key_eq_dec _ _) as [_|D]; [|contradiction D; reflexivity].
  rewrite sapp_assoc. reflexivity.
Qed.

(** X11: the second version's [Write] validates nothing: whatever the
    name, it fails only when marshalling fails or when the file system
    refuses its [MkdirAll], its [WriteFile] or its CODEOWNERS append (for
    instance a name [a/b/c] makes [WriteFile] fail, as [reposDir/a/b] does
    not exist).  A successful dry run leaves the marshalled config at
    [discovered-repos/<filename>], relative to the working directory, and
    keeps every other file. *)
Theorem Write2_errors ms w cfg dryRun fs :
  (forall e fs', Write2 ms w cfg dryRun fs = (Some e, fs') ->
   (exists m, ms cfg = Err m /\ e = ("failed to marshal config: " ++ m)%string) \/
   exists pe, e = ("failed to create discovered-repos directory: " ++ Error pe)%string \/
              e = ("failed to create repos directory: " ++ Error pe)%string \/
              e = ("failed to write config file: " ++ Error pe)%string \/
              e = ("failed to update CODEOWNERS: " ++ Error pe)%string) /\
  (forall fs' data, Write2 ms w cfg true fs = (None, fs') -> ms cfg = Ok data ->
   lookup fs' (path_key (filepath_Join "discovered-repos" (getFilename2 (Name cfg)))) = LFile data /\
   forall k d, lookup fs k = LFile d ->
     k <> path_key (filepath_Join "discovered-repos" (getFilename2 (Name cfg))) ->
     lookup fs' k = LFile d).
Proof.
  split.
  - intros e fs'. rewrite Write2_mkdir.
    destruct (MkdirAll _ fs) as [[pe|] fs1].
    { intros H. injection H as <- _. right. exists pe.
      destruct dryRun; [left|right; left]; reflexivity. }
    destruct (ms cfg) as [data|m].
    2: { intros H. injection H as <- _. left. exists m. split; reflexivity. }
    destruct (WriteFile _ data fs1) as [[pe|] fs2].
    { intros H. injection H as <- _. right. exists pe. right. right. left. reflexivity. }
    destruct dryRun; cbn [negb]; [discriminate|].
    unfold updateCodeowners2. destruct (Owners cfg) as [|o os]; [discriminate|].
    destruct (AppendFile _ _ fs2) as [[pe|] fs3]; [|discriminate].
    intros H. injection H as <- _. right. exists pe. right. right. right. reflexivity.
  - intros fs' data H Hm.
    pose proof (Write2_evolves ms w cfg true fs) as E. rewrite H in E. cbn [snd] in E.
    destruct (Write2_success _ _ _ _ _ _ H) as (data0 & fs1 & fs2 & M & Mk & Wf & U).
    rewrite Hm in M. injection M as <-. cbv iota in U. subst fs'.
    destruct (WriteFile_ok _ _ _ _ Wf) as (_ & [Lt _] & _).
    split; [exact Lt|].
    intros k d L Nk. eapply evolves_keep; [exact E|exact L|].
    intros [C|[C _]]; [contradiction|discriminate C].
Qed.


End ExtraConfig.

(** * Further properties of the discovery runner *)

Module ExtraRunnerFacts.
Import Ownership Config Words OwnershipV1 Discover ExtraOwnershipFacts.

Lemma writeConfigurations_app ms q w dryRun l1 l2 fs :
  writeConfigurations ms q w dryRun (l1 ++ l2) fs =
  match writeConfigurations ms q w dryRun l1 fs with
  | (None, fs') => writeConfigurations ms q w dryRun l2 fs'
  | r => r
  end.
Proof.
  unfold writeConfigurations. revert fs.
  induction l1 as [|c l1 IH]; intros fs; [reflexivity|].
  cbn [app write_all].
  destruct (Write ms q w c dryRun fs) as [[e|] fs']; [reflexivity|apply IH].
Qed.

(** Every string is its last ['/']-free component, after a prefix ending
    in ['/'] when it has one. *)
Lemma last_component s : exists n, has_char "/" n = false /\
  (s = n \/ exists p, s = (p ++ "/" ++ n)%string).
Proof.
  induction s as [|c s IH].
  - exists "". split; [reflexivity|left; reflexivity].
  - destruct IH as (n & Hn & [->|(p & ->)]).
    + destruct (Ascii.eqb c "/") eqn:E.
      * apply Ascii.eqb_eq in E. subst c. exists n. split; [exact Hn|right; exists ""; reflexivity].
      * exists (String c n). split; [cbn [has_char]; rewrite E, Hn; reflexivity|].
        left; reflexivity.
    + exists n. split; [exact Hn|right; exists (String c p); reflexivity].
Qed.

End ExtraRunnerFacts.

Module ExtraRunner.
Import Ownership Config Words OwnershipV1 ConfigV2 Discover ConfigFacts
  ExtraOwnershipFacts ExtraConfigFacts ExtraConfigFacts2 WriteFacts ExtraRunnerFacts.

(** X13: a name with exactly one ['/'] is [a/b]; the second version's
    [getFilename] gives "b.yaml" for it and [extractRepoNameFromConfig] gives
    "b".  Any other name is kept whole: "name.yaml" and "name". *)
Theorem getFilename2_spec name :
  (count_char "/" name = 1 ->
   exists a b, name = a ++ "/" ++ b /\ has_char "/" a = false /\ has_char "/" b = false /\
     getFilename2 name = b ++ ".yaml" /\ extractRepoNameFromConfig name = b) /\
  (count_char "/" name <> 1 ->
   getFilename2 name = name ++ ".yaml" /\ extractRepoNameFromConfig name = name).
Proof.
  split.
  - intros H. destruct (count1_decomp _ _ H) as (a & b & -> & Ha & Hb).
    exists a, b. split; [reflexivity|]. split; [exact Ha|]. split; [exact Hb|].
    unfold getFilename2, extractRepoNameFromConfig.
    rewrite split_app_sep by exact Ha. rewrite split_nosep by exact Hb.
    split; reflexivity.
  - intros H. unfold getFilename2, extractRepoNameFromConfig. rewrite split_length.
    replace (count_char "/" name + 1 =? 2)%nat with false
      by (symmetry; apply Nat.eqb_neq; lia).
    split; reflexivity.
Qed.

(** X14: [getCurrentRepoName] takes its "coverage-dashboard" fallback
    exactly when the git command fails: splitting the URL at ['/'] always
    gives at least one part.  On success it returns the last
    ['/']-separated component [n] of the trimmed remote URL (the whole URL
    when it has no ['/']), with one trailing ".git" removed: [n] itself when
    [n] does not end in ".git". *)
Theorem getCurrentRepoName_spec :
  (forall e, getCurrentRepoName (Err e) = "coverage-dashboard") /\
  (forall out, (0 < List.length (split_char "/" (TrimSpace out)))%nat) /\
  (forall out, exists n, has_char "/" n = false /\
     (TrimSpace out = n \/ exists p, TrimSpace out = p ++ "/" ++ n) /\
     getCurrentRepoName (Ok out) = TrimSuffix n ".git") /\
  (forall out p n, TrimSpace out = p ++ "/" ++ n -> has_char "/" n = false ->
     getCurrentRepoName (Ok out) = TrimSuffix n ".git") /\
  (forall n, TrimSuffix (n ++ ".git") ".git" = n) /\
  (forall n, has_suffix ".git" n = false -> TrimSuffix n ".git" = n).
Proof.
  assert (Hl : forall s, (0 < List.length (split_char "/" s))%nat)
    by (intros s; rewrite split_length; lia).
  assert (Hn : forall out n, has_char "/" n = false ->
            (TrimSpace out = n \/ exists p, TrimSpace out = p ++ "/" ++ n) ->
            getCurrentRepoName (Ok out) = TrimSuffix n ".git").
  { intros out n Hn Ht. unfold getCurrentRepoName, getGitRemoteURL.
    replace (0 <? List.length (split_char "/" (TrimSpace out)))%nat with true
      by (symmetry; apply Nat.ltb_lt; apply Hl).
    f_equal. destruct Ht as [->|(p & ->)].
    - rewrite (split_nosep "/" n Hn). reflexivity.
    - change ("/" ++ n) with (String "/" n).
      destruct (split_prefix_sep "/" p n) as (pre & _ & Hs). rewrite Hs.
      rewrite (split_nosep "/" n Hn). apply last_app_ne. intros E; discriminate E. }
  split; [reflexivity|]. split; [intros out; apply Hl|]. split.
  - intros out. destruct (last_component (TrimSpace out)) as (n & H1 & H2).
    exists n. split; [exact H1|]. split; [exact H2|]. apply Hn; assumption.
  - split; [intros out p n Ht H; apply Hn; [exact H|right; exists p; exact Ht]|].
    split; [apply TrimSuffix_git|].
    intros n Hg. unfold TrimSuffix. rewrite Hg. reflexivity.
Qed.

(** X15: for an organization and a repository name made of
    [[a-zA-Z0-9_-]], the config [analyzeRepository] builds from the old
    detector's answer passes [Write]'s checks (not a dry run): the name
    matches [repoNamePattern] and the owners survive normalization.  [Write]
    can then only fail on marshalling or on the file system: creating the
    directory, writing the config file, or reading and writing CODEOWNERS. *)
Theorem analyze_Write_accepts ms q w d web org repo fs :
  org <> "" -> repo <> "" -> all_word org = true -> all_word repo = true ->
  let cfg := analyzeRepository (fst (DetectOwners1 d web org repo)) org repo in
  repoNamePattern_match (Name cfg) = true /\ normalizeOwners (Owners cfg) <> [] /\
  forall e fs', Write ms q w cfg false fs = (Some e, fs') ->
    (exists m, ms cfg = Err m /\ e = ("failed to marshal config: " ++ m)%string) \/
    exists pe, e = ("failed to create directory: " ++ Error pe)%string \/
               e = ("failed to write config to " ++ filepath_Join (reposDir w) (getFilename (Name cfg))
                    ++ ": " ++ Error pe)%string \/
               e = ("failed to update CODEOWNERS: " ++ Error pe)%string.
Proof.
  intros Ho Hr Wo Wr cfg.
  assert (P : repoNamePattern_match (Name cfg) = true).
  { apply repoNamePattern_iff. exists org, repo.
    repeat split; try assumption; reflexivity. }
  assert (N : normalizeOwners (Owners cfg) <> []).
  { destruct (DetectOwners1_props d web org repo) as (Hnone & Hlen & Hmk).
    unfold cfg, analyzeRepository. cbn [Owners]. rewrite Hnone.
    apply marked_nonempty_normalize. revert Hlen Hmk.
    destruct (fst (fst (DetectOwners1 d web org repo))) as [|h t]; intros Hlen Hmk;
      [simpl in Hlen; lia|].
    exists h. split; [left; reflexivity|]. inversion Hmk; assumption. }
  split; [exact P|split; [exact N|]].
  intros e fs' H. exact (Write_errors _ _ _ _ _ _ _ _ P N H).
Qed.

(** X16: [writeConfigurations] on a concatenation runs the first part,
    then the second only if the first returned no error.  Once a [Write]
    fails, the configs after it are not written and its error is returned. *)
Theorem writeConfigurations_seq ms q w dryRun :
  (forall l1 l2 fs,
     writeConfigurations ms q w dryRun (l1 ++ l2) fs =
     match writeConfigurations ms q w dryRun l1 fs with
     | (None, fs') => writeConfigurations ms q w dryRun l2 fs'
     | r => r
     end) /\
  (forall pre cfg post fs fs1 e fs2,
     writeConfigurations ms q w dryRun pre fs = (None, fs1) ->
     Write ms q w cfg dryRun fs1 = (Some e, fs2) ->
     writeConfigurations ms q w dryRun (pre ++ cfg :: post) fs = (Some e, fs2)).
Proof.
  split; [apply writeConfigurations_app|].
  intros pre cfg post fs fs1 e fs2 H1 H2.
  rewrite writeConfigurations_app, H1. unfold writeConfigurations. cbn [write_all].
  rewrite H2. reflexivity.
Qed.

End ExtraRunner.
(** * Instances of the further properties *)

Module ExtraWitnesses.
Import Ownership Config Words OwnershipV1 ConfigV2 Discover Examples ConfigExamples
  FSFacts WriteFacts ExtraOwnership ExtraConfig ExtraRunner.

Lemma detectFromCodeowners_error_witness :
  let d := detector_of (api_of [(".github/CODEOWNERS", "# none");
                                ("docs/CODEOWNERS", "docs")] [] []) in
  fst (detectFromCodeowners d "org" "repo") =
    Err "failed to detect owners from CODEOWNERS: no valid owners found in docs/CODEOWNERS" /\
  exists e', "failed to detect owners from CODEOWNERS: no valid owners found in docs/CODEOWNERS"
             = "failed to detect owners from CODEOWNERS: " ++ e' /\
    (fst (fetchFile d "org" "repo" "docs/CODEOWNERS") = Err e' \/
     exists c, fst (fetchFile d "org" "repo" "docs/CODEOWNERS") = Ok c /\
               extractOwnersFromCodeowners c = [] /\
               e' = "no valid owners found in docs/CODEOWNERS").
Proof.
  intros d.
  assert (H : fst (detectFromCodeowners d "org" "repo") =
    Err "failed to detect owners from CODEOWNERS: no valid owners found in docs/CODEOWNERS")
    by (vm_compute; reflexivity).
  split; [exact H|]. exact (detectFromCodeowners_error d "org" "repo" _ H).
Defined.

Lemma DetectOwners1_total_witness :
  let d := NewDetector1 (api_of [] [] []) in
  let web : Web := fun _ => Ok (404, Ok "") in
  fst (fst (DetectOwners1 d web "org" "repo")) = ["@konflux-ci/Vanguard"].
Proof.
  intros d web.
  apply (proj2 (proj2 (proj2 (DetectOwners1_total d web "org" "repo"))));
    intros o H; vm_compute in H;
    first [discriminate H | injection H as H; subst o; reflexivity].
Defined.

Lemma Write_blank_owners_witness :
  let cfg := cfg_of "org/repo" [" "; ""] in
  let data := ("name: org/repo" ++ nl)%string in
  let fs1 := snd (MkdirAll "/repos" empty_fs) in
  let fs2 := snd (WriteFile "/repos/repo.yaml" data fs1) in
  Write marshal_name quote_q writer0 cfg false empty_fs =
    (Some "failed to update CODEOWNERS: all owners for repo.yaml were invalid after normalization",
     fs2).
Proof.
  intros cfg data fs1 fs2.
  refine (proj2 (proj2 (Write_blank_owners marshal_name quote_q writer0 cfg empty_fs data fs1 fs2
                          eq_refl eq_refl _ _ _)) _).
  - repeat constructor.
  - vm_compute. reflexivity.
  - vm_compute. reflexivity.
  - intros E. discriminate E.
Defined.


Lemma Write_frame_witness :
  fst (Write marshal_name quote_q writer0 (cfg_of "org/repo" ["@o"]) true empty_fs) = None /\
  lookup (snd (Write marshal_name quote_q writer0 (cfg_of "org/repo" ["@o"]) true empty_fs))
    (path_key "/discovered-repos/repo.yaml") = LFile ("name: org/repo" ++ nl).
Proof.
  assert (H : fst (Write marshal_name quote_q writer0 (cfg_of "org/repo" ["@o"]) true empty_fs)
              = None) by (vm_compute; reflexivity).
  split; [exact H|].
  exact (proj2 (proj2 (proj2 (proj2 (Write_frame marshal_name quote_q writer0
           (cfg_of "org/repo" ["@o"]) true empty_fs)))) H _ eq_refl (or_introl eq_refl)).
Defined.

Lemma Write2_appends_witness :
  let cfg := cfg_of "org/repo" ["@o"] in
  fst (Write2 marshal_name writer0 cfg false
         (snd (Write2 marshal_name writer0 cfg false empty_fs))) = None.
Proof.
  intros cfg.
  refine (proj1 (proj2 (Write2_appends marshal_name writer0 cfg empty_fs ("name: org/repo" ++ nl)
                          eq_refl _ _ _))).
  - intros E. discriminate E.
  - intros E. vm_compute in E. discriminate E.
  - vm_compute. reflexivity.
Defined.

Lemma Write2_errors_witness :
  let fs' := snd (Write2 marshal_name writer0 (cfg_of "a/b/c" ["@o"]) false empty_fs) in
  Write2 marshal_name writer0 (cfg_of "a/b/c" ["@o"]) false empty_fs =
    (Some "failed to write config file: open /repos/a/b/c.yaml: no such file or directory", fs') /\
  ((exists m, marshal_name (cfg_of "a/b/c" ["@o"]) = Err m /\
     "failed to write config file: open /repos/a/b/c.yaml: no such file or directory"
     = ("failed to marshal config: " ++ m)%string) \/
   exists pe,
     "failed to write config file: open /repos/a/b/c.yaml: no such file or directory"
       = ("failed to create discovered-repos directory: " ++ Error pe)%string \/
     "failed to write config file: open /repos/a/b/c.yaml: no such file or directory"
       = ("failed to create repos directory: " ++ Error pe)%string \/
     "failed to write config file: open /repos/a/b/c.yaml: no such file or directory"
       = ("failed to write config file: " ++ Error pe)%string \/
     "failed to write config file: open /repos/a/b/c.yaml: no such file or directory"
       = ("failed to update CODEOWNERS: " ++ Error pe)%string).
Proof.
  intros fs'.
  assert (H : Write2 marshal_name writer0 (cfg_of "a/b/c" ["@o"]) false empty_fs =
    (Some "failed to write config file: open /repos/a/b/c.yaml: no such file or directory", fs'))
    by (vm_compute; reflexivity).
  split; [exact H|].
  exact (proj1 (Write2_errors marshal_name writer0 (cfg_of "a/b/c" ["@o"]) false empty_fs) _ _ H).
Defined.


Lemma getFilename2_spec_witness :
  (exists a b, "org/repo" = a ++ "/" ++ b /\ has_char "/" a = false /\ has_char "/" b = false /\
     getFilename2 "org/repo" = b ++ ".yaml" /\ extractRepoNameFromConfig "org/repo" = b) /\
  (getFilename2 "a/b/c" = "a/b/c.yaml" /\ extractRepoNameFromConfig "a/b/c" = "a/b/c").
Proof.
  split.
  - apply (proj1 (getFilename2_spec "org/repo")). reflexivity.
  - apply (proj2 (getFilename2_spec "a/b/c")). intros E; discriminate E.
Defined.

Lemma getCurrentRepoName_spec_witness :
  getCurrentRepoName (Ok ("https://github.com/konflux-ci/coverage-dashboard.git" ++ nl))
    = "coverage-dashboard" /\
  getCurrentRepoName (Ok ("git@github.com:konflux-ci/my-repo")) = "my-repo".
Proof.
  destruct getCurrentRepoName_spec as (_ & _ & _ & H4 & _ & H6). split.
  - rewrite (H4 ("https://github.com/konflux-ci/coverage-dashboard.git" ++ nl)
              "https://github.com/konflux-ci" "coverage-dashboard.git" eq_refl eq_refl).
    reflexivity.
  - rewrite (H4 "git@github.com:konflux-ci/my-repo" "git@github.com:konflux-ci" "my-repo"
              eq_refl eq_refl).
    apply H6. reflexivity.
Defined.

Lemma analyze_Write_accepts_witness :
  let d := NewDetector1 (api_of [] [] []) in
  let web : Web := fun _ => Ok (404, Ok "") in
  let cfg := analyzeRepository (fst (DetectOwners1 d web "konflux-ci" "coverage-dashboard"))
               "konflux-ci" "coverage-dashboard" in
  repoNamePattern_match (Name cfg) = true /\ normalizeOwners (Owners cfg) <> [].
Proof.
  intros d web cfg.
  destruct (analyze_Write_accepts marshal_name quote_q writer0 d web
              "konflux-ci" "coverage-dashboard" empty_fs) as (P & N & _).
  - intros E. discriminate E.
  - intros E. discriminate E.
  - reflexivity.
  - reflexivity.
  - split; [exact P|exact N].
Defined.

Lemma writeConfigurations_seq_witness :
  let wc := writeConfigurations marshal_name quote_q writer0 false in
  let pre := [cfg_of "a/b" ["@o"]] in
  let fs1 := snd (wc pre empty_fs) in
  wc (pre ++ cfg_of "bad name" ["@o"] :: [cfg_of "c/d" ["@o"]])%list empty_fs
    = (Some ("invalid repository name: " ++ quote_q "bad name"
             ++ " (must be in org/repo format with only alphanumerics, underscores, and hyphens)"),
       fs1).
Proof.
  intros wc pre fs1.
  apply (proj2 (writeConfigurations_seq marshal_name quote_q writer0 false)
           pre (cfg_of "bad name" ["@o"]) [cfg_of "c/d" ["@o"]] empty_fs fs1 _ fs1).
  - vm_compute. reflexivity.
  - reflexivity.
Defined.

End ExtraWitnesses.
